(** * Voxel scenes: the audio step sequencer, the animation loops and the click handler

    A shallow embedding of the three scene components

      - [src/components/MetropolisScene.tsx] (class [CyberAudioEngine], the
        audio button, the [animate] callback of [MetropolisScene], [addVoxel]
        and [createVoxelGroup]),
      - [src/components/GafferScene.tsx] (the pointer handlers, the two voxel
        generators and [animate]),
      - [src/components/SkyPodScene.tsx] ([addVoxelGeneric], [spawnBullet],
        the boat, the bullet and particle physics of [animate], the effect
        cleanup, the night vision effect),

    together with the properties stated about them.

    Conventions.  Mutable objects become records that are passed explicitly;
    a method [m] of the source becomes a function from the state before the
    call to the state after it.  Calls into the browser and into three.js
    (audio nodes, timers, [Math.random], ray casting) are recorded in
    dedicated fields of the state or taken as parameters of a [Section].
    Counters that only ever hold small integers ([currentNote], [life]) are
    integers of [Z].  The clock of the audio engine is an exact rational number
    of seconds: the scheduler statements are about the nominal time line, and
    the rounding of binary64 additions is not part of this model.  Scene
    coordinates are binary64 floats ([PrimFloat]), as three.js stores them. *)

From Stdlib Require Import ZArith NArith QArith Qround Lqa Lia List Bool Floats.
From stdpp Require Import base tactics option list gmap sets strings pretty sorting.

Local Open Scope Z_scope.

(** ** Comparisons of rationals as booleans *)

Definition Qltb (x y : Q) : bool :=
  match (x ?= y)%Q with Lt => true | _ => false end.



(** * The audio engine of the metropolis scene *)

Module CyberAudio.

Local Open Scope Q_scope.

(** [AudioContext.state]; the engine only ever tests for ['suspended']. *)
Inductive ContextState := Running | Suspended.

Record AudioContext := {
  state : ContextState;
  currentTime : Q;
  sampleRate : Q
}.

(** What has been created in and connected to the audio graph.  One
    constructor per group of nodes that a method of the engine builds. *)
Inductive AudioNode :=
| MasterGainNode (gain : Q)          (* init *)
| ConvolverNode                      (* init: the reverb *)
| DroneSource                        (* startDrone *)
| RainNoiseSource                    (* startRainNoise *)
| TrainRumbleSource                  (* startTrainRumble *)
| ExplosionSource (t : Q)            (* triggerExplosion *)
| BassVoice (freq t : Q)             (* scheduleNote, even beats *)
| ArpVoice (freq pan t : Q)          (* scheduleNote, random odd beats *)
| HatVoice (t : Q).                  (* scheduleNote, beats 2, 6, 10, 14 *)

(** The fields of [CyberAudioEngine], followed by the part of the browser the
    engine acts on: the audio graph, the arguments of the [scheduleNote] calls
    that got past its guard, the pending [setTimeout] handles, the next handle
    to be handed out, and the number of [Math.random()] calls made so far. *)
Record Engine := mkEngine {
  ctx : option AudioContext;
  masterGain : option Q;
  reverbNode : bool;
  trainGain : option Q;
  isPlaying : bool;
  nextNoteTime : Q;
  schedulerTimer : option nat;
  tempo : Q;
  lookahead : Q;
  scheduleAheadTime : Q;
  currentNote : Z;
  scale : list Q;
  graph : list AudioNode;
  scheduled : list (Z * Q);
  timers : list nat;
  nextTimer : nat;
  draws : N
}.

Definition set_ctx (v : option AudioContext) (e : Engine) : Engine :=
  {| ctx := v; masterGain := masterGain e; reverbNode := reverbNode e;
     trainGain := trainGain e; isPlaying := isPlaying e; nextNoteTime := nextNoteTime e;
     schedulerTimer := schedulerTimer e; tempo := tempo e; lookahead := lookahead e;
     scheduleAheadTime := scheduleAheadTime e; currentNote := currentNote e;
     scale := scale e; graph := graph e; scheduled := scheduled e; timers := timers e;
     nextTimer := nextTimer e; draws := draws e |}.
Definition set_masterGain (v : option Q) (e : Engine) : Engine :=
  {| ctx := ctx e; masterGain := v; reverbNode := reverbNode e; trainGain := trainGain e;
     isPlaying := isPlaying e; nextNoteTime := nextNoteTime e;
     schedulerTimer := schedulerTimer e; tempo := tempo e; lookahead := lookahead e;
     scheduleAheadTime := scheduleAheadTime e; currentNote := currentNote e;
     scale := scale e; graph := graph e; scheduled := scheduled e; timers := timers e;
     nextTimer := nextTimer e; draws := draws e |}.
Definition set_reverbNode (v : bool) (e : Engine) : Engine :=
  {| ctx := ctx e; masterGain := masterGain e; reverbNode := v; trainGain := trainGain e;
     isPlaying := isPlaying e; nextNoteTime := nextNoteTime e;
     schedulerTimer := schedulerTimer e; tempo := tempo e; lookahead := lookahead e;
     scheduleAheadTime := scheduleAheadTime e; currentNote := currentNote e;
     scale := scale e; graph := graph e; scheduled := scheduled e; timers := timers e;
     nextTimer := nextTimer e; draws := draws e |}.
Definition set_trainGain (v : option Q) (e : Engine) : Engine :=
  {| ctx := ctx e; masterGain := masterGain e; reverbNode := reverbNode e; trainGain := v;
     isPlaying := isPlaying e; nextNoteTime := nextNoteTime e;
     schedulerTimer := schedulerTimer e; tempo := tempo e; lookahead := lookahead e;
     scheduleAheadTime := scheduleAheadTime e; currentNote := currentNote e;
     scale := scale e; graph := graph e; scheduled := scheduled e; timers := timers e;
     nextTimer := nextTimer e; draws := draws e |}.
Definition set_isPlaying (v : bool) (e : Engine) : Engine :=
  {| ctx := ctx e; masterGain := masterGain e; reverbNode := reverbNode e;
     trainGain := trainGain e; isPlaying := v; nextNoteTime := nextNoteTime e;
     schedulerTimer := schedulerTimer e; tempo := tempo e; lookahead := lookahead e;
     scheduleAheadTime := scheduleAheadTime e; currentNote := currentNote e;
     scale := scale e; graph := graph e; scheduled := scheduled e; timers := timers e;
     nextTimer := nextTimer e; draws := draws e |}.
Definition set_nextNoteTime (v : Q) (e : Engine) : Engine :=
  {| ctx := ctx e; masterGain := masterGain e; reverbNode := reverbNode e;
     trainGain := trainGain e; isPlaying := isPlaying e; nextNoteTime := v;
     schedulerTimer := schedulerTimer e; tempo := tempo e; lookahead := lookahead e;
     scheduleAheadTime := scheduleAheadTime e; currentNote := currentNote e;
     scale := scale e; graph := graph e; scheduled := scheduled e; timers := timers e;
     nextTimer := nextTimer e; draws := draws e |}.
Definition set_schedulerTimer (v : option nat) (e : Engine) : Engine :=
  {| ctx := ctx e; masterGain := masterGain e; reverbNode := reverbNode e;
     trainGain := trainGain e; isPlaying := isPlaying e; nextNoteTime := nextNoteTime e;
     schedulerTimer := v; tempo := tempo e; lookahead := lookahead e;
     scheduleAheadTime := scheduleAheadTime e; currentNote := currentNote e;
     scale := scale e; graph := graph e; scheduled := scheduled e; timers := timers e;
     nextTimer := nextTimer e; draws := draws e |}.
Definition set_currentNote (v : Z) (e : Engine) : Engine :=
  {| ctx := ctx e; masterGain := masterGain e; reverbNode := reverbNode e;
     trainGain := trainGain e; isPlaying := isPlaying e; nextNoteTime := nextNoteTime e;
     schedulerTimer := schedulerTimer e; tempo := tempo e; lookahead := lookahead e;
     scheduleAheadTime := scheduleAheadTime e; currentNote := v; scale := scale e;
     graph := graph e; scheduled := scheduled e; timers := timers e;
     nextTimer := nextTimer e; draws := draws e |}.
Definition set_graph (v : list AudioNode) (e : Engine) : Engine :=
  {| ctx := ctx e; masterGain := masterGain e; reverbNode := reverbNode e;
     trainGain := trainGain e; isPlaying := isPlaying e; nextNoteTime := nextNoteTime e;
     schedulerTimer := schedulerTimer e; tempo := tempo e; lookahead := lookahead e;
     scheduleAheadTime := scheduleAheadTime e; currentNote := currentNote e;
     scale := scale e; graph := v; scheduled := scheduled e; timers := timers e;
     nextTimer := nextTimer e; draws := draws e |}.
Definition set_scheduled (v : list (Z * Q)) (e : Engine) : Engine :=
  {| ctx := ctx e; masterGain := masterGain e; reverbNode := reverbNode e;
     trainGain := trainGain e; isPlaying := isPlaying e; nextNoteTime := nextNoteTime e;
     schedulerTimer := schedulerTimer e; tempo := tempo e; lookahead := lookahead e;
     scheduleAheadTime := scheduleAheadTime e; currentNote := currentNote e;
     scale := scale e; graph := graph e; scheduled := v; timers := timers e;
     nextTimer := nextTimer e; draws := draws e |}.
Definition set_timers (v : list nat) (e : Engine) : Engine :=
  {| ctx := ctx e; masterGain := masterGain e; reverbNode := reverbNode e;
     trainGain := trainGain e; isPlaying := isPlaying e; nextNoteTime := nextNoteTime e;
     schedulerTimer := schedulerTimer e; tempo := tempo e; lookahead := lookahead e;
     scheduleAheadTime := scheduleAheadTime e; currentNote := currentNote e;
     scale := scale e; graph := graph e; scheduled := scheduled e; timers := v;
     nextTimer := nextTimer e; draws := draws e |}.
Definition set_nextTimer (v : nat) (e : Engine) : Engine :=
  {| ctx := ctx e; masterGain := masterGain e; reverbNode := reverbNode e;
     trainGain := trainGain e; isPlaying := isPlaying e; nextNoteTime := nextNoteTime e;
     schedulerTimer := schedulerTimer e; tempo := tempo e; lookahead := lookahead e;
     scheduleAheadTime := scheduleAheadTime e; currentNote := currentNote e;
     scale := scale e; graph := graph e; scheduled := scheduled e; timers := timers e;
     nextTimer := v; draws := draws e |}.
Definition set_draws (v : N) (e : Engine) : Engine :=
  {| ctx := ctx e; masterGain := masterGain e; reverbNode := reverbNode e;
     trainGain := trainGain e; isPlaying := isPlaying e; nextNoteTime := nextNoteTime e;
     schedulerTimer := schedulerTimer e; tempo := tempo e; lookahead := lookahead e;
     scheduleAheadTime := scheduleAheadTime e; currentNote := currentNote e;
     scale := scale e; graph := graph e; scheduled := scheduled e; timers := timers e;
     nextTimer := nextTimer e; draws := v |}.

(** The field initialisers of the class; no audio context yet, nothing in
    the graph, no timer pending.  Handles of [setTimeout] are positive. *)
Definition initial : Engine := {|
  ctx := None; masterGain := None; reverbNode := false; trainGain := None;
  isPlaying := false; nextNoteTime := 0; schedulerTimer := None;
  tempo := 100; lookahead := 25.0; scheduleAheadTime := 0.1;
  currentNote := 0%Z;
  scale := [65.41; 77.78; 87.31; 98.00; 116.54;
            130.81; 155.56; 174.61; 196.00; 233.08;
            261.63; 311.13; 349.23; 392.00; 466.16];
  graph := []; scheduled := []; timers := []; nextTimer := 1%nat; draws := 0%N
|}.

(** [node.connect(...)] / [source.start()]: the node joins the graph. *)
Definition connect (n : AudioNode) (e : Engine) : Engine :=
  set_graph (graph e ++ [n]) e.

(** A [for (let i = 0; i < bound; i++)] loop whose body calls
    [Math.random()] [per] times: it runs once for every integer [0 <= i < bound]. *)
Definition noiseLoop (bound : Q) (per : N) (e : Engine) : Engine :=
  set_draws (draws e + per * Z.to_N (Qceiling bound))%N e.

Section Engine.

(** [new AudioContext()] as the browser answers it: [None] when the
    constructor is missing or throws. *)
Variable newContext : option AudioContext.

(** The values returned by the successive calls of [Math.random()]. *)
Variable Math_random : N -> Q.

Definition random (e : Engine) : Q * Engine :=
  (Math_random (draws e), set_draws (N.succ (draws e)) e).

(** [impulseResponse(duration, decay, reverse)]: [Some] when a buffer is
    returned; the samples themselves are not modelled. *)
Definition impulseResponse (duration : Q) (e : Engine) : bool * Engine :=
  match ctx e with
  | None => (false, e)
  | Some c => (true, noiseLoop (sampleRate c * duration) 2 e)
  end.

(** [async init()].  The body has no [await]: it runs to completion inside
    the call.  An exception of the constructor rejects the returned promise
    and leaves every field as it was. *)
Definition init (e : Engine) : Engine :=
  match ctx e with
  | Some _ => e
  | None =>
    match newContext with
    | None => e
    | Some c =>
      let e := set_ctx (Some c) e in
      let e := set_masterGain (Some 0.4) e in
      let e := connect (MasterGainNode 0.4) e in
      let e := set_reverbNode true e in
      let '(_, e) := impulseResponse 4 e in
      connect ConvolverNode e
    end
  end.

Definition startDrone (e : Engine) : Engine :=
  match ctx e, masterGain e, reverbNode e with
  | Some _, Some _, true => connect DroneSource e
  | _, _, _ => e
  end.

Definition startRainNoise (e : Engine) : Engine :=
  match ctx e, masterGain e with
  | Some c, Some _ => connect RainNoiseSource (noiseLoop (2 * sampleRate c) 1 e)
  | _, _ => e
  end.

Definition startTrainRumble (e : Engine) : Engine :=
  match ctx e, masterGain e with
  | Some c, Some _ =>
    let e := noiseLoop (sampleRate c * 2) 1 e in
    let e := set_trainGain (Some 0) e in
    connect TrainRumbleSource e
  | _, _ => e
  end.

(** [setTrainVolume]: the gain is given a new target value. *)
Definition setTrainVolume (volume : Q) (e : Engine) : Engine :=
  match trainGain e, ctx e with
  | Some _, Some _ => set_trainGain (Some (volume * 3.0)) e
  | _, _ => e
  end.

Definition triggerExplosion (e : Engine) : Engine :=
  match ctx e, masterGain e with
  | Some c, Some _ =>
    connect (ExplosionSource (currentTime c)) (noiseLoop (sampleRate c * 0.5) 1 e)
  | _, _ => e
  end.

(** [scheduleNote(beatNumber, time)]. [%] of JavaScript is [Z.rem]. *)
Definition scheduleNote (beatNumber : Z) (time : Q) (e : Engine) : Engine :=
  match ctx e, masterGain e, reverbNode e with
  | Some c, Some _, true =>
    let e := set_scheduled (scheduled e ++ [(beatNumber, time)]) e in
    let e :=
      if Z.rem beatNumber 2 =? 0
      then connect (BassVoice (if Z.rem beatNumber 8 =? 0 then 32.70 else 65.41) time) e
      else e in
    let '(r, e) := random e in
    let e :=
      if Qltb 0.8 r && negb (Z.rem beatNumber 2 =? 0)
      then
        let '(r1, e) := random e in
        let noteIdx := (5 + Qfloor (r1 * 10))%Z in
        let '(r2, e) := random e in
        connect (ArpVoice (nth (Z.to_nat noteIdx) (scale e) 0) (r2 * 2 - 1) time) e
      else e in
    if Z.rem beatNumber 4 =? 2
    then connect (HatVoice time) (noiseLoop (sampleRate c * 0.05) 1 e)
    else e
  | _, _, _ => e
  end.

Definition nextNote (e : Engine) : Engine :=
  let secondsPerBeat := 60.0 / tempo e in
  let e := set_nextNoteTime (nextNoteTime e + 0.25 * secondsPerBeat) e in
  let e := set_currentNote (currentNote e + 1)%Z e in
  if currentNote e =? 16 then set_currentNote 0%Z e else e.

(** The [while] loop of [scheduler].  [fuel] bounds the number of iterations;
    [None] is "still looping when the fuel ran out" (or the property access on
    a null [ctx], which the guard of [scheduler] excludes). *)
Fixpoint schedulerLoop (fuel : nat) (e : Engine) : option Engine :=
  match ctx e with
  | None => None
  | Some c =>
    if Qltb (nextNoteTime e) (currentTime c + scheduleAheadTime e)
    then
      match fuel with
      | O => None
      | S fuel => schedulerLoop fuel (nextNote (scheduleNote (currentNote e) (nextNoteTime e) e))
      end
    else Some e
  end.

(** [window.setTimeout(() => this.scheduler(), this.lookahead)]. *)
Definition setTimeout (e : Engine) : nat * Engine :=
  let id := nextTimer e in
  (id, set_nextTimer (S id) (set_timers (timers e ++ [id]) e)).

(** [window.clearTimeout(id)]. *)
Definition clearTimeout (id : nat) (e : Engine) : Engine :=
  set_timers (filter (fun t => t <> id) (timers e)) e.

Definition scheduler (fuel : nat) (e : Engine) : option Engine :=
  if negb (isPlaying e) || negb (bool_decide (is_Some (ctx e))) then Some e
  else
    match schedulerLoop fuel e with
    | None => None
    | Some e =>
      let '(id, e) := setTimeout e in
      Some (set_schedulerTimer (Some id) e)
    end.

(** [ctx.resume()] and [ctx.suspend()]. *)
Definition resume (e : Engine) : Engine :=
  match ctx e with
  | Some c => set_ctx (Some {| state := Running; currentTime := currentTime c; sampleRate := sampleRate c |}) e
  | None => e
  end.

Definition suspend (e : Engine) : Engine :=
  match ctx e with
  | Some c => set_ctx (Some {| state := Suspended; currentTime := currentTime c; sampleRate := sampleRate c |}) e
  | None => e
  end.

Definition is_suspended (e : Engine) : bool :=
  match ctx e with
  | Some {| state := Suspended |} => true
  | _ => false
  end.

Definition start (fuel : nat) (e : Engine) : option Engine :=
  let e := if bool_decide (is_Some (ctx e)) then e else init e in
  let e := if is_suspended e then resume e else e in
  if isPlaying e then Some e
  else
    let e := set_isPlaying true e in
    let e := startDrone e in
    let e := startRainNoise e in
    let e := startTrainRumble e in
    let e := match ctx e with
             | Some c => set_nextNoteTime (currentTime c) e
             | None => e
             end in
    scheduler fuel e.

(** [stop()].  A timer handle is truthy when it is not [0]. *)
Definition stop (e : Engine) : Engine :=
  let e := set_isPlaying false e in
  let e := suspend e in
  match schedulerTimer e with
  | Some (S id) => clearTimeout (S id) e
  | _ => e
  end.

(** A pending timer fires: it leaves the pending set and its callback, which
    is always [() => this.scheduler()], runs. *)
Definition fireTimer (fuel : nat) (id : nat) (e : Engine) : option Engine :=
  if bool_decide (id ∈ timers e)
  then scheduler fuel (clearTimeout id e)
  else Some e.

(** The clock of a running context advances. *)
Definition tick (dt : Q) (e : Engine) : Engine :=
  match ctx e with
  | Some {| state := Running; currentTime := t; sampleRate := r |} =>
    if Qle_bool 0 dt
    then set_ctx (Some {| state := Running; currentTime := t + dt; sampleRate := r |}) e
    else e
  | _ => e
  end.

(** What can happen to an engine: a method is called, a timer fires, time
    passes. *)
Inductive Call :=
| CInit | CStart | CStop | CScheduler | CNextNote
| CSetTrainVolume (volume : Q) | CTriggerExplosion
| CTimer (id : nat) | CTick (dt : Q).

Definition call (fuel : nat) (c : Call) (e : Engine) : option Engine :=
  match c with
  | CInit => Some (init e)
  | CStart => start fuel e
  | CStop => Some (stop e)
  | CScheduler => scheduler fuel e
  | CNextNote => Some (nextNote e)
  | CSetTrainVolume v => Some (setTrainVolume v e)
  | CTriggerExplosion => Some (triggerExplosion e)
  | CTimer id => fireTimer fuel id e
  | CTick dt => Some (tick dt e)
  end.

(** [run cs e e']: the calls [cs], each one returning, take [e] to [e']. *)
Inductive run : list Call -> Engine -> Engine -> Prop :=
| run_nil e : run [] e e
| run_cons fuel c cs e e1 e2 :
    call fuel c e = Some e1 -> run cs e1 e2 -> run (c :: cs) e e2.

Definition reachable (e : Engine) : Prop := exists cs, run cs initial e.

(** The notes still to come, as [nextNote] enumerates them: the [i]-th
    pending note is the beat and time found after [i] calls of [nextNote]. *)
Definition pendingNote (e : Engine) (i : nat) : Z * Q :=
  let e := Nat.iter i nextNote e in (currentNote e, nextNoteTime e).

(** ** Facts about the engine *)

(** Case analysis on every [match] and [if] a method body exposes,
    innermost scrutinee first. *)
Ltac branch_on x :=
  lazymatch x with
  | context [match ?y with _ => _ end] => branch_on y
  | _ => destruct x eqn:?; cbn
  end.

Ltac branches :=
  cbn; repeat match goal with
              | |- context [match ?x with _ => _ end] => branch_on x
              end.

(** The fields that decide what the sequencer does next. *)
Definition beat (e : Engine) : Z * Q * Q := (currentNote e, nextNoteTime e, tempo e).

(** The fields that [scheduleNote] and [nextNote] only read. *)
Definition setup (e : Engine) :=
  (ctx e, masterGain e, reverbNode e, isPlaying e, scheduleAheadTime e, tempo e).

Lemma scheduleNote_beat b t e : beat (scheduleNote b t e) = beat e.
Proof. unfold scheduleNote, random. branches; reflexivity. Qed.

Lemma scheduleNote_setup b t e : setup (scheduleNote b t e) = setup e.
Proof. unfold scheduleNote, random. branches; reflexivity. Qed.



Lemma nextNote_setup e : setup (nextNote e) = setup e.
Proof. unfold nextNote. branches; reflexivity. Qed.

Lemma nextNote_scheduled e :
  scheduled (nextNote e) = scheduled e /\ timers (nextNote e) = timers e
  /\ nextTimer (nextNote e) = nextTimer e /\ graph (nextNote e) = graph e.
Proof. unfold nextNote. branches; auto. Qed.

Lemma nextNote_time e :
  nextNoteTime (nextNote e) = nextNoteTime e + 0.25 * (60.0 / tempo e).
Proof. unfold nextNote. branches; reflexivity. Qed.

Lemma nextNote_currentNote e :
  currentNote (nextNote e) = if (currentNote e + 1 =? 16)%Z then 0%Z else (currentNote e + 1)%Z.
Proof. unfold nextNote. cbn. destruct (currentNote e + 1 =? 16)%Z; reflexivity. Qed.

Lemma nextNote_tempo e : tempo (nextNote e) = tempo e.
Proof. unfold nextNote. branches; reflexivity. Qed.

Lemma nextNote_beat e1 e2 : beat e1 = beat e2 -> beat (nextNote e1) = beat (nextNote e2).
Proof.
  unfold beat. intros [= Hn Ht Hp].
  rewrite !nextNote_time, !nextNote_currentNote, !nextNote_tempo, Hn, Ht, Hp.
  reflexivity.
Qed.

Lemma iter_nextNote_beat i e1 e2 :
  beat e1 = beat e2 -> beat (Nat.iter i nextNote e1) = beat (Nat.iter i nextNote e2).
Proof. intros H. induction i as [|i IH]; cbn; [assumption | now apply nextNote_beat]. Qed.

Lemma pendingNote_beat i e1 e2 : beat e1 = beat e2 -> pendingNote e1 i = pendingNote e2 i.
Proof.
  intros H. apply (iter_nextNote_beat i) in H. unfold pendingNote, beat in *. congruence.
Qed.











(** One turn of the [while] loop. *)
Definition turn (e : Engine) : Engine :=
  nextNote (scheduleNote (currentNote e) (nextNoteTime e) e).

(** Whatever every turn keeps, the loop keeps. *)
Lemma schedulerLoop_keeps (P : Engine -> Prop) :
  (forall e, P e -> P (turn e)) ->
  forall fuel e e', schedulerLoop fuel e = Some e' -> P e -> P e'.
Proof.
  intros Hturn. induction fuel as [|fuel IH]; intros e e'; cbn.
  all: destruct (ctx e); [|discriminate].
  all: destruct (Qltb _ _); [|intros [= <-]; trivial].
  - discriminate.
  - intros Hrun HP. apply (IH _ _ Hrun). now apply Hturn.
Qed.

(** What holds of every engine that the calls can produce. *)
Definition invariant (e : Engine) : Prop :=
  tempo e = 100 /\ scheduleAheadTime e = 0.1
  /\ (0 <= currentNote e < 16)%Z
  /\ (is_Some (ctx e) -> is_Some (masterGain e) /\ reverbNode e = true)
  /\ (isPlaying e = true -> ctx e = None -> newContext = None).

Ltac invariant_of_body :=
  unfold invariant; intros (? & ? & ? & ? & ?); branches; cbn in *;
  repeat split; try (intros; congruence); try lia; eauto;
  try (intros; exfalso; eapply is_Some_None; eassumption).

Lemma initial_invariant : invariant initial.
Proof.
  unfold invariant, initial; cbn.
  split; [reflexivity|]. split; [reflexivity|]. split; [lia|].
  split; [intros [? [=]] | discriminate].
Qed.

Lemma init_invariant e : invariant e -> invariant (init e).
Proof.
  unfold init, impulseResponse, connect, noiseLoop.
  destruct (ctx e) eqn:Hc; [trivial|]. destruct newContext eqn:Hnew; [|trivial].
  unfold invariant; cbn. rewrite Hc. cbn. intros (? & ? & ? & ? & ?).
  repeat split; eauto; try lia; discriminate.
Qed.

Lemma turn_invariant e : invariant e -> invariant (turn e).
Proof.
  unfold turn, invariant. intros (Ht & Ha & Hn & Hc & Hp).
  pose proof (nextNote_setup (scheduleNote (currentNote e) (nextNoteTime e) e)) as H1.
  pose proof (scheduleNote_setup (currentNote e) (nextNoteTime e) e) as H2.
  pose proof (scheduleNote_beat (currentNote e) (nextNoteTime e) e) as H3.
  unfold setup, beat in H1, H2, H3.
  injection H1 as -> -> -> -> -> ->. injection H2 as -> -> -> -> -> ->.
  rewrite nextNote_currentNote. injection H3 as -> _ _.
  split; [exact Ht|]. split; [exact Ha|]. split; [|split; assumption].
  destruct (Z.eqb_spec (currentNote e + 1) 16); lia.
Qed.

Lemma setTimeout_invariant e : invariant e -> invariant (set_schedulerTimer (Some (fst (setTimeout e))) (snd (setTimeout e))).
Proof. unfold setTimeout. cbn. trivial. Qed.

Lemma scheduler_invariant fuel e e' :
  scheduler fuel e = Some e' -> invariant e -> invariant e'.
Proof.
  unfold scheduler. destruct (_ || _); [intros [= <-]; trivial|].
  destruct (schedulerLoop fuel e) as [e1|] eqn:Hloop; [|discriminate].
  intros [= <-] He. apply (schedulerLoop_keeps invariant turn_invariant _ _ _ Hloop) in He.
  exact He.
Qed.

Ltac invariant_fields :=
  unfold invariant in *;
  repeat match goal with H : _ = _ |- _ => rewrite H in * end;
  cbn in *; intros;
  repeat match goal with
         | H : _ /\ _ |- _ => destruct H
         | H : is_Some (Some ?a) -> _ |- _ => specialize (H (ex_intro _ a eq_refl))
         end;
  intuition (try congruence; try lia; try discriminate; eauto).

Lemma resume_invariant e : invariant e -> invariant (resume e).
Proof. unfold resume. destruct (ctx e) eqn:Hc; [|trivial]. invariant_fields. Qed.

Lemma suspend_invariant e : invariant e -> invariant (suspend e).
Proof. unfold suspend. destruct (ctx e) eqn:Hc; [|trivial]. invariant_fields. Qed.

Lemma stop_invariant e : invariant e -> invariant (stop e).
Proof.
  intros He. unfold stop.
  assert (H1 : invariant (suspend (set_isPlaying false e))).
  { apply suspend_invariant. invariant_fields. }
  destruct (schedulerTimer _) as [[|id]|]; trivial.
Qed.

Lemma nextNote_invariant e : invariant e -> invariant (nextNote e).
Proof.
  intros (Ht & Ha & Hn & Hc & Hp). unfold invariant.
  pose proof (nextNote_setup e) as H1. unfold setup in H1.
  injection H1 as -> -> -> -> -> ->. rewrite nextNote_currentNote.
  split; [exact Ht|]. split; [exact Ha|]. split; [|split; assumption].
  destruct (Z.eqb_spec (currentNote e + 1) 16); lia.
Qed.

Lemma setTrainVolume_invariant v e : invariant e -> invariant (setTrainVolume v e).
Proof. unfold setTrainVolume. destruct (trainGain e), (ctx e); trivial. Qed.

Lemma triggerExplosion_invariant e : invariant e -> invariant (triggerExplosion e).
Proof.
  unfold triggerExplosion. destruct (ctx e), (masterGain e); trivial.
Qed.

Lemma tick_invariant dt e : invariant e -> invariant (tick dt e).
Proof.
  unfold tick. destruct (ctx e) as [[[] t r]|] eqn:Hc; trivial.
  destruct (Qle_bool 0 dt); trivial. invariant_fields.
Qed.

Lemma clearTimeout_invariant id e : invariant e -> invariant (clearTimeout id e).
Proof. unfold clearTimeout. invariant_fields. Qed.

Lemma fireTimer_invariant fuel id e e' :
  fireTimer fuel id e = Some e' -> invariant e -> invariant e'.
Proof.
  unfold fireTimer. destruct (bool_decide _).
  - intros H He. eapply scheduler_invariant; [exact H|]. now apply clearTimeout_invariant.
  - now intros [= <-].
Qed.

(** [start], read in two halves: everything up to the test of [isPlaying],
    and what follows it up to the call of [scheduler]. *)
Definition prelude (e : Engine) : Engine :=
  let e := if bool_decide (is_Some (ctx e)) then e else init e in
  if is_suspended e then resume e else e.

Definition launch (e : Engine) : Engine :=
  let e := set_isPlaying true e in
  let e := startDrone e in
  let e := startRainNoise e in
  let e := startTrainRumble e in
  match ctx e with
  | Some c => set_nextNoteTime (currentTime c) e
  | None => e
  end.

Lemma start_halves fuel e :
  start fuel e = if isPlaying (prelude e) then Some (prelude e)
                 else scheduler fuel (launch (prelude e)).
Proof. reflexivity. Qed.

Lemma prelude_invariant e : invariant e -> invariant (prelude e).
Proof.
  intros He. unfold prelude.
  assert (H1 : invariant (if bool_decide (is_Some (ctx e)) then e else init e)).
  { destruct (bool_decide _); [trivial | now apply init_invariant]. }
  destruct (is_suspended _); [now apply resume_invariant | trivial].
Qed.

(** After the prelude an engine without a context is one that cannot get any. *)
Lemma prelude_no_context e : ctx (prelude e) = None -> newContext = None.
Proof.
  unfold prelude, init, impulseResponse, resume, is_suspended.
  destruct (ctx e) as [[[] t r]|] eqn:Hc; cbn; rewrite ?Hc; cbn; try discriminate.
  destruct newContext as [[[] t r]|]; cbn; try discriminate; trivial.
Qed.

Lemma launch_setup e :
  setup (launch e) = (ctx e, masterGain e, reverbNode e, true, scheduleAheadTime e, tempo e)
  /\ currentNote (launch e) = currentNote e.
Proof.
  unfold launch, startTrainRumble, startRainNoise, startDrone, connect, noiseLoop, setup.
  cbn. branches; split; congruence.
Qed.

Lemma launch_invariant e :
  (ctx e = None -> newContext = None) -> invariant e -> invariant (launch e).
Proof.
  intros Hnone (Ht & Ha & Hn & Hc & Hp). unfold invariant.
  destruct (launch_setup e) as [H1 ->]. unfold setup in H1.
  injection H1 as -> -> -> _ -> ->. auto.
Qed.

Lemma start_invariant fuel e e' : start fuel e = Some e' -> invariant e -> invariant e'.
Proof.
  rewrite start_halves. intros H He. apply prelude_invariant in He.
  destruct (isPlaying (prelude e)).
  - now injection H as <-.
  - eapply scheduler_invariant; [exact H|].
    apply launch_invariant; [apply prelude_no_context | exact He].
Qed.

Lemma call_invariant fuel c e e' : call fuel c e = Some e' -> invariant e -> invariant e'.
Proof.
  destruct c; cbn; try (intros [= <-]).
  - apply init_invariant.
  - apply start_invariant.
  - apply stop_invariant.
  - apply scheduler_invariant.
  - apply nextNote_invariant.
  - apply setTrainVolume_invariant.
  - apply triggerExplosion_invariant.
  - apply fireTimer_invariant.
  - apply tick_invariant.
Qed.

Lemma run_invariant cs e e' : run cs e e' -> invariant e -> invariant e'.
Proof. induction 1; eauto using call_invariant. Qed.

Lemma reachable_invariant e : reachable e -> invariant e.
Proof. intros [cs H]. exact (run_invariant _ _ _ H initial_invariant). Qed.

(** [run] as a function, for concrete call sequences. *)
Fixpoint calls (fuel : nat) (cs : list Call) (e : Engine) : option Engine :=
  match cs with
  | [] => Some e
  | c :: cs =>
    match call fuel c e with
    | Some e => calls fuel cs e
    | None => None
    end
  end.

Lemma calls_run fuel cs : forall e e', calls fuel cs e = Some e' -> run cs e e'.
Proof.
  induction cs as [|c cs IH]; cbn; intros e e'.
  - intros [= <-]. constructor.
  - destruct (call fuel c e) as [e1|] eqn:Hc; [|discriminate].
    intros H. econstructor; [exact Hc | now apply IH].
Qed.



(** C2.  The beat counter stays among the sixteen steps of the pattern in
    every engine the calls can produce; [scheduleNote] leaves it alone and the
    [nextNote] that follows each scheduled note advances it by one, step 15
    being followed by step 0. *)
Theorem currentNote_stays_in_pattern e :
  reachable e ->
  (0 <= currentNote e < 16)%Z
  /\ currentNote (nextNote e) = ((currentNote e + 1) mod 16)%Z
  /\ (forall b t, currentNote (scheduleNote b t e) = currentNote e)
  /\ currentNote (turn e) = ((currentNote e + 1) mod 16)%Z.
Proof.
  intros Hreach. destruct (reachable_invariant e Hreach) as (_ & _ & Hn & _).
  assert (Hnext : forall e0, (0 <= currentNote e0 < 16)%Z ->
                    currentNote (nextNote e0) = ((currentNote e0 + 1) mod 16)%Z).
  { intros e0 H0. rewrite nextNote_currentNote.
    destruct (Z.eqb_spec (currentNote e0 + 1) 16) as [->|Hne].
    - reflexivity.
    - rewrite Z.mod_small; lia. }
  assert (Hsched : forall b t, currentNote (scheduleNote b t e) = currentNote e).
  { intros b t. pose proof (scheduleNote_beat b t e) as H. unfold beat in H. congruence. }
  split; [exact Hn|]. split; [now apply Hnext|]. split; [exact Hsched|].
  unfold turn. rewrite Hnext; rewrite Hsched; [reflexivity | exact Hn].
Qed.

(** What a call other than [start] does to a stopped engine: it stays
    stopped, no note is handed to [scheduleNote], no timer is armed, and a
    suspended context stays as it is. *)
Definition quiet (e e' : Engine) : Prop :=
  isPlaying e' = false
  /\ scheduled e' = scheduled e
  /\ nextTimer e' = nextTimer e
  /\ timers e' ⊆ timers e
  /\ (is_suspended e = true -> ctx e' = ctx e).

Lemma quiet_refl e : isPlaying e = false -> quiet e e.
Proof. unfold quiet. intros ->. repeat split; trivial. Qed.

Lemma scheduler_stopped fuel e : isPlaying e = false -> scheduler fuel e = Some e.
Proof. unfold scheduler. now intros ->. Qed.

Lemma clearTimeout_subseteq id e : timers (clearTimeout id e) ⊆ timers e.
Proof. unfold clearTimeout. cbn. intros x Hx. apply list_elem_of_filter in Hx. tauto. Qed.

Lemma clearTimeout_cleared id e : id ∉ timers (clearTimeout id e).
Proof. unfold clearTimeout. cbn. intros Hx. apply list_elem_of_filter in Hx. tauto. Qed.

Ltac quiet_fields :=
  branches; repeat split; auto; try discriminate; try congruence;
  try (intros x Hin; apply list_elem_of_filter in Hin; tauto).

Lemma quiet_call fuel c e e' :
  c <> CStart -> isPlaying e = false -> call fuel c e = Some e' -> quiet e e'.
Proof.
  intros Hc Hp. unfold quiet. destruct c; cbn; try congruence.
  - (* init *)
    intros [= <-]. unfold init, impulseResponse, connect, noiseLoop, is_suspended.
    quiet_fields.
  - (* stop *)
    intros [= <-]. unfold stop, suspend, is_suspended, clearTimeout. quiet_fields.
  - (* scheduler *)
    rewrite scheduler_stopped by assumption. intros [= <-]. auto.
  - (* nextNote *)
    intros [= <-]. destruct (nextNote_scheduled e) as (-> & -> & -> & _).
    pose proof (nextNote_setup e) as H. unfold setup in H. injection H as -> _ _ -> _ _.
    auto.
  - (* setTrainVolume *)
    intros [= <-]. unfold setTrainVolume. quiet_fields.
  - (* triggerExplosion *)
    intros [= <-]. unfold triggerExplosion, connect, noiseLoop. quiet_fields.
  - (* a timer fires *)
    unfold fireTimer. destruct (bool_decide _); [|intros [= <-]; auto].
    rewrite scheduler_stopped by assumption. intros [= <-].
    unfold clearTimeout. quiet_fields.
  - (* time passes *)
    intros [= <-]. unfold tick, is_suspended. quiet_fields.
Qed.

Lemma quiet_run cs : forall e e',
  CStart ∉ cs -> isPlaying e = false -> run cs e e' -> quiet e e'.
Proof.
  induction cs as [|c cs IH]; intros e e' Hno Hp Hrun;
    inversion Hrun as [|fuel c' cs' ea e1 eb Hcall Hrest]; subst.
  - now apply quiet_refl.
  - assert (Hc : c <> CStart) by (intros ->; apply Hno; left).
    assert (Hcs : CStart ∉ cs) by (intros Hin; apply Hno; now right).
    pose proof (quiet_call _ _ _ _ Hc Hp Hcall) as H1.
    pose proof (IH _ _ Hcs (proj1 H1) Hrest) as H3.
    destruct H1 as (Hp1 & Hs1 & Hn1 & Ht1 & Hx1), H3 as (Hp3 & Hs3 & Hn3 & Ht3 & Hx3).
    unfold quiet. split; [exact Hp3|]. split; [congruence|]. split; [congruence|].
    split; [etrans; eassumption|].
    intros Hsus. rewrite <- (Hx1 Hsus). apply Hx3.
    unfold is_suspended in *. now rewrite (Hx1 Hsus).
Qed.

(** C8.  [stop] clears [isPlaying], suspends the context and cancels the
    timer whose handle it holds.  A [scheduler] call on a stopped engine
    returns the engine as it found it.  Hence, whatever is called after
    [stop] short of [start], and whichever timers still fire, no note is
    scheduled and no timer is armed, and the suspended clock stands still. *)
Theorem stop_silences_sequencer e cs e' :
  run cs (stop e) e' -> CStart ∉ cs ->
  isPlaying (stop e) = false
  /\ (is_Some (ctx e) -> is_suspended (stop e) = true)
  /\ (forall id, schedulerTimer e = Some (S id) -> S id ∉ timers (stop e))
  /\ (forall fuel e0, isPlaying e0 = false -> scheduler fuel e0 = Some e0)
  /\ isPlaying e' = false
  /\ scheduled e' = scheduled e
  /\ nextTimer e' = nextTimer e
  /\ timers e' ⊆ timers e
  /\ (is_Some (ctx e) -> ctx e' = ctx (stop e)).
Proof.
  intros Hrun Hno.
  assert (Hp : isPlaying (stop e) = false).
  { unfold stop, suspend, clearTimeout. quiet_fields. }
  assert (Hsus : is_Some (ctx e) -> is_suspended (stop e) = true).
  { intros [c Hc]. unfold stop, suspend, is_suspended, clearTimeout. cbn. quiet_fields. }
  assert (Hfields : scheduled (stop e) = scheduled e /\ nextTimer (stop e) = nextTimer e
                    /\ timers (stop e) ⊆ timers e).
  { unfold stop, suspend, clearTimeout. quiet_fields. }
  destruct Hfields as (Hs & Hn & Ht).
  destruct (quiet_run cs _ _ Hno Hp Hrun) as (Hp' & Hs' & Hn' & Ht' & Hx').
  split; [exact Hp|]. split; [exact Hsus|]. split; [|split; [apply scheduler_stopped|]].
  - intros id Hid. unfold stop, suspend. cbn.
    destruct (ctx e); cbn; rewrite Hid; cbn; intros Hin;
      apply list_elem_of_filter in Hin; tauto.
  - split; [exact Hp'|]. split; [congruence|]. split; [congruence|].
    split; [etrans; eassumption|]. intros Hc. apply Hx'. now apply Hsus.
Qed.


(** ** Further properties of the engine *)

(** *** One scheduler loop at a time *)




















(** *** The voices of a note *)










(** *** Sources are added, never removed *)

Definition isVoice (n : AudioNode) : bool :=
  match n with
  | BassVoice _ _ | ArpVoice _ _ _ | HatVoice _ => true
  | _ => false
  end.









(** *** A browser without an audio context *)

(** An engine that has no context and has built nothing. *)
Definition mute (e : Engine) : Prop :=
  ctx e = None /\ masterGain e = None /\ trainGain e = None
  /\ graph e = [] /\ scheduled e = [] /\ timers e = [].

Ltac mute_fields :=
  unfold mute in *;
  repeat match goal with H : _ /\ _ |- _ => destruct H end;
  repeat match goal with
         | H : ctx _ = None |- _ => rewrite H in *
         | H : masterGain _ = None |- _ => rewrite H in *
         | H : trainGain _ = None |- _ => rewrite H in *
         | H : timers _ = [] |- _ => rewrite H in *
         end;
  cbn in *; auto 10.

Lemma start_mute fuel e :
  newContext = None -> mute e ->
  start fuel e = Some (if isPlaying e then e else set_isPlaying true e).
Proof.
  intros Hnew (Hc & Hg & _). rewrite start_halves.
  assert (Hp : prelude e = e).
  { unfold prelude.
    rewrite (bool_decide_eq_false_2 (is_Some (ctx e))) by (rewrite Hc; intros [? [=]]).
    unfold init, is_suspended. rewrite Hc, Hnew. now rewrite Hc. }
  rewrite Hp. destruct (isPlaying e); [reflexivity|].
  assert (Hl : launch e = set_isPlaying true e).
  { unfold launch, startTrainRumble, startRainNoise, startDrone. cbn.
    repeat (rewrite Hc; cbn). reflexivity. }
  rewrite Hl. unfold scheduler. cbn.
  rewrite (bool_decide_eq_false_2 (is_Some (ctx e))) by (rewrite Hc; intros [? [=]]).
  reflexivity.
Qed.

Lemma call_mute fuel c e e' :
  newContext = None -> mute e -> call fuel c e = Some e' -> mute e'.
Proof.
  intros Hnew Hm. destruct c; cbn [call]; try (intros [= <-]).
  - unfold init. destruct Hm as (Hc & Hrest). rewrite Hc, Hnew. now split.
  - rewrite (start_mute fuel e Hnew Hm). intros [= <-]. destruct (isPlaying e); exact Hm.
  - unfold stop, suspend, clearTimeout. cbn. mute_fields.
    destruct (schedulerTimer e) as [[|id]|]; cbn; mute_fields.
  - unfold scheduler. destruct Hm as (Hc & Hrest). rewrite Hc.
    destruct (isPlaying e); cbn; intros [= <-]; now split.
  - unfold nextNote. cbn. destruct (_ =? _)%Z; exact Hm.
  - unfold setTrainVolume. mute_fields.
  - unfold triggerExplosion. mute_fields.
  - unfold fireTimer. destruct Hm as (Hc & Hg & Ht & Hgr & Hs & Htm). rewrite Htm.
    rewrite bool_decide_eq_false_2 by apply not_elem_of_nil. intros [= <-]. now repeat split.
  - unfold tick. mute_fields.
Qed.

Lemma run_mute cs e e' : newContext = None -> run cs e e' -> mute e -> mute e'.
Proof.
  intros Hnew. induction 1 as [|fuel c cs e e1 e2 Hcall Hrun IH]; [trivial|].
  intros He. apply IH. exact (call_mute _ _ _ _ Hnew He Hcall).
Qed.

(** X4.  Where the browser gives no audio context, no call ever creates a
    node, schedules a note or arms a timer, and the engine never gets a
    context.  [start] still returns, and all it does is set [isPlaying]. *)
Theorem no_context_no_sound cs e :
  newContext = None -> run cs initial e ->
  (ctx e = None /\ graph e = [] /\ scheduled e = [] /\ timers e = [])
  /\ forall fuel, start fuel e = Some (if isPlaying e then e else set_isPlaying true e).
Proof.
  intros Hnew Hrun.
  assert (H0 : mute initial) by (unfold mute; cbn; auto 10).
  pose proof (run_mute cs initial e Hnew Hrun H0) as Hm.
  split; [|intros fuel; now apply start_mute].
  destruct Hm as (Hc & _ & _ & Hg & Hs & Ht). auto.
Qed.

(** *** The audio button *)

(** [toggleAudio] of the component, on the state [audioEnabled] and the
    engine in [audioRef].  Its [await audioRef.current.init()] resumes at
    once; where [init] rejects, because the constructor of the context
    fails, the handler ends there.  A click finds the value of [audioEnabled]
    that the click before it has set. *)
Definition toggleAudio (fuel : nat) (ui : bool * Engine) : option (bool * Engine) :=
  let '(audioEnabled, e) := ui in
  if negb audioEnabled then
    match ctx e, newContext with
    | None, None => Some (audioEnabled, e)
    | _, _ =>
      match start fuel (init e) with
      | Some e => Some (true, e)
      | None => None
      end
    end
  else Some (false, stop e).

(** [clicks n ui ui']: [n] clicks on the button, each handler returning,
    take [ui] to [ui']. *)
Inductive clicks : nat -> bool * Engine -> bool * Engine -> Prop :=
| clicks_none ui : clicks 0 ui ui
| clicks_more fuel n ui ui1 ui2 :
    toggleAudio fuel ui = Some ui1 -> clicks n ui1 ui2 -> clicks (S n) ui ui2.







(** [clicks] as a function, for concrete numbers of clicks. *)
Fixpoint press (fuel : nat) (n : nat) (ui : bool * Engine) : option (bool * Engine) :=
  match n with
  | O => Some ui
  | S n =>
    match toggleAudio fuel ui with
    | Some ui => press fuel n ui
    | None => None
    end
  end.


End Engine.

(** A browser that grants an audio context at 44.1 kHz and a random source
    that always answers 0.9; an engine started at time 0 on which 0.4 s have
    passed since. *)
Definition demoContext : AudioContext :=
  {| state := Running; currentTime := 0; sampleRate := 44100 |}.

Definition demoRandom (n : N) : Q := 0.9.

Definition demoEngine : Engine :=
  Eval vm_compute in
    default initial (calls (Some demoContext) demoRandom 1 [CStart; CTick 0.4] initial).


Lemma demoEngine_reachable : reachable (Some demoContext) demoRandom demoEngine.
Proof.
  exists [CStart; CTick 0.4]. apply (calls_run _ _ 1%nat). vm_compute. reflexivity.
Qed.


(** What that pass does, computed: the note played at time 0 by [start] is
    followed by the notes at 0.15 s, 0.3 s and 0.45 s, and a timer is armed. *)
Example scheduler_pass_demo_run :
  option_map (fun e => (map fst (scheduled e), map (fun n => Qred (snd n)) (scheduled e),
                        Qred (nextNoteTime e), timers e))
             (scheduler demoRandom 3 demoEngine)
  = Some ([0; 1; 2; 3]%Z, [0; 3 # 20; 3 # 10; 9 # 20], 3 # 5, [1; 2]%nat).
Proof. vm_compute. reflexivity. Qed.

Lemma currentNote_stays_in_pattern_demo :
  (0 <= currentNote demoEngine < 16)%Z
  /\ currentNote (nextNote demoEngine) = ((currentNote demoEngine + 1) mod 16)%Z
  /\ (forall b t, currentNote (scheduleNote demoRandom b t demoEngine) = currentNote demoEngine)
  /\ currentNote (turn demoRandom demoEngine) = ((currentNote demoEngine + 1) mod 16)%Z.
Proof.
  apply (currentNote_stays_in_pattern (Some demoContext) demoRandom demoEngine).
  exact demoEngine_reachable.
Defined.

(** After [stop]: the pending timer fires all the same, time passes, the
    scheduler is called, an explosion sounds. *)
Definition demoAfterStop : list Call := [CTimer 1; CTick 1; CScheduler; CTriggerExplosion].

Definition demoStopped : Engine :=
  Eval vm_compute in
    default initial (calls (Some demoContext) demoRandom 1 demoAfterStop (stop demoEngine)).

Lemma stop_silences_sequencer_demo :
  isPlaying (stop demoEngine) = false
  /\ (is_Some (ctx demoEngine) -> is_suspended (stop demoEngine) = true)
  /\ (forall id, schedulerTimer demoEngine = Some (S id) -> S id ∉ timers (stop demoEngine))
  /\ (forall fuel e0, isPlaying e0 = false -> scheduler demoRandom fuel e0 = Some e0)
  /\ isPlaying demoStopped = false
  /\ scheduled demoStopped = scheduled demoEngine
  /\ nextTimer demoStopped = nextTimer demoEngine
  /\ timers demoStopped ⊆ timers demoEngine
  /\ (is_Some (ctx demoEngine) -> ctx demoStopped = ctx (stop demoEngine)).
Proof.
  apply (stop_silences_sequencer (Some demoContext) demoRandom demoEngine demoAfterStop).
  - apply (calls_run _ _ 1%nat). vm_compute. reflexivity.
  - unfold demoAfterStop. rewrite !not_elem_of_cons.
    repeat split; try discriminate. apply not_elem_of_nil.
Defined.





Example arpeggio_demo :
  graph (scheduleNote demoRandom 1 0 demoEngine)
  = graph demoEngine ++ [ArpVoice 466.16 (0.9 * 2 - 1) 0].
Proof. reflexivity. Qed.

(** The demo engine stopped, and started again. *)
Definition demoHalted : Engine := Eval vm_compute in stop demoEngine.

Definition demoRestarted : Engine :=
  Eval vm_compute in default initial (start (Some demoContext) demoRandom 1 demoHalted).


Example restart_demo :
  (filter (fun n => negb (isVoice n)) (graph demoEngine),
   filter (fun n => negb (isVoice n)) (graph demoRestarted))
  = ([MasterGainNode 0.4; ConvolverNode; DroneSource; RainNoiseSource; TrainRumbleSource],
     [MasterGainNode 0.4; ConvolverNode; DroneSource; RainNoiseSource; TrainRumbleSource;
      DroneSource; RainNoiseSource; TrainRumbleSource]).
Proof. vm_compute. reflexivity. Qed.

(** A browser without [AudioContext]: start, an explosion, a timer. *)
Definition demoDeaf : Engine :=
  Eval vm_compute in
    default initial (calls None demoRandom 1 [CStart; CTriggerExplosion; CTimer 1] initial).

Lemma no_context_no_sound_demo :
  isPlaying demoDeaf = true
  /\ (ctx demoDeaf = None /\ graph demoDeaf = [] /\ scheduled demoDeaf = []
      /\ timers demoDeaf = [])
  /\ forall fuel, start None demoRandom fuel demoDeaf
                  = Some (if isPlaying demoDeaf then demoDeaf else set_isPlaying true demoDeaf).
Proof.
  split; [reflexivity|].
  apply (no_context_no_sound None demoRandom [CStart; CTriggerExplosion; CTimer 1] demoDeaf).
  - reflexivity.
  - apply (calls_run _ _ 1%nat). vm_compute. reflexivity.
Defined.



End CyberAudio.


(** * The animation loop of the metropolis scene *)

Module Metropolis.

Local Open Scope float_scope.
Set Warnings "-inexact-float".

(** ** three.js objects, as far as [animate] uses them *)

Record Vector3 := vec3 { x : float; y : float; z : float }.

(** [Vector3.add], [Vector3.distanceTo] and [Vector3.lerp] of three.js. *)
Definition add (a b : Vector3) : Vector3 :=
  vec3 (x a + x b) (y a + y b) (z a + z b).

Definition distanceTo (a b : Vector3) : float :=
  let dx := x a - x b in
  let dy := y a - y b in
  let dz := z a - z b in
  sqrt (dx * dx + dy * dy + dz * dz).

Definition lerp (a v : Vector3) (alpha : float) : Vector3 :=
  vec3 (x a + (x v - x a) * alpha) (y a + (y v - y a) * alpha) (z a + (z v - z a) * alpha).

(** A [THREE.Group] placed in the scene: its position and its rotation about
    the vertical axis. *)
Record Group := { position : Vector3; rotation_y : float }.

(** [interface Drone]; the mesh contributes its position and visibility. *)
Record Drone := {
  mesh_position : Vector3;
  mesh_visible : bool;
  velocity : Vector3;
  isActive : bool;
  respawnTimer : float
}.

(** [interface Particle]; the mesh contributes its position and the two
    rotations that [animate] changes; [red] is the material chosen at birth. *)
Record Particle := {
  p_position : Vector3;
  p_rotation_x : float;
  p_rotation_z : float;
  p_red : bool;
  p_velocity : Vector3;
  life : Z
}.

Inductive CameraMode := ORBIT | CHASE.

(** The calls [animate] makes on the audio engine. *)
Inductive AudioCall := SetTrainVolume (vol : float) | TriggerExplosion.

(** The variables of the effect closure and the refs that [animate] reads and
    writes, then what it hands to the outside: the calls on the audio engine,
    the number of frames rendered, and how many values [Math.random()] and
    [Date.now()] have returned. *)
Record Scene := mkScene {
  isPaused : bool;
  cameraMode : CameraMode;
  animationId : nat;
  trainX : float;
  podX : float;
  train : Group;
  gunship : Group;
  pods : Group;
  camera : Vector3;
  cameraTarget : option Vector3;
  controlsEnabled : bool;
  rain : list float;
  drones : list Drone;
  particles : list Particle;
  lasers : list float;
  drawRange : float;
  audio : list AudioCall;
  rendered : nat;
  randoms : N;
  clock : N
}.
Definition set_isPaused (v : bool) (s : Scene) : Scene :=
  {| isPaused := v; cameraMode := cameraMode s; animationId := animationId s;
     trainX := trainX s; podX := podX s; train := train s; gunship := gunship s;
     pods := pods s; camera := camera s; cameraTarget := cameraTarget s;
     controlsEnabled := controlsEnabled s; rain := rain s; drones := drones s;
     particles := particles s; lasers := lasers s; drawRange := drawRange s;
     audio := audio s; rendered := rendered s; randoms := randoms s; clock := clock s |}.
Definition set_cameraMode (v : CameraMode) (s : Scene) : Scene :=
  {| isPaused := isPaused s; cameraMode := v; animationId := animationId s;
     trainX := trainX s; podX := podX s; train := train s; gunship := gunship s;
     pods := pods s; camera := camera s; cameraTarget := cameraTarget s;
     controlsEnabled := controlsEnabled s; rain := rain s; drones := drones s;
     particles := particles s; lasers := lasers s; drawRange := drawRange s;
     audio := audio s; rendered := rendered s; randoms := randoms s; clock := clock s |}.
Definition set_animationId (v : nat) (s : Scene) : Scene :=
  {| isPaused := isPaused s; cameraMode := cameraMode s; animationId := v;
     trainX := trainX s; podX := podX s; train := train s; gunship := gunship s;
     pods := pods s; camera := camera s; cameraTarget := cameraTarget s;
     controlsEnabled := controlsEnabled s; rain := rain s; drones := drones s;
     particles := particles s; lasers := lasers s; drawRange := drawRange s;
     audio := audio s; rendered := rendered s; randoms := randoms s; clock := clock s |}.
Definition set_trainX (v : float) (s : Scene) : Scene :=
  {| isPaused := isPaused s; cameraMode := cameraMode s; animationId := animationId s;
     trainX := v; podX := podX s; train := train s; gunship := gunship s; pods := pods s;
     camera := camera s; cameraTarget := cameraTarget s;
     controlsEnabled := controlsEnabled s; rain := rain s; drones := drones s;
     particles := particles s; lasers := lasers s; drawRange := drawRange s;
     audio := audio s; rendered := rendered s; randoms := randoms s; clock := clock s |}.
Definition set_podX (v : float) (s : Scene) : Scene :=
  {| isPaused := isPaused s; cameraMode := cameraMode s; animationId := animationId s;
     trainX := trainX s; podX := v; train := train s; gunship := gunship s; pods := pods s;
     camera := camera s; cameraTarget := cameraTarget s;
     controlsEnabled := controlsEnabled s; rain := rain s; drones := drones s;
     particles := particles s; lasers := lasers s; drawRange := drawRange s;
     audio := audio s; rendered := rendered s; randoms := randoms s; clock := clock s |}.
Definition set_train (v : Group) (s : Scene) : Scene :=
  {| isPaused := isPaused s; cameraMode := cameraMode s; animationId := animationId s;
     trainX := trainX s; podX := podX s; train := v; gunship := gunship s; pods := pods s;
     camera := camera s; cameraTarget := cameraTarget s;
     controlsEnabled := controlsEnabled s; rain := rain s; drones := drones s;
     particles := particles s; lasers := lasers s; drawRange := drawRange s;
     audio := audio s; rendered := rendered s; randoms := randoms s; clock := clock s |}.
Definition set_gunship (v : Group) (s : Scene) : Scene :=
  {| isPaused := isPaused s; cameraMode := cameraMode s; animationId := animationId s;
     trainX := trainX s; podX := podX s; train := train s; gunship := v; pods := pods s;
     camera := camera s; cameraTarget := cameraTarget s;
     controlsEnabled := controlsEnabled s; rain := rain s; drones := drones s;
     particles := particles s; lasers := lasers s; drawRange := drawRange s;
     audio := audio s; rendered := rendered s; randoms := randoms s; clock := clock s |}.
Definition set_pods (v : Group) (s : Scene) : Scene :=
  {| isPaused := isPaused s; cameraMode := cameraMode s; animationId := animationId s;
     trainX := trainX s; podX := podX s; train := train s; gunship := gunship s; pods := v;
     camera := camera s; cameraTarget := cameraTarget s;
     controlsEnabled := controlsEnabled s; rain := rain s; drones := drones s;
     particles := particles s; lasers := lasers s; drawRange := drawRange s;
     audio := audio s; rendered := rendered s; randoms := randoms s; clock := clock s |}.
Definition set_camera (v : Vector3) (s : Scene) : Scene :=
  {| isPaused := isPaused s; cameraMode := cameraMode s; animationId := animationId s;
     trainX := trainX s; podX := podX s; train := train s; gunship := gunship s;
     pods := pods s; camera := v; cameraTarget := cameraTarget s;
     controlsEnabled := controlsEnabled s; rain := rain s; drones := drones s;
     particles := particles s; lasers := lasers s; drawRange := drawRange s;
     audio := audio s; rendered := rendered s; randoms := randoms s; clock := clock s |}.
Definition set_cameraTarget (v : option Vector3) (s : Scene) : Scene :=
  {| isPaused := isPaused s; cameraMode := cameraMode s; animationId := animationId s;
     trainX := trainX s; podX := podX s; train := train s; gunship := gunship s;
     pods := pods s; camera := camera s; cameraTarget := v;
     controlsEnabled := controlsEnabled s; rain := rain s; drones := drones s;
     particles := particles s; lasers := lasers s; drawRange := drawRange s;
     audio := audio s; rendered := rendered s; randoms := randoms s; clock := clock s |}.
Definition set_controlsEnabled (v : bool) (s : Scene) : Scene :=
  {| isPaused := isPaused s; cameraMode := cameraMode s; animationId := animationId s;
     trainX := trainX s; podX := podX s; train := train s; gunship := gunship s;
     pods := pods s; camera := camera s; cameraTarget := cameraTarget s;
     controlsEnabled := v; rain := rain s; drones := drones s; particles := particles s;
     lasers := lasers s; drawRange := drawRange s; audio := audio s;
     rendered := rendered s; randoms := randoms s; clock := clock s |}.
Definition set_rain (v : list float) (s : Scene) : Scene :=
  {| isPaused := isPaused s; cameraMode := cameraMode s; animationId := animationId s;
     trainX := trainX s; podX := podX s; train := train s; gunship := gunship s;
     pods := pods s; camera := camera s; cameraTarget := cameraTarget s;
     controlsEnabled := controlsEnabled s; rain := v; drones := drones s;
     particles := particles s; lasers := lasers s; drawRange := drawRange s;
     audio := audio s; rendered := rendered s; randoms := randoms s; clock := clock s |}.
Definition set_drones (v : list Drone) (s : Scene) : Scene :=
  {| isPaused := isPaused s; cameraMode := cameraMode s; animationId := animationId s;
     trainX := trainX s; podX := podX s; train := train s; gunship := gunship s;
     pods := pods s; camera := camera s; cameraTarget := cameraTarget s;
     controlsEnabled := controlsEnabled s; rain := rain s; drones := v;
     particles := particles s; lasers := lasers s; drawRange := drawRange s;
     audio := audio s; rendered := rendered s; randoms := randoms s; clock := clock s |}.
Definition set_particles (v : list Particle) (s : Scene) : Scene :=
  {| isPaused := isPaused s; cameraMode := cameraMode s; animationId := animationId s;
     trainX := trainX s; podX := podX s; train := train s; gunship := gunship s;
     pods := pods s; camera := camera s; cameraTarget := cameraTarget s;
     controlsEnabled := controlsEnabled s; rain := rain s; drones := drones s;
     particles := v; lasers := lasers s; drawRange := drawRange s; audio := audio s;
     rendered := rendered s; randoms := randoms s; clock := clock s |}.
Definition set_lasers (v : list float) (s : Scene) : Scene :=
  {| isPaused := isPaused s; cameraMode := cameraMode s; animationId := animationId s;
     trainX := trainX s; podX := podX s; train := train s; gunship := gunship s;
     pods := pods s; camera := camera s; cameraTarget := cameraTarget s;
     controlsEnabled := controlsEnabled s; rain := rain s; drones := drones s;
     particles := particles s; lasers := v; drawRange := drawRange s; audio := audio s;
     rendered := rendered s; randoms := randoms s; clock := clock s |}.
Definition set_drawRange (v : float) (s : Scene) : Scene :=
  {| isPaused := isPaused s; cameraMode := cameraMode s; animationId := animationId s;
     trainX := trainX s; podX := podX s; train := train s; gunship := gunship s;
     pods := pods s; camera := camera s; cameraTarget := cameraTarget s;
     controlsEnabled := controlsEnabled s; rain := rain s; drones := drones s;
     particles := particles s; lasers := lasers s; drawRange := v; audio := audio s;
     rendered := rendered s; randoms := randoms s; clock := clock s |}.
Definition set_audio (v : list AudioCall) (s : Scene) : Scene :=
  {| isPaused := isPaused s; cameraMode := cameraMode s; animationId := animationId s;
     trainX := trainX s; podX := podX s; train := train s; gunship := gunship s;
     pods := pods s; camera := camera s; cameraTarget := cameraTarget s;
     controlsEnabled := controlsEnabled s; rain := rain s; drones := drones s;
     particles := particles s; lasers := lasers s; drawRange := drawRange s; audio := v;
     rendered := rendered s; randoms := randoms s; clock := clock s |}.
Definition set_rendered (v : nat) (s : Scene) : Scene :=
  {| isPaused := isPaused s; cameraMode := cameraMode s; animationId := animationId s;
     trainX := trainX s; podX := podX s; train := train s; gunship := gunship s;
     pods := pods s; camera := camera s; cameraTarget := cameraTarget s;
     controlsEnabled := controlsEnabled s; rain := rain s; drones := drones s;
     particles := particles s; lasers := lasers s; drawRange := drawRange s;
     audio := audio s; rendered := v; randoms := randoms s; clock := clock s |}.
Definition set_randoms (v : N) (s : Scene) : Scene :=
  {| isPaused := isPaused s; cameraMode := cameraMode s; animationId := animationId s;
     trainX := trainX s; podX := podX s; train := train s; gunship := gunship s;
     pods := pods s; camera := camera s; cameraTarget := cameraTarget s;
     controlsEnabled := controlsEnabled s; rain := rain s; drones := drones s;
     particles := particles s; lasers := lasers s; drawRange := drawRange s;
     audio := audio s; rendered := rendered s; randoms := v; clock := clock s |}.
Definition set_clock (v : N) (s : Scene) : Scene :=
  {| isPaused := isPaused s; cameraMode := cameraMode s; animationId := animationId s;
     trainX := trainX s; podX := podX s; train := train s; gunship := gunship s;
     pods := pods s; camera := camera s; cameraTarget := cameraTarget s;
     controlsEnabled := controlsEnabled s; rain := rain s; drones := drones s;
     particles := particles s; lasers := lasers s; drawRange := drawRange s;
     audio := audio s; rendered := rendered s; randoms := randoms s; clock := v |}.

Definition trackStart : float := -200.
Definition trackEnd : float := 200.
Definition trainSpeed : float := 2.0.
Definition podSpeed : float := 0.2.
Definition shakeIntensity : float := 0.2.
Definition trackHeight : float := 40.
Definition trackLength : float := 500.

Section Animate.

(** The world outside the component: the random source, the clock, the
    libm functions, the rounding of a store into a [Float32Array], and what
    [OrbitControls.update()] does to the camera. *)
Variable Math_random : N -> float.
Variable Date_now : N -> float.
Variable Math_sin Math_cos : float -> float.
Variable Math_atan2 : float -> float -> float.
Variable Math_fround : float -> float.
Variable controls_update : Vector3 -> Vector3.

Definition random (s : Scene) : float * Scene :=
  (Math_random (randoms s), set_randoms (N.succ (randoms s)) s).

Definition now (s : Scene) : float * Scene :=
  (Date_now (clock s), set_clock (N.succ (clock s)) s).

Definition getTrackOffset (px : float) : float :=
  let curveStart := 50 in
  if px <? curveStart then 0
  else let d := px - curveStart in (d * d) / 300.

Definition getTrackAngle (px : float) : float :=
  let curveStart := 50 in
  if px <? curveStart then 0
  else let d := px - curveStart in Math_atan2 d 150.

(** [if (!isPausedRef.current) { trainX += trainSpeed; ... }] *)
Definition moveTrains (s : Scene) : Scene :=
  if negb (isPaused s) then
    let s := set_trainX (trainX s + trainSpeed) s in
    let s := if trackEnd <? trainX s then set_trainX trackStart s else s in
    let s := set_podX (podX s + podSpeed) s in
    if trackEnd <? podX s then set_podX trackStart s else s
  else s.

(** The three [position.set] / [rotation.y] blocks. *)
Definition placeTrain (s : Scene) : Scene :=
  let pz := getTrackOffset (trainX s) in
  let angle := getTrackAngle (trainX s) in
  set_train {| position := vec3 (trainX s) trackHeight pz; rotation_y := - angle |} s.

Definition placeGunship (s : Scene) : Scene :=
  let gunX := trainX s - 28 in
  let actualGunX := if gunX <? trackStart then gunX + (trackEnd - trackStart) else gunX in
  let pz := getTrackOffset actualGunX in
  let angle := getTrackAngle actualGunX in
  set_gunship {| position := vec3 actualGunX (trackHeight + 1) pz; rotation_y := - angle |} s.

Definition placePods (s : Scene) : Scene :=
  let pz := getTrackOffset (podX s) in
  let angle := getTrackAngle (podX s) in
  set_pods {| position := vec3 (podX s) trackHeight pz; rotation_y := - angle |} s.

(** The chase camera, or the orbit controls. *)
Definition moveCamera (shakeX shakeY shakeZ : float) (s : Scene) : Scene :=
  match cameraMode s with
  | CHASE =>
    let s := set_controlsEnabled false s in
    let trainPos := position (train s) in
    let angle := rotation_y (train s) in
    let distBehind := 40 in
    let distUp := 15 in
    let offsetZ := Math_sin angle * distBehind in
    let offsetX := Math_cos angle * distBehind in
    let targetX := x trainPos - offsetX in
    let targetY := y trainPos + distUp in
    let targetZ := z trainPos + 25 + offsetZ in
    let c := lerp (camera s) (vec3 targetX targetY targetZ) 0.1 in
    let c := vec3 (x c + shakeX) (y c + shakeY) (z c + shakeZ) in
    let s := set_camera c s in
    let lookDist := 100 in
    let lookX := x trainPos + Math_cos angle * lookDist in
    let lookZ := z trainPos - Math_sin angle * lookDist in
    set_cameraTarget (Some (vec3 lookX (y trainPos) lookZ)) s
  | ORBIT =>
    let s := set_controlsEnabled true s in
    set_camera (controls_update (camera s)) s
  end.

(** The rumble of the train fades with the distance to the camera. *)
Definition trainVolume (s : Scene) : Scene :=
  let trainWorldPos := position (train s) in
  let dist := distanceTo (camera s) trainWorldPos in
  let vol := if dist <? 200
             then let vol := 1 - (dist / 200) in vol * vol * vol
             else 0 in
  set_audio (audio s ++ [SetTrainVolume vol]) s.

(** [for (let i = 1; i < positions.length; i += 3)] over the rain. *)
Fixpoint rainLoop (fuel : nat) (i : nat) (positions : list float) : list float :=
  match fuel with
  | O => positions
  | S fuel =>
    match positions !! i with
    | None => positions
    | Some p =>
      let p := Math_fround (p - 2) in
      let p := if p <? -10 then Math_fround 200 else p in
      rainLoop fuel (i + 3) (<[i := p]> positions)
    end
  end.

Definition fall (s : Scene) : Scene :=
  set_rain (rainLoop (length (rain s)) 1 (rain s)) s.

(** One of the six pieces of debris of an exploding drone. *)
Definition debris (at_ : Vector3) (s : Scene) : Scene :=
  let '(r, s) := random s in
  let red := 0.5 <? r in
  let '(rx, s) := random s in
  let '(ry, s) := random s in
  let '(rz, s) := random s in
  let pos := vec3 (x at_ + (rx - 0.5) * 1) (y at_ + (ry - 0.5) * 1) (z at_ + (rz - 0.5) * 1) in
  let '(vx, s) := random s in
  let '(vy, s) := random s in
  let '(vz, s) := random s in
  let p := {| p_position := pos; p_rotation_x := 0; p_rotation_z := 0; p_red := red;
              p_velocity := vec3 ((vx - 0.5) * 0.4) ((vy - 0.5) * 0.4) ((vz - 0.5) * 0.4);
              life := 60 |} in
  set_particles (particles s ++ [p]) s.

(** A drone whose timer has run out comes back below the track. *)
Definition respawn (timer : float) (s : Scene) : Drone * Scene :=
  let '(r1, s) := random s in
  let spawnX := (r1 - 0.5) * trackLength in
  let '(r2, s) := random s in
  let spawnZ := -50 - r2 * 50 in
  let '(r3, s) := random s in
  let '(r4, s) := random s in
  let '(r5, s) := random s in
  ({| mesh_position := vec3 spawnX (-5) spawnZ; mesh_visible := true;
      velocity := vec3 ((r3 - 0.5) * 0.1) ((0.1 + r4 * 0.1) * 0.5) ((0.2 + r5 * 0.2) * 0.5);
      isActive := true; respawnTimer := timer |}, s).

(** A drone that the laser destroys. *)
Definition explode (d : Drone) (s : Scene) : Drone * Scene :=
  let '(r, s) := random s in
  let s := set_audio (audio s ++ [TriggerExplosion]) s in
  let s := Nat.iter 6 (debris (mesh_position d)) s in
  ({| mesh_position := mesh_position d; mesh_visible := mesh_visible d; velocity := velocity d;
      isActive := false; respawnTimer := 30 + r * 50 |}, s).

(** A flying drone moves, bobs, and retires once it is above 60 or past 20. *)
Definition fly (d : Drone) (s : Scene) : Drone * Scene :=
  let pos := add (mesh_position d) (velocity d) in
  let '(t, s) := now s in
  let pos := vec3 (x pos) (y pos + Math_sin (t * 0.005 + x pos) * 0.05) (z pos) in
  if (60 <? y pos) || (20 <? z pos)
  then ({| mesh_position := pos; mesh_visible := mesh_visible d; velocity := velocity d;
           isActive := false; respawnTimer := 60 |}, s)
  else ({| mesh_position := pos; mesh_visible := mesh_visible d; velocity := velocity d;
           isActive := isActive d; respawnTimer := respawnTimer d |}, s).

(** The body of [dronesRef.current.forEach].  [laserPositions] is the array
    local to the frame.  The test [dist < 80 && Math.random() > 0.90] draws
    its random number only when the drone is in range. *)
Definition droneStep (gunshipPos : Vector3) (d : Drone) (acc : Scene * list float)
  : Drone * (Scene * list float) :=
  let '(s, laserPositions) := acc in
  if negb (isActive d) then
    let timer := respawnTimer d - 1 in
    if timer <=? 0 then
      let '(d, s) := respawn timer s in (d, (s, laserPositions))
    else
      ({| mesh_position := mesh_position d; mesh_visible := false; velocity := velocity d;
          isActive := false; respawnTimer := timer |}, (s, laserPositions))
  else
    let '(d, s) := fly d s in
    let dist := distanceTo (mesh_position d) gunshipPos in
    if dist <? 80 then
      let '(r, s) := random s in
      if 0.90 <? r then
        let pos := mesh_position d in
        let laserPositions :=
          laserPositions ++ [x gunshipPos; y gunshipPos; z gunshipPos] ++ [x pos; y pos; z pos] in
        let '(r, s) := random s in
        if 0.6 <? r then
          let '(d, s) := explode d s in (d, (s, laserPositions))
        else (d, (s, laserPositions))
      else (d, (s, laserPositions))
    else (d, (s, laserPositions)).

Fixpoint forEachDrone (gunshipPos : Vector3) (ds : list Drone) (acc : Scene * list float)
  : list Drone * (Scene * list float) :=
  match ds with
  | [] => ([], acc)
  | d :: ds =>
    let '(d, acc) := droneStep gunshipPos d acc in
    let '(ds, acc) := forEachDrone gunshipPos ds acc in
    (d :: ds, acc)
  end.

(** [for (let i = particles.length - 1; i >= 0; i--)] with its [splice]. *)
Fixpoint particleLoop (i : nat) (ps : list Particle) : list Particle :=
  match i with
  | O => ps
  | S i =>
    match ps !! i with
    | None => ps
    | Some p =>
      let v := vec3 (x (p_velocity p)) (y (p_velocity p) - 0.01) (z (p_velocity p)) in
      let p := {| p_position := add (p_position p) v;
                  p_rotation_x := p_rotation_x p + 0.2; p_rotation_z := p_rotation_z p + 0.2;
                  p_red := p_red p; p_velocity := v; life := (life p - 1)%Z |} in
      let ps := <[i := p]> ps in
      let ps := if (life p <=? 0)%Z || (y (p_position p) <? -10) then delete i ps else ps in
      particleLoop i ps
    end
  end.

(** Writing the laser segments of the frame into the line geometry. *)
Definition zeroed (positions : list float) : list float := map (fun _ => 0) positions.

Fixpoint copyInto (i : nat) (src dst : list float) : list float :=
  match src with
  | [] => dst
  | v :: src => copyInto (S i) src (<[i := Math_fround v]> dst)
  end.

(** The [if (!isPausedRef.current) { ... } else { ... }] at the end. *)
Definition animateWorld (s : Scene) : Scene :=
  if negb (isPaused s) then
    let s := fall s in
    let gunshipPos := add (position (gunship s)) (vec3 3 3 0) in
    let '(ds, (s, laserPositions)) := forEachDrone gunshipPos (drones s) (s, []) in
    let s := set_drones ds s in
    let s := set_particles (particleLoop (length (particles s)) (particles s)) s in
    let s := set_lasers (copyInto 0 laserPositions (zeroed (lasers s))) s in
    set_drawRange (of_uint63 (Uint63.of_Z (Z.of_nat (length laserPositions))) / 3) s
  else
    set_lasers (zeroed (lasers s)) s.

(** One call of [animate]. *)
Definition animate (s : Scene) : Scene :=
  let s := set_animationId (S (animationId s)) s in
  let '(r, s) := random s in
  let shakeX := (r - 0.5) * shakeIntensity in
  let '(r, s) := random s in
  let shakeY := (r - 0.5) * shakeIntensity in
  let '(r, s) := random s in
  let shakeZ := (r - 0.5) * shakeIntensity in
  let s := moveTrains s in
  let s := placeTrain s in
  let s := placeGunship s in
  let s := placePods s in
  let s := moveCamera shakeX shakeY shakeZ s in
  let s := trainVolume s in
  let s := animateWorld s in
  set_rendered (S (rendered s)) s.

(** The two buttons that [animate] listens to. *)
Definition togglePause (s : Scene) : Scene := set_isPaused (negb (isPaused s)) s.

Definition toggleCamera (s : Scene) : Scene :=
  set_cameraMode (match cameraMode s with ORBIT => CHASE | CHASE => ORBIT end) s.

Inductive Event := Frame | TogglePause | ToggleCamera.

Definition handle (s : Scene) (ev : Event) : Scene :=
  match ev with
  | Frame => animate s
  | TogglePause => togglePause s
  | ToggleCamera => toggleCamera s
  end.

Definition play (evs : list Event) (s : Scene) : Scene := fold_left handle evs s.

(** The scene as the effect leaves it before the first frame.  The rain, the
    respawn timers of the drones are random: any will do. *)
Definition initial (rain0 : list float) (drones0 : list Drone) : Scene := {|
  isPaused := false; cameraMode := ORBIT; animationId := 0%nat;
  trainX := 0; podX := 40;
  train := {| position := vec3 0 0 0; rotation_y := 0 |};
  gunship := {| position := vec3 0 0 0; rotation_y := 0 |};
  pods := {| position := vec3 0 0 0; rotation_y := 0 |};
  camera := vec3 (-80) 60 120; cameraTarget := None; controlsEnabled := true;
  rain := rain0; drones := drones0; particles := [];
  lasers := repeat 0 30; drawRange := infinity;
  audio := []; rendered := 0%nat; randoms := 0%N; clock := 0%N
|}.

(** ** Facts about the animation loop *)

Ltac branch_on x :=
  lazymatch x with
  | context [match ?y with _ => _ end] => branch_on y
  | _ => destruct x eqn:?; cbn
  end.

Ltac branches :=
  cbn; repeat match goal with
              | |- context [match ?x with _ => _ end] => branch_on x
              end.

(** What the drones and their debris never touch. *)
Definition stage (s : Scene) :=
  (isPaused s, cameraMode s, animationId s, trainX s, podX s, train s, gunship s, pods s,
   camera s, cameraTarget s, controlsEnabled s, rain s, drones s, lasers s, drawRange s,
   rendered s).

Lemma debris_stage p s : stage (debris p s) = stage s.
Proof. reflexivity. Qed.

Lemma iter_debris_stage n p s : stage (Nat.iter n (debris p) s) = stage s.
Proof. induction n as [|n IH]; [reflexivity|]. rewrite Nat.iter_succ, debris_stage. exact IH. Qed.

Lemma random_stage s : stage (snd (random s)) = stage s.
Proof. reflexivity. Qed.

Lemma now_stage s : stage (snd (now s)) = stage s.
Proof. reflexivity. Qed.

Lemma respawn_stage t s : stage (snd (respawn t s)) = stage s.
Proof. reflexivity. Qed.

Lemma explode_stage d s : stage (snd (explode d s)) = stage s.
Proof. unfold explode, random. cbn [snd]. rewrite iter_debris_stage. reflexivity. Qed.

Lemma fly_stage d s : stage (snd (fly d s)) = stage s.
Proof. unfold fly, now. destruct (_ || _); reflexivity. Qed.

Lemma droneStep_stage g d s l : stage (fst (snd (droneStep g d (s, l)))) = stage s.
Proof.
  unfold droneStep. destruct (negb (isActive d)).
  - destruct (respawnTimer d - 1 <=? 0); [|reflexivity].
    pose proof (respawn_stage (respawnTimer d - 1) s) as H.
    destruct (respawn _ s) as [d1 s1]. exact H.
  - pose proof (fly_stage d s) as Hf. destruct (fly d s) as [d1 s1]. cbn [snd] in Hf.
    destruct (distanceTo (mesh_position d1) g <? 80); [|exact Hf].
    pose proof (random_stage s1) as Hr. destruct (random s1) as [r s2]. cbn [snd] in Hr.
    destruct (0.90 <? r); [|cbn [fst snd]; congruence].
    pose proof (random_stage s2) as Hr'. destruct (random s2) as [r' s3]. cbn [snd] in Hr'.
    destruct (0.6 <? r'); [|cbn [fst snd]; congruence].
    pose proof (explode_stage d1 s3) as He. destruct (explode d1 s3) as [d2 s4].
    cbn [fst snd] in *. congruence.
Qed.

Lemma forEachDrone_stage g ds : forall s l,
  stage (fst (snd (forEachDrone g ds (s, l)))) = stage s.
Proof.
  induction ds as [|d ds IH]; intros s l; [reflexivity|].
  cbn [forEachDrone].
  pose proof (droneStep_stage g d s l) as Hd.
  destruct (droneStep g d (s, l)) as [d' [s1 l1]]. cbn [fst snd] in Hd.
  pose proof (IH s1 l1) as Hs.
  destruct (forEachDrone g ds (s1, l1)) as [ds' [s2 l2]]. cbn [fst snd] in *.
  congruence.
Qed.

(** The train, the pod and the pause flag after the last block of [animate]. *)
Lemma animateWorld_tracks s :
  (isPaused (animateWorld s), trainX (animateWorld s), podX (animateWorld s),
   train (animateWorld s), gunship (animateWorld s), pods (animateWorld s))
  = (isPaused s, trainX s, podX s, train s, gunship s, pods s).
Proof.
  unfold animateWorld. destruct (negb (isPaused s)); [|reflexivity].
  pose proof (forEachDrone_stage (add (position (gunship (fall s))) (vec3 3 3 0))
                (drones (fall s)) (fall s) []) as H.
  destruct (forEachDrone _ _ _) as [ds [s1 l1]]. cbn [fst snd] in H.
  unfold stage in H. cbn in *. congruence.
Qed.

(** Where [moveTrains] takes a coordinate: one step along the track, back
    to the start once past the end. *)
Definition advance (speed px : float) : float :=
  let px := px + speed in
  if trackEnd <? px then trackStart else px.

(** Where [placeGunship] puts the gunship for a given train. *)
Definition gunshipX (tx : float) : float :=
  let gunX := tx - 28 in
  if gunX <? trackStart then gunX + (trackEnd - trackStart) else gunX.

(** [animate] after its first four lines: a frame has been requested and
    the three shake offsets have been drawn. *)
Definition shaken (s : Scene) : Scene :=
  snd (random (snd (random (snd (random (set_animationId (S (animationId s)) s)))))).

Definition frameBody (shakeX shakeY shakeZ : float) (s : Scene) : Scene :=
  let s := moveTrains s in
  let s := placeTrain s in
  let s := placeGunship s in
  let s := placePods s in
  let s := moveCamera shakeX shakeY shakeZ s in
  let s := trainVolume s in
  let s := animateWorld s in
  set_rendered (S (rendered s)) s.

Lemma animate_frameBody s :
  exists shakeX shakeY shakeZ, animate s = frameBody shakeX shakeY shakeZ (shaken s).
Proof.
  exists ((Math_random (randoms s) - 0.5) * shakeIntensity).
  exists ((Math_random (N.succ (randoms s)) - 0.5) * shakeIntensity).
  exists ((Math_random (N.succ (N.succ (randoms s))) - 0.5) * shakeIntensity).
  reflexivity.
Qed.

Lemma shaken_fields s :
  (isPaused (shaken s), cameraMode (shaken s), trainX (shaken s), podX (shaken s),
   rain (shaken s), drones (shaken s), particles (shaken s), lasers (shaken s),
   rendered (shaken s), audio (shaken s))
  = (isPaused s, cameraMode s, trainX s, podX s, rain s, drones s, particles s, lasers s,
     rendered s, audio s).
Proof. reflexivity. Qed.

Lemma moveCamera_fields a b c s :
  (isPaused (moveCamera a b c s), trainX (moveCamera a b c s), podX (moveCamera a b c s),
   train (moveCamera a b c s), gunship (moveCamera a b c s), pods (moveCamera a b c s),
   rain (moveCamera a b c s), drones (moveCamera a b c s), particles (moveCamera a b c s),
   lasers (moveCamera a b c s), rendered (moveCamera a b c s), audio (moveCamera a b c s))
  = (isPaused s, trainX s, podX s, train s, gunship s, pods s,
     rain s, drones s, particles s, lasers s, rendered s, audio s).
Proof. unfold moveCamera. destruct (cameraMode s); reflexivity. Qed.

Lemma moveTrains_tracks s :
  isPaused (moveTrains s) = isPaused s
  /\ trainX (moveTrains s) = (if isPaused s then trainX s else advance trainSpeed (trainX s))
  /\ podX (moveTrains s) = (if isPaused s then podX s else advance podSpeed (podX s)).
Proof.
  unfold moveTrains, advance. destruct (isPaused s) eqn:Hp; cbn [negb]; [auto|].
  cbn [trainX set_trainX].
  destruct (trackEnd <? trainX s + trainSpeed); cbn [podX set_podX set_trainX trainX];
    destruct (trackEnd <? podX s + podSpeed); repeat split; try reflexivity; exact Hp.
Qed.

Lemma frameBody_tracks a b c s :
  isPaused (frameBody a b c s) = isPaused s
  /\ trainX (frameBody a b c s) = (if isPaused s then trainX s else advance trainSpeed (trainX s))
  /\ podX (frameBody a b c s) = (if isPaused s then podX s else advance podSpeed (podX s))
  /\ x (position (train (frameBody a b c s))) = trainX (frameBody a b c s)
  /\ x (position (gunship (frameBody a b c s))) = gunshipX (trainX (frameBody a b c s))
  /\ x (position (pods (frameBody a b c s))) = podX (frameBody a b c s).
Proof.
  unfold frameBody.
  set (s1 := moveTrains s).
  set (s4 := placePods (placeGunship (placeTrain s1))).
  set (s5 := moveCamera a b c s4).
  set (s7 := animateWorld (trainVolume s5)).
  pose proof (animateWorld_tracks (trainVolume s5)) as H7. fold s7 in H7.
  pose proof (moveCamera_fields a b c s4) as H5. fold s5 in H5.
  destruct (moveTrains_tracks s) as (Hp & Ht & Hq). fold s1 in Hp, Ht, Hq.
  change (isPaused (trainVolume s5)) with (isPaused s5) in H7.
  change (trainX (trainVolume s5)) with (trainX s5) in H7.
  change (podX (trainVolume s5)) with (podX s5) in H7.
  change (train (trainVolume s5)) with (train s5) in H7.
  change (gunship (trainVolume s5)) with (gunship s5) in H7.
  change (pods (trainVolume s5)) with (pods s5) in H7.
  injection H7 as E1 E2 E3 E4 E5 E6.
  injection H5 as F1 F2 F3 F4 F5 F6 _ _ _ _ _ _.
  change (isPaused (set_rendered (S (rendered s7)) s7)) with (isPaused s7).
  change (trainX (set_rendered (S (rendered s7)) s7)) with (trainX s7).
  change (podX (set_rendered (S (rendered s7)) s7)) with (podX s7).
  change (train (set_rendered (S (rendered s7)) s7)) with (train s7).
  change (gunship (set_rendered (S (rendered s7)) s7)) with (gunship s7).
  change (pods (set_rendered (S (rendered s7)) s7)) with (pods s7).
  rewrite E1, E2, E3, E4, E5, E6, F1, F2, F3, F4, F5, F6.
  change (isPaused s4) with (isPaused s1). change (trainX s4) with (trainX s1).
  change (podX s4) with (podX s1).
  rewrite Hp, Ht, Hq. repeat split; reflexivity.
Qed.

Lemma animate_tracks s :
  isPaused (animate s) = isPaused s
  /\ trainX (animate s) = (if isPaused s then trainX s else advance trainSpeed (trainX s))
  /\ podX (animate s) = (if isPaused s then podX s else advance podSpeed (podX s))
  /\ x (position (train (animate s))) = trainX (animate s)
  /\ x (position (gunship (animate s))) = gunshipX (trainX (animate s))
  /\ x (position (pods (animate s))) = podX (animate s).
Proof.
  destruct (animate_frameBody s) as (a & b & c & ->).
  exact (frameBody_tracks a b c (shaken s)).
Qed.

(** *** The track *)

Definition onTrack (px : float) : bool := (trackStart <=? px) && (px <=? trackEnd).

(** The first [n] points of the orbit of [a] under [f]. *)
Fixpoint orbit {A : Type} (f : A -> A) (n : nat) (a : A) : list A :=
  match n with
  | O => []
  | S n => a :: orbit f n (f a)
  end.

Lemma orbit_lookup {A : Type} (f : A -> A) n : forall i a,
  (i < n)%nat -> orbit f n a !! i = Some (Nat.iter i f a).
Proof.
  induction n as [|n IH]; intros i a Hi; [lia|].
  destruct i as [|i]; [reflexivity|].
  cbn [orbit]. rewrite Nat.iter_succ_r. apply IH. lia.
Qed.

(** An orbit that comes back to an earlier point never leaves the points
    it has visited until then. *)
Lemma orbit_closed {A : Type} (f : A -> A) (P : A -> bool) (a : A) (k p : nat) :
  (0 < p)%nat ->
  Nat.iter (k + p) f a = Nat.iter k f a ->
  forallb P (orbit f (k + p) a) = true ->
  forall n, P (Nat.iter n f a) = true.
Proof.
  intros Hp Hloop Hall n. induction n as [n IH] using lt_wf_ind.
  destruct (Nat.lt_ge_cases n (k + p)) as [Hlt|Hge].
  - rewrite forallb_forall in Hall. apply Hall.
    apply list_elem_of_In, list_elem_of_lookup. exists n. now apply orbit_lookup.
  - replace n with ((n - (k + p)) + (k + p))%nat by lia.
    rewrite Nat.iter_add, Hloop, <- Nat.iter_add. apply IH. lia.
Qed.

(** The train visits 302 points before it repeats itself, the pod 2802. *)
Lemma train_orbit n :
  let t := Nat.iter n (advance trainSpeed) 0 in
  onTrack t && onTrack (gunshipX t) = true.
Proof.
  apply (orbit_closed (advance trainSpeed) (fun t => onTrack t && onTrack (gunshipX t))
           0 101 201); [lia | vm_compute; reflexivity | vm_compute; reflexivity].
Qed.

Lemma pod_orbit n : onTrack (Nat.iter n (advance podSpeed) 40) = true.
Proof.
  apply (orbit_closed (advance podSpeed) onTrack 40 801 2001);
    [lia | vm_compute; reflexivity | vm_compute; reflexivity].
Qed.

(** Where the coordinates of a running scene come from. *)
Definition tracked (s : Scene) : Prop :=
  (exists n, trainX s = Nat.iter n (advance trainSpeed) 0)
  /\ (exists m, podX s = Nat.iter m (advance podSpeed) 40)
  /\ (x (position (gunship s)) = 0 \/ x (position (gunship s)) = gunshipX (trainX s)).

Lemma handle_tracked s ev : tracked s -> tracked (handle s ev).
Proof.
  intros ((n & Hn) & (m & Hm) & Hg). destruct ev; cbn [handle].
  - destruct (animate_tracks s) as (_ & Ht & Hq & _ & Hgun & _).
    unfold tracked. rewrite Hgun, Ht, Hq, Hn, Hm.
    destruct (isPaused s).
    + split; [now exists n|]. split; [now exists m|]. now right.
    + split; [now exists (S n)|]. split; [now exists (S m)|]. now right.
  - split; [now exists n|]. split; [now exists m|]. exact Hg.
  - split; [now exists n|]. split; [now exists m|]. exact Hg.
Qed.

Lemma play_tracked evs : forall s, tracked s -> tracked (play evs s).
Proof.
  induction evs as [|ev evs IH]; intros s Hs; [exact Hs|].
  apply IH. now apply handle_tracked.
Qed.

Lemma animate_wraps s0 :
  trainX (animate s0)
  = (if isPaused s0 then trainX s0
     else if trackEnd <? trainX s0 + trainSpeed then trackStart else trainX s0 + trainSpeed)
  /\ podX (animate s0)
     = (if isPaused s0 then podX s0
        else if trackEnd <? podX s0 + podSpeed then trackStart else podX s0 + podSpeed)
  /\ x (position (gunship (animate s0)))
     = (if trainX (animate s0) - 28 <? trackStart
        then trainX (animate s0) - 28 + (trackEnd - trackStart)
        else trainX (animate s0) - 28).
Proof.
  destruct (animate_tracks s0) as (_ & H1 & H2 & _ & H3 & _).
  rewrite H3, H1, H2. unfold advance, gunshipX. repeat split; reflexivity.
Qed.

Lemma play_on_track rain0 drones0 evs :
  let s := play evs (initial rain0 drones0) in
  onTrack (trainX s) = true
  /\ onTrack (podX s) = true
  /\ onTrack (x (position (gunship s))) = true.
Proof.
  intros s.
  assert (Hs : tracked s).
  { apply play_tracked. split; [now exists 0%nat|]. split; [now exists 0%nat|]. now left. }
  destruct Hs as ((n & Hn) & (m & Hm) & Hg).
  pose proof (train_orbit n) as Htrain. cbn zeta in Htrain. rewrite <- Hn in Htrain.
  apply andb_prop in Htrain as [Ht Hgun].
  split; [exact Ht|]. split; [rewrite Hm; apply pod_orbit|].
  destruct Hg as [-> | ->]; [vm_compute; reflexivity | exact Hgun].
Qed.

(** C3.  Whatever frames are shown and buttons pressed, the train and the
    pod are between [trackStart = -200] and [trackEnd = 200], and so is the
    gunship.  A frame that is not paused moves train and pod one step on and
    puts them back to [trackStart] once they are past [trackEnd]; the gunship
    is 28 behind the train, and a track length further on when that would be
    before [trackStart]. *)
Theorem trains_stay_on_track rain0 drones0 evs :
  let s := play evs (initial rain0 drones0) in
  (onTrack (trainX s) = true
   /\ onTrack (podX s) = true
   /\ onTrack (x (position (gunship s))) = true)
  /\ (forall s0,
        trainX (animate s0)
        = (if isPaused s0 then trainX s0
           else if trackEnd <? trainX s0 + trainSpeed then trackStart
                else trainX s0 + trainSpeed)
        /\ podX (animate s0)
           = (if isPaused s0 then podX s0
              else if trackEnd <? podX s0 + podSpeed then trackStart
                   else podX s0 + podSpeed)
        /\ x (position (gunship (animate s0)))
           = (if trainX (animate s0) - 28 <? trackStart
              then trainX (animate s0) - 28 + (trackEnd - trackStart)
              else trainX (animate s0) - 28)).
Proof.
  intros s. split.
  - apply play_on_track.
  - apply animate_wraps.
Qed.

(** *** Pausing *)

Lemma moveTrains_paused s : isPaused s = true -> moveTrains s = s.
Proof. unfold moveTrains. now intros ->. Qed.

Lemma animateWorld_paused s :
  isPaused s = true -> animateWorld s = set_lasers (zeroed (lasers s)) s.
Proof. unfold animateWorld. now intros ->. Qed.

(** A paused frame, written out: the three groups are placed where the
    unchanged coordinates put them, the camera and the train volume are
    seen to, the laser lines are cleared, the scene is rendered. *)
Lemma frameBody_paused a b c s :
  isPaused s = true ->
  frameBody a b c s =
  let s5 := trainVolume (moveCamera a b c (placePods (placeGunship (placeTrain s)))) in
  set_rendered (S (rendered s)) (set_lasers (zeroed (lasers s)) s5).
Proof.
  intros Hp. unfold frameBody. rewrite (moveTrains_paused s Hp).
  set (s4 := placePods (placeGunship (placeTrain s))).
  pose proof (moveCamera_fields a b c s4) as H. cbn zeta.
  set (s5 := moveCamera a b c s4) in *.
  injection H as H1 _ _ _ _ _ _ _ _ H10 H11 _.
  assert (Hp5 : isPaused (trainVolume s5) = true).
  { change (isPaused s5 = true). rewrite H1. exact Hp. }
  rewrite (animateWorld_paused _ Hp5).
  change (lasers (trainVolume s5)) with (lasers s5).
  change (rendered (set_lasers (zeroed (lasers s5)) (trainVolume s5))) with (rendered s5).
  rewrite H10, H11. reflexivity.
Qed.

(** C4.  A frame taken while the scene is paused leaves the train and the
    pod where they are, and the rain, every drone and every particle as they
    are.  What it does: it places the three groups where the unchanged
    coordinates put them, moves the camera, sets the train volume, clears the
    laser lines and renders. *)
Theorem paused_frame_freezes_world s :
  isPaused s = true ->
  let s' := animate s in
  (trainX s' = trainX s /\ podX s' = podX s /\ rain s' = rain s
   /\ drones s' = drones s /\ particles s' = particles s)
  /\ isPaused s' = true
  /\ (train s' = train (placeTrain s) /\ gunship s' = gunship (placeGunship s)
      /\ pods s' = pods (placePods s))
  /\ (exists vol, audio s' = audio s ++ [SetTrainVolume vol])
  /\ lasers s' = zeroed (lasers s)
  /\ rendered s' = S (rendered s).
Proof.
  intros Hp s'. unfold s'.
  destruct (animate_frameBody s) as (a & b & c & ->).
  rewrite (frameBody_paused a b c (shaken s) Hp). cbn zeta.
  set (s4 := placePods (placeGunship (placeTrain (shaken s)))).
  pose proof (moveCamera_fields a b c s4) as H.
  set (s5 := moveCamera a b c s4) in *.
  injection H as H1 H2 H3 H4 H5 H6 H7 H8 H9 H10 H11 H12.
  split; [|split; [|split; [|split; [|split]]]].
  - change (trainX s5 = trainX s /\ podX s5 = podX s /\ rain s5 = rain s
            /\ drones s5 = drones s /\ particles s5 = particles s).
    rewrite H2, H3, H7, H8, H9. repeat split.
  - change (isPaused s5 = true). rewrite H1. exact Hp.
  - change (train s5 = train (placeTrain s) /\ gunship s5 = gunship (placeGunship s)
            /\ pods s5 = pods (placePods s)).
    rewrite H4, H5, H6. repeat split.
  - change (exists vol, audio (trainVolume s5) = audio s ++ [SetTrainVolume vol]).
    unfold trainVolume. cbn [audio set_audio]. rewrite H12. eexists. reflexivity.
  - reflexivity.
  - reflexivity.
Qed.

(** ** Further properties of the animation loop *)

(** *** Pausing only delays *)

(** The number of frames among [evs] that find the scene running, when the
    pause flag is [paused] before the first of them. *)
Fixpoint moving (paused : bool) (evs : list Event) : nat :=
  match evs with
  | [] => 0
  | Frame :: evs => (if paused then 0 else 1) + moving paused evs
  | TogglePause :: evs => moving (negb paused) evs
  | ToggleCamera :: evs => moving paused evs
  end.

#[local] Instance Event_eq_dec : EqDecision Event.
Proof. solve_decision. Defined.

(** The number of frames among [evs]. *)
Definition frameCount (evs : list Event) : nat :=
  length (filter (fun ev => ev = Frame) evs).

Lemma play_step ev evs s : play (ev :: evs) s = play evs (handle s ev).
Proof. reflexivity. Qed.

(** The rain as the loop [for (let i = 1; i < positions.length; i += 3)]
    leaves it: of every drop [x, y, z] the height alone has changed. *)
Definition fallen (p : float) : float :=
  let p := Math_fround (p - 2) in
  if p <? -10 then Math_fround 200 else p.

Fixpoint rainRows (positions : list float) : list float :=
  match positions with
  | px :: py :: pz :: positions => px :: fallen py :: pz :: rainRows positions
  | [px; py] => [px; fallen py]
  | positions => positions
  end.

Lemma rainLoop_rows fuel : forall pre l,
  (length l <= fuel)%nat ->
  rainLoop fuel (length pre + 1) (pre ++ l) = pre ++ rainRows l.
Proof.
  induction fuel as [|fuel IH]; intros pre l Hlen.
  - destruct l; [reflexivity | cbn in Hlen; lia].
  - cbn [rainLoop]. destruct l as [|px [|py [|pz l]]].
    + cbn [rainRows]. rewrite !app_nil_r, lookup_ge_None_2 by lia. reflexivity.
    + cbn [rainRows]. rewrite lookup_ge_None_2 by (rewrite length_app; cbn; lia). reflexivity.
    + assert (Hat : (pre ++ [px; py]) !! (length pre + 1)%nat = Some py).
      { rewrite lookup_app_r by lia. now replace (length pre + 1 - length pre)%nat with 1%nat by lia. }
      rewrite Hat. fold (fallen py).
      assert (Hput : <[(length pre + 1)%nat := fallen py]> (pre ++ [px; py])
                     = pre ++ [px; fallen py]).
      { rewrite insert_app_r_alt by lia.
        now replace (length pre + 1 - length pre)%nat with 1%nat by lia. }
      rewrite Hput. destruct fuel as [|fuel]; [reflexivity|]. cbn [rainLoop].
      rewrite lookup_ge_None_2 by (rewrite length_app; cbn; lia). reflexivity.
    + assert (Hat : (pre ++ px :: py :: pz :: l) !! (length pre + 1)%nat = Some py).
      { rewrite lookup_app_r by lia. now replace (length pre + 1 - length pre)%nat with 1%nat by lia. }
      rewrite Hat. fold (fallen py).
      assert (Hput : <[(length pre + 1)%nat := fallen py]> (pre ++ px :: py :: pz :: l)
                     = (pre ++ [px; fallen py; pz]) ++ l).
      { rewrite insert_app_r_alt by lia.
        replace (length pre + 1 - length pre)%nat with 1%nat by lia.
        now rewrite <- app_assoc. }
      rewrite Hput.
      replace (length pre + 1 + 3)%nat with (length (pre ++ [px; fallen py; pz]) + 1)%nat
        by (rewrite length_app; cbn; lia).
      rewrite IH by (cbn in Hlen; lia). cbn [rainRows]. now rewrite <- app_assoc.
Qed.

Lemma fall_rows s : rain (fall s) = rainRows (rain s).
Proof.
  unfold fall. cbn [rain set_rain].
  exact (rainLoop_rows (length (rain s)) [] (rain s) (Nat.le_refl _)).
Qed.

Lemma rainRows_length l : length (rainRows l) = length l.
Proof.
  induction l as [l IH] using (induction_ltof1 _ (@length _)). unfold ltof in IH.
  destruct l as [|px [|py [|pz l]]]; try reflexivity.
  cbn [rainRows length]. rewrite IH by (cbn; lia). reflexivity.
Qed.

Lemma rainRows_lookup l : forall i,
  rainRows l !! i = if (i mod 3 =? 1)%nat then fallen <$> l !! i else l !! i.
Proof.
  induction l as [l IH] using (induction_ltof1 _ (@length _)). unfold ltof in IH.
  intros i. destruct l as [|px [|py [|pz l]]].
  - cbn. now destruct (_ =? _)%nat.
  - destruct i as [|i]; cbn; [reflexivity|]. now destruct (_ =? _)%nat.
  - destruct i as [|[|i]]; cbn; try reflexivity. now destruct (_ =? _)%nat.
  - destruct i as [|[|[|i]]]; try reflexivity.
    cbn [rainRows lookup list_lookup]. rewrite IH by (cbn; lia).
    replace (S (S (S i)) mod 3)%nat with (i mod 3)%nat; [reflexivity|].
    change (S (S (S i))) with (3 + i)%nat. rewrite <- (Nat.Div0.add_mod_idemp_l 3 i 3).
    reflexivity.
Qed.

(** What the last block of a frame does to the rain, and that it renders
    nothing. *)
Lemma animateWorld_rain s :
  rain (animateWorld s) = (if isPaused s then rain s else rainRows (rain s))
  /\ rendered (animateWorld s) = rendered s.
Proof.
  unfold animateWorld. destruct (isPaused s); cbn [negb]; [now split|].
  pose proof (forEachDrone_stage (add (position (gunship (fall s))) (vec3 3 3 0))
                (drones (fall s)) (fall s) []) as H.
  destruct (forEachDrone _ _ _) as [ds [s1 l1]]. cbn [fst snd] in H.
  unfold stage in H. injection H as _ _ _ _ _ _ _ _ _ _ _ Hrain _ _ _ Hrend.
  cbn [rain rendered set_drones set_particles set_lasers set_drawRange].
  rewrite Hrain, Hrend. split; [|reflexivity].
  exact (rainLoop_rows (length (rain s)) [] (rain s) (Nat.le_refl _)).
Qed.

Lemma moveTrains_rain s :
  rain (moveTrains s) = rain s /\ rendered (moveTrains s) = rendered s.
Proof.
  unfold moveTrains. destruct (negb (isPaused s)); [|now split].
  cbn [trainX set_trainX].
  destruct (trackEnd <? trainX s + trainSpeed); cbn [podX set_podX set_trainX];
    destruct (trackEnd <? podX s + podSpeed); now split.
Qed.

Lemma frameBody_rain a b c s :
  rain (frameBody a b c s) = (if isPaused s then rain s else rainRows (rain s))
  /\ rendered (frameBody a b c s) = S (rendered s).
Proof.
  unfold frameBody.
  set (s1 := moveTrains s).
  set (s4 := placePods (placeGunship (placeTrain s1))).
  set (s5 := moveCamera a b c s4).
  set (s7 := animateWorld (trainVolume s5)).
  destruct (animateWorld_rain (trainVolume s5)) as [H7 H7']. fold s7 in H7, H7'.
  pose proof (moveCamera_fields a b c s4) as H5. fold s5 in H5.
  destruct (moveTrains_rain s) as [H1 H1']. fold s1 in H1, H1'.
  destruct (moveTrains_tracks s) as (Hp & _ & _). fold s1 in Hp.
  change (isPaused (trainVolume s5)) with (isPaused s5) in H7.
  change (rain (trainVolume s5)) with (rain s5) in H7.
  change (rendered (trainVolume s5)) with (rendered s5) in H7'.
  injection H5 as F1 _ _ _ _ _ F7 _ _ _ F11 _.
  change (rain (set_rendered (S (rendered s7)) s7)) with (rain s7).
  change (rendered (set_rendered (S (rendered s7)) s7)) with (S (rendered s7)).
  rewrite H7, H7', F1, F7, F11.
  change (isPaused s4) with (isPaused s1). change (rain s4) with (rain s1).
  change (rendered s4) with (rendered s1).
  rewrite Hp, H1, H1'. now split.
Qed.

Lemma animate_rain s :
  rain (animate s) = (if isPaused s then rain s else rainRows (rain s))
  /\ rendered (animate s) = S (rendered s).
Proof.
  destruct (animate_frameBody s) as (a & b & c & ->).
  exact (frameBody_rain a b c (shaken s)).
Qed.

Lemma play_moving evs : forall s,
  trainX (play evs s) = Nat.iter (moving (isPaused s) evs) (advance trainSpeed) (trainX s)
  /\ podX (play evs s) = Nat.iter (moving (isPaused s) evs) (advance podSpeed) (podX s)
  /\ rendered (play evs s) = (rendered s + frameCount evs)%nat.
Proof.
  induction evs as [|ev evs IH]; intros s.
  - cbn. unfold frameCount. cbn. repeat split. lia.
  - rewrite play_step. destruct (IH (handle s ev)) as (Ht & Hq & Hr).
    rewrite Ht, Hq, Hr. clear Ht Hq Hr IH. destruct ev; cbn [handle moving].
    + destruct (animate_tracks s) as (-> & -> & -> & _).
      destruct (animate_rain s) as [_ ->].
      unfold frameCount. rewrite filter_cons, decide_True by reflexivity. cbn [length].
      destruct (isPaused s); cbn [Nat.add]; rewrite ?Nat.iter_succ_r; repeat split; lia.
    + unfold frameCount. rewrite filter_cons, decide_False by discriminate.
      repeat split.
    + unfold frameCount. rewrite filter_cons, decide_False by discriminate.
      repeat split.
Qed.

(** X6.  Pausing delays the train and nothing else.  After any frames and
    button presses the train and the pod are where as many steps along the
    track take them as frames have found the scene running, however the
    pauses were placed; every frame, paused or not, is rendered. *)
Theorem pause_only_delays rain0 drones0 evs :
  let s := play evs (initial rain0 drones0) in
  trainX s = Nat.iter (moving false evs) (advance trainSpeed) 0
  /\ podX s = Nat.iter (moving false evs) (advance podSpeed) 40
  /\ rendered s = frameCount evs.
Proof.
  intros s. destruct (play_moving evs (initial rain0 drones0)) as (Ht & Hq & Hr).
  split; [exact Ht|]. split; [exact Hq|]. exact Hr.
Qed.

(** X7.  A frame of a running scene lowers the height of every raindrop by
    2, rounded as the [Float32Array] stores it, and puts a drop that is then
    below -10 back at 200; the x and z coordinates of the drops, which lie
    between the heights in the array, are never written, and the array keeps
    its length.  A trailing incomplete drop [x, y] still falls. *)
Theorem rain_falls_by_rows s :
  isPaused s = false ->
  rain (animate s) = rainRows (rain s)
  /\ length (rain (animate s)) = length (rain s)
  /\ forall i, rain (animate s) !! i
               = if (i mod 3 =? 1)%nat then fallen <$> rain s !! i else rain s !! i.
Proof.
  intros Hp. destruct (animate_rain s) as [Hr _]. rewrite Hp in Hr.
  rewrite Hr. split; [reflexivity|]. split; [apply rainRows_length | apply rainRows_lookup].
Qed.

(** *** Drones, lasers and debris *)

Definition isExplosion (c : AudioCall) : bool :=
  match c with TriggerExplosion => true | SetTrainVolume _ => false end.

(** [burst hits s s']: from [s] to [s'], [hits] drones have exploded: each
    has sounded once and has thrown six pieces of debris with 60 frames to
    live; nothing else has happened to the particles or to the audio. *)
Definition burst (hits : nat) (s s' : Scene) : Prop :=
  exists new,
    particles s' = particles s ++ new
    /\ length new = (6 * hits)%nat
    /\ Forall (fun p => life p = 60%Z) new
    /\ audio s' = audio s ++ repeat TriggerExplosion hits.

Lemma burst_none s s' : particles s' = particles s -> audio s' = audio s -> burst 0 s s'.
Proof.
  intros Hp Ha. exists []. rewrite Hp, Ha, !app_nil_r. repeat split. constructor.
Qed.

Lemma burst_more h1 h2 s1 s2 s3 : burst h1 s1 s2 -> burst h2 s2 s3 -> burst (h1 + h2) s1 s3.
Proof.
  intros (n1 & P1 & L1 & F1 & A1) (n2 & P2 & L2 & F2 & A2). exists (n1 ++ n2).
  split; [now rewrite P2, P1, app_assoc|]. split; [rewrite length_app; lia|].
  split; [now apply Forall_app|]. now rewrite A2, A1, <- app_assoc, repeat_app.
Qed.

Lemma debris_one p s :
  exists q, particles (debris p s) = particles s ++ [q] /\ life q = 60%Z
            /\ audio (debris p s) = audio s.
Proof. eexists. repeat split. Qed.

Lemma iter_debris n p : forall s,
  exists new, particles (Nat.iter n (debris p) s) = particles s ++ new
              /\ length new = n /\ Forall (fun q => life q = 60%Z) new
              /\ audio (Nat.iter n (debris p) s) = audio s.
Proof.
  induction n as [|n IH]; intros s.
  - exists []. cbn. rewrite app_nil_r. repeat split. constructor.
  - rewrite Nat.iter_succ_r. destruct (debris_one p s) as (q & Hq & Hl & Ha).
    destruct (IH (debris p s)) as (new & Hn & Hlen & Hall & Haud).
    exists (q :: new). rewrite Hn, Hq, <- app_assoc, Haud, Ha. cbn.
    repeat split; [now rewrite Hlen | now constructor].
Qed.

Lemma explode_burst d s : burst 1 s (snd (explode d s)).
Proof.
  unfold explode, random. cbn [snd fst].
  destruct (iter_debris 6 (mesh_position d)
              (set_audio (audio (set_randoms (N.succ (randoms s)) s) ++ [TriggerExplosion])
                 (set_randoms (N.succ (randoms s)) s))) as (new & Hn & Hlen & Hall & Haud).
  exists new. rewrite Hn, Haud. repeat split; assumption.
Qed.

Lemma fly_quiet d s :
  particles (snd (fly d s)) = particles s /\ audio (snd (fly d s)) = audio s.
Proof. unfold fly, now. destruct (_ || _); now split. Qed.

(** One drone: it fires at most once, and it explodes only if it fires. *)
Lemma droneStep_account g d s l d' s' l' :
  droneStep g d (s, l) = (d', (s', l')) ->
  exists shots hits,
    (hits <= shots <= 1)%nat
    /\ length l' = (length l + 6 * shots)%nat
    /\ burst hits s s'.
Proof.
  unfold droneStep. destruct (negb (isActive d)).
  - destruct (respawnTimer d - 1 <=? 0); unfold respawn, random; intros [= _ <- <-];
      exists 0%nat, 0%nat; (split; [lia|]); (split; [lia|]); apply burst_none; reflexivity.
  - destruct (fly_quiet d s) as [Hp Ha]. destruct (fly d s) as [d1 s1]. cbn [snd] in Hp, Ha.
    destruct (distanceTo (mesh_position d1) g <? 80);
      [|intros [= _ <- <-]; exists 0%nat, 0%nat; split; [lia|]; split; [lia|];
        apply burst_none; assumption].
    unfold random. cbn [fst snd].
    destruct (0.90 <? Math_random (randoms s1));
      [|intros [= _ <- <-]; exists 0%nat, 0%nat; split; [lia|]; split; [lia|];
        apply burst_none; cbn [particles audio set_randoms]; assumption].
    cbn [randoms set_randoms].
    destruct (0.6 <? Math_random (N.succ (randoms s1))).
    + pose proof (explode_burst d1 (set_randoms (N.succ (N.succ (randoms s1)))
                                     (set_randoms (N.succ (randoms s1)) s1))) as Hb.
      destruct (explode d1 _) as [d2 s4]. cbn [fst snd] in *. intros [= _ <- <-].
      exists 1%nat, 1%nat. split; [lia|]. split; [rewrite !length_app; cbn; lia|].
      destruct Hb as (new & Hn & Hlen & Hall & Haud). exists new.
      rewrite Hn, Haud. cbn [particles audio set_randoms]. rewrite Hp, Ha. repeat split; assumption.
    + intros [= _ <- <-]. exists 1%nat, 0%nat. split; [lia|].
      split; [rewrite !length_app; cbn; lia|].
      apply burst_none; cbn [particles audio set_randoms]; assumption.
Qed.

Lemma forEachDrone_account g ds : forall s l ds' s' l',
  forEachDrone g ds (s, l) = (ds', (s', l')) ->
  length ds' = length ds
  /\ exists shots hits,
       (hits <= shots <= length ds)%nat
       /\ length l' = (length l + 6 * shots)%nat
       /\ burst hits s s'.
Proof.
  induction ds as [|d ds IH]; intros s l ds' s' l'; cbn [forEachDrone].
  - intros [= <- <- <-]. split; [reflexivity|]. exists 0%nat, 0%nat. cbn.
    split; [lia|]. split; [lia|]. now apply burst_none.
  - destruct (droneStep g d (s, l)) as [d1 [s1 l1]] eqn:Hstep.
    destruct (droneStep_account g d s l d1 s1 l1 Hstep) as (sh1 & h1 & Hle1 & Hlen1 & Hb1).
    destruct (forEachDrone g ds (s1, l1)) as [ds2 [s2 l2]] eqn:Hrest.
    destruct (IH s1 l1 ds2 s2 l2 Hrest) as (Hds & sh2 & h2 & Hle2 & Hlen2 & Hb2).
    intros [= <- <- <-]. cbn [length].
    split; [now rewrite Hds|]. exists (sh1 + sh2)%nat, (h1 + h2)%nat.
    split; [lia|]. split; [lia|]. exact (burst_more _ _ _ _ _ Hb1 Hb2).
Qed.

(** Writing into the line geometry: the buffer keeps its length, and what
    fits is stored in front of the zeros. *)
Lemma copyInto_length src : forall i dst, length (copyInto i src dst) = length dst.
Proof.
  induction src as [|v src IH]; intros i dst; cbn [copyInto]; [reflexivity|].
  now rewrite IH, length_insert.
Qed.

Lemma copyInto_fits src : forall pre dst,
  (length src <= length dst)%nat ->
  copyInto (length pre) src (pre ++ dst) = pre ++ (Math_fround <$> src) ++ drop (length src) dst.
Proof.
  induction src as [|v src IH]; intros pre dst Hlen; cbn [copyInto]; [reflexivity|].
  destruct dst as [|w dst]; [cbn in Hlen; lia|].
  rewrite <- (Nat.add_0_r (length pre)) at 2. rewrite insert_app_r.
  change (<[0%nat := Math_fround v]> (w :: dst)) with (Math_fround v :: dst).
  replace (pre ++ Math_fround v :: dst) with ((pre ++ [Math_fround v]) ++ dst)
    by now rewrite <- app_assoc.
  replace (S (length pre)) with (length (pre ++ [Math_fround v]))
    by (rewrite length_app; cbn; lia).
  rewrite IH by (cbn in Hlen; lia). now rewrite <- app_assoc.
Qed.

Lemma drop_repeat_left {A : Type} (a : A) n : forall m, drop n (repeat a m) = repeat a (m - n).
Proof. induction n as [|n IH]; intros [|m]; cbn; auto. Qed.

Lemma zeroed_repeat l : zeroed l = repeat 0 (length l).
Proof. unfold zeroed. induction l as [|a l IH]; cbn; [reflexivity | now rewrite IH]. Qed.

(** The particle loop as a function of the array. *)
Definition drifted (p : Particle) : Particle :=
  let v := vec3 (x (p_velocity p)) (y (p_velocity p) - 0.01) (z (p_velocity p)) in
  {| p_position := add (p_position p) v;
     p_rotation_x := p_rotation_x p + 0.2; p_rotation_z := p_rotation_z p + 0.2;
     p_red := p_red p; p_velocity := v; life := (life p - 1)%Z |}.

Definition expired (p : Particle) : bool :=
  (life p <=? 0)%Z || (y (p_position p) <? -10).

Lemma particleLoop_filter pre : forall tail,
  particleLoop (length pre) (pre ++ tail)
  = filter (fun p => expired p = false) (drifted <$> pre) ++ tail.
Proof.
  induction pre as [|p pre IH] using rev_ind; intros tail; [reflexivity|].
  rewrite length_app, Nat.add_1_r. cbn [particleLoop].
  rewrite <- app_assoc. cbn [app].
  rewrite list_lookup_middle by reflexivity.
  change (particleLoop (length pre)
            (if expired (drifted p)
             then delete (length pre) (<[length pre := drifted p]> (pre ++ p :: tail))
             else <[length pre := drifted p]> (pre ++ p :: tail))
          = filter (fun p0 => expired p0 = false) (drifted <$> pre ++ [p]) ++ tail).
  assert (Hput : <[length pre := drifted p]> (pre ++ p :: tail) = pre ++ drifted p :: tail).
  { rewrite <- (Nat.add_0_r (length pre)) at 1. now rewrite insert_app_r. }
  rewrite Hput, fmap_app, filter_app. cbn [fmap list_fmap]. rewrite filter_cons, filter_nil.
  destruct (expired (drifted p)) eqn:He.
  - rewrite decide_False by discriminate. rewrite delete_middle, IH, app_nil_r. reflexivity.
  - rewrite decide_True by reflexivity. rewrite IH, <- app_assoc. reflexivity.
Qed.

(** The last block of a frame of a running scene, drone by drone. *)
Lemma animateWorld_account s :
  isPaused s = false ->
  exists shots hits segments new,
    (hits <= shots <= length (drones s))%nat
    /\ length segments = (6 * shots)%nat
    /\ length new = (6 * hits)%nat
    /\ Forall (fun p => life p = 60%Z) new
    /\ length (drones (animateWorld s)) = length (drones s)
    /\ lasers (animateWorld s) = copyInto 0 segments (zeroed (lasers s))
    /\ drawRange (animateWorld s)
       = of_uint63 (Uint63.of_Z (Z.of_nat (length segments))) / 3
    /\ particles (animateWorld s)
       = filter (fun p => expired p = false) (drifted <$> particles s ++ new)
    /\ audio (animateWorld s) = audio s ++ repeat TriggerExplosion hits.
Proof.
  intros Hp. unfold animateWorld. rewrite Hp. cbn [negb].
  pose proof (forEachDrone_stage (add (position (gunship (fall s))) (vec3 3 3 0))
                (drones (fall s)) (fall s) []) as Hst.
  destruct (forEachDrone _ _ _) as [ds [s1 l1]] eqn:Hloop. cbn [fst snd] in *.
  destruct (forEachDrone_account _ _ _ _ _ _ _ Hloop) as (Hds & shots & hits & Hle & Hlen & Hb).
  unfold stage in Hst. injection Hst as _ _ _ _ _ _ _ _ _ _ _ _ _ Hlas _ _.
  destruct Hb as (new & Hnew & Hnlen & Hall & Haud).
  exists shots, hits, l1, new.
  cbn [drones lasers drawRange particles audio set_drones set_particles set_lasers
       set_drawRange].
  rewrite Hnew, Haud, Hlas.
  change (particles (fall s)) with (particles s). change (audio (fall s)) with (audio s).
  change (lasers (fall s)) with (lasers s). change (drones (fall s)) with (drones s) in *.
  split; [exact Hle|]. split; [exact Hlen|]. split; [exact Hnlen|]. split; [exact Hall|].
  split; [exact Hds|]. split; [reflexivity|]. split; [reflexivity|]. split; [|reflexivity].
  rewrite <- (app_nil_r (particles s ++ new)) at 2.
  rewrite (particleLoop_filter (particles s ++ new) []). now rewrite app_nil_r.
Qed.

Lemma moveTrains_cargo s :
  (drones (moveTrains s), particles (moveTrains s), lasers (moveTrains s), audio (moveTrains s))
  = (drones s, particles s, lasers s, audio s).
Proof.
  unfold moveTrains. destruct (negb (isPaused s)); [|reflexivity].
  cbn [trainX set_trainX].
  destruct (trackEnd <? trainX s + trainSpeed); cbn [podX set_podX set_trainX];
    destruct (trackEnd <? podX s + podSpeed); reflexivity.
Qed.

(** A whole frame of a running scene, drone by drone. *)
Lemma frameBody_account a b c s :
  isPaused s = false ->
  exists shots hits segments new vol,
    (hits <= shots <= length (drones s))%nat
    /\ length segments = (6 * shots)%nat
    /\ length new = (6 * hits)%nat
    /\ Forall (fun p => life p = 60%Z) new
    /\ length (drones (frameBody a b c s)) = length (drones s)
    /\ lasers (frameBody a b c s) = copyInto 0 segments (zeroed (lasers s))
    /\ drawRange (frameBody a b c s)
       = of_uint63 (Uint63.of_Z (Z.of_nat (length segments))) / 3
    /\ particles (frameBody a b c s)
       = filter (fun p => expired p = false) (drifted <$> particles s ++ new)
    /\ audio (frameBody a b c s)
       = audio s ++ [SetTrainVolume vol] ++ repeat TriggerExplosion hits.
Proof.
  intros Hp. unfold frameBody.
  set (s1 := moveTrains s).
  set (s4 := placePods (placeGunship (placeTrain s1))).
  set (s5 := moveCamera a b c s4).
  pose proof (moveCamera_fields a b c s4) as H5. fold s5 in H5.
  pose proof (moveTrains_cargo s) as H1. fold s1 in H1.
  destruct (moveTrains_tracks s) as (Hp1 & _ & _). fold s1 in Hp1.
  injection H5 as F1 _ _ _ _ _ _ F8 F9 F10 _ F12.
  injection H1 as G1 G2 G3 G4.
  change (isPaused s4) with (isPaused s1) in F1. change (drones s4) with (drones s1) in F8.
  change (particles s4) with (particles s1) in F9. change (lasers s4) with (lasers s1) in F10.
  change (audio s4) with (audio s1) in F12.
  rewrite Hp1, Hp in F1. rewrite G1 in F8. rewrite G2 in F9. rewrite G3 in F10.
  rewrite G4 in F12.
  assert (Hvol : exists vol, audio (trainVolume s5) = audio s ++ [SetTrainVolume vol]).
  { unfold trainVolume. cbn [audio set_audio]. rewrite F12. eexists. reflexivity. }
  destruct Hvol as [vol Hvol].
  assert (H6 : isPaused (trainVolume s5) = false) by exact F1.
  destruct (animateWorld_account (trainVolume s5) H6)
    as (shots & hits & segments & new & Hle & Hseg & Hnew & Hall & Hd & Hl & Hr & Hq & Ha).
  change (drones (trainVolume s5)) with (drones s5) in Hle, Hd.
  change (lasers (trainVolume s5)) with (lasers s5) in Hl.
  change (particles (trainVolume s5)) with (particles s5) in Hq.
  rewrite F8 in Hle, Hd. rewrite F10 in Hl. rewrite F9 in Hq. rewrite Hvol in Ha.
  exists shots, hits, segments, new, vol.
  generalize dependent (animateWorld (trainVolume s5)). intros s7 Hd Hl Hr Hq Ha.
  cbn [drones lasers drawRange particles audio set_rendered].
  rewrite <- app_assoc in Ha. auto 10.
Qed.






(** X8.  The drones of a running frame, counted.  The array of drones keeps
    its length.  Some [shots] of them, at most one per drone, fire a laser,
    and some [hits] of these explode.  The frame stores six numbers per shot
    in the line buffer, which keeps its length and is zero behind them, and
    sets the draw range from their count; this holds whenever the buffer has
    room for six numbers per drone, as the one allocated has.  Each hit throws
    six pieces of debris with 60 frames to live and sounds one explosion,
    after the one train volume of the frame. *)
Theorem drones_fire_and_burst s :
  isPaused s = false -> (6 * length (drones s) <= length (lasers s))%nat ->
  exists shots hits segments new vol,
    (hits <= shots <= length (drones s))%nat
    /\ length segments = (6 * shots)%nat
    /\ length (drones (animate s)) = length (drones s)
    /\ lasers (animate s)
       = (Math_fround <$> segments) ++ repeat 0 (length (lasers s) - 6 * shots)
    /\ drawRange (animate s) = of_uint63 (Uint63.of_Z (Z.of_nat (6 * shots))) / 3
    /\ length new = (6 * hits)%nat
    /\ Forall (fun p => life p = 60%Z) new
    /\ particles (animate s)
       = filter (fun p => expired p = false) (drifted <$> particles s ++ new)
    /\ audio (animate s) = audio s ++ [SetTrainVolume vol] ++ repeat TriggerExplosion hits.
Proof.
  intros Hp Hroom. destruct (animate_frameBody s) as (a & b & c & ->).
  assert (Hp' : isPaused (shaken s) = isPaused s) by reflexivity.
  assert (Hd : drones (shaken s) = drones s) by reflexivity.
  assert (Hq : particles (shaken s) = particles s) by reflexivity.
  assert (Hl : lasers (shaken s) = lasers s) by reflexivity.
  assert (Ha : audio (shaken s) = audio s) by reflexivity.
  rewrite Hp in Hp'.
  destruct (frameBody_account a b c (shaken s) Hp')
    as (shots & hits & segments & new & vol & Hle & Hseg & Hnew & Hall & H1 & H2 & H3 & H4 & H5).
  rewrite Hd in Hle, H1. rewrite Hl in H2. rewrite Hq in H4. rewrite Ha in H5.
  exists shots, hits, segments, new, vol.
  split; [exact Hle|]. split; [exact Hseg|]. split; [exact H1|].
  split; [|split; [now rewrite H3, Hseg | auto]].
  rewrite H2, zeroed_repeat.
  pose proof (copyInto_fits segments [] (repeat 0 (length (lasers s)))) as Hfit.
  cbn [app length] in Hfit. rewrite Hfit by (rewrite repeat_length; lia).
  now rewrite drop_repeat_left, Hseg.
Qed.


End Animate.

(** A small scene to run: two rain drops, one waiting drone and one flying
    drone, a random source that always answers 0.95, a clock that stands
    still, and stand-ins for the libm functions. *)
Definition demoRain : list float := [0; 100; 0; 5; -9; 5].

Definition demoDrones : list Drone :=
  [ {| mesh_position := vec3 0 0 0; mesh_visible := false; velocity := vec3 0 0 0;
       isActive := false; respawnTimer := 2 |};
    {| mesh_position := vec3 0 30 0; mesh_visible := true; velocity := vec3 0 0.1 0.2;
       isActive := true; respawnTimer := 0 |} ].

Definition demoAnimate : Scene -> Scene :=
  animate (fun _ => 0.95) (fun _ => 0) (fun a => a) (fun _ => 1) (fun a b => a / b)
          (fun a => a) (fun c => c).

Definition demoPlay (evs : list Event) : Scene :=
  fold_left (fun s ev => match ev with
                         | Frame => demoAnimate s
                         | TogglePause => togglePause s
                         | ToggleCamera => toggleCamera s
                         end) evs (initial demoRain demoDrones).

(** Three frames, then the pause button. *)
Definition demoPaused : Scene := demoPlay [Frame; Frame; Frame; TogglePause].

Example demo_three_frames :
  let s := demoPlay [Frame; Frame; Frame] in
  (trainX s, x (position (gunship s)), rain s, length (particles s), map isActive (drones s))
  = (6, -22, [0; 94; 0; 5; 196; 5], 6%nat, [true; false]).
Proof. vm_compute. reflexivity. Qed.

Lemma paused_frame_freezes_world_demo :
  isPaused demoPaused = true
  /\ let s' := demoAnimate demoPaused in
     (trainX s' = trainX demoPaused /\ podX s' = podX demoPaused /\ rain s' = rain demoPaused
      /\ drones s' = drones demoPaused /\ particles s' = particles demoPaused)
     /\ isPaused s' = true
     /\ (train s' = train (placeTrain (fun a b => a / b) demoPaused)
         /\ gunship s' = gunship (placeGunship (fun a b => a / b) demoPaused)
         /\ pods s' = pods (placePods (fun a b => a / b) demoPaused))
     /\ (exists vol, audio s' = audio demoPaused ++ [SetTrainVolume vol])
     /\ lasers s' = zeroed (lasers demoPaused)
     /\ rendered s' = S (rendered demoPaused).
Proof.
  split; [vm_compute; reflexivity|].
  apply (paused_frame_freezes_world (fun _ => 0.95) (fun _ => 0) (fun a => a) (fun _ => 1)
           (fun a b => a / b) (fun a => a) (fun c => c) demoPaused).
  vm_compute. reflexivity.
Defined.

(** The demo scene after three frames, running. *)
Definition demoRunning : Scene := Eval vm_compute in demoPlay [Frame; Frame; Frame].

Lemma rain_falls_by_rows_demo :
  isPaused demoRunning = false
  /\ rain (demoAnimate demoRunning) = rainRows (fun a => a) (rain demoRunning)
  /\ length (rain (demoAnimate demoRunning)) = length (rain demoRunning)
  /\ forall i, rain (demoAnimate demoRunning) !! i
               = if (i mod 3 =? 1)%nat then fallen (fun a => a) <$> rain demoRunning !! i
                 else rain demoRunning !! i.
Proof.
  split; [reflexivity|].
  apply (rain_falls_by_rows (fun _ => 0.95) (fun _ => 0) (fun a => a) (fun _ => 1)
           (fun a b => a / b) (fun a => a) (fun c => c) demoRunning).
  reflexivity.
Defined.

Example rain_demo :
  (rain demoRunning, rain (demoAnimate demoRunning)) = ([0; 94; 0; 5; 196; 5], [0; 92; 0; 5; 194; 5]).
Proof. vm_compute. reflexivity. Qed.

Lemma drones_fire_and_burst_demo :
  (isPaused demoRunning = false
   /\ (6 * length (drones demoRunning) <= length (lasers demoRunning))%nat)
  /\ exists shots hits segments new vol,
       (hits <= shots <= length (drones demoRunning))%nat
       /\ length segments = (6 * shots)%nat
       /\ length (drones (demoAnimate demoRunning)) = length (drones demoRunning)
       /\ lasers (demoAnimate demoRunning)
          = ((fun a => a) <$> segments) ++ repeat 0 (length (lasers demoRunning) - 6 * shots)
       /\ drawRange (demoAnimate demoRunning)
          = of_uint63 (Uint63.of_Z (Z.of_nat (6 * shots))) / 3
       /\ length new = (6 * hits)%nat
       /\ Forall (fun p => life p = 60%Z) new
       /\ particles (demoAnimate demoRunning)
          = filter (fun p => expired p = false) (drifted <$> particles demoRunning ++ new)
       /\ audio (demoAnimate demoRunning)
          = audio demoRunning ++ [SetTrainVolume vol] ++ repeat TriggerExplosion hits.
Proof.
  split; [split; [reflexivity | cbn; lia]|].
  apply (drones_fire_and_burst (fun _ => 0.95) (fun _ => 0) (fun a => a) (fun _ => 1)
           (fun a b => a / b) (fun a => a) (fun c => c) demoRunning).
  - reflexivity.
  - cbn. lia.
Defined.

(** The flying drone of the demo has been shot in an earlier frame; in the
    frame that follows no drone is in flight, and the debris drifts on. *)
Example drones_demo :
  (length (particles demoRunning), length (particles (demoAnimate demoRunning)),
   drawRange (demoAnimate demoRunning),
   length (filter (fun c => isExplosion c = true) (audio (demoAnimate demoRunning))))
  = (6%nat, 6%nat, 0, 1%nat).
Proof. vm_compute. reflexivity. Qed.

End Metropolis.

(** * The click handler of the studio logo scene *)

Module Gaffer.

Local Open Scope float_scope.
Set Warnings "-inexact-float".

(** [e.clientX], [e.clientY] of a [PointerEvent]; [startPos]; the [mouse]
    vector handed to the ray caster. *)
Record PointerEvent := { clientX : float; clientY : float }.
Record Point := { x : float; y : float }.

(** [renderer.domElement.getBoundingClientRect()]. *)
Record DOMRect := { left : float; top : float; width : float; height : float }.

(** What a ray can meet: [[...voxels, blackCircle]]. *)
Inductive Target := Voxel (index : nat) | BlackCircle.

(** What the page shows when an event arrives: where the canvas is, and,
    for the camera and the voxels as they are at that moment, what
    [raycaster.intersectObjects] returns for a ray through [mouse]. *)
Record View := {
  rect : DOMRect;
  intersectObjects : Point -> list Target
}.

Inductive Cursor := cursor_default | cursor_pointer.

(** The variables the three handlers share, the cursor style of the
    container, and the calls of [window.open] made so far. *)
Record Page := {
  startPos : Point;
  mouse : Point;
  cursor : Cursor;
  opened : list (string * string)
}.

Definition initial : Page :=
  {| startPos := {| x := 0; y := 0 |}; mouse := {| x := 0; y := 0 |};
     cursor := cursor_default; opened := [] |}.

Definition onPointerDown (e : PointerEvent) (p : Page) : Page :=
  {| startPos := {| x := clientX e; y := clientY e |};
     mouse := mouse p; cursor := cursor p; opened := opened p |}.

(** The normalised device coordinates both handlers compute. *)
Definition toDevice (r : DOMRect) (e : PointerEvent) : Point :=
  {| x := ((clientX e - left r) / width r) * 2 - 1;
     y := - ((clientY e - top r) / height r) * 2 + 1 |}.

(** [distance] as [onPointerUp] computes it. *)
Definition distance (e : PointerEvent) (p : Page) : float :=
  let diffX := abs (clientX e - x (startPos p)) in
  let diffY := abs (clientY e - y (startPos p)) in
  sqrt (diffX * diffX + diffY * diffY).

Definition onPointerUp (v : View) (e : PointerEvent) (p : Page) : Page :=
  if distance e p <? 5 then
    let m := toDevice (rect v) e in
    let intersects := intersectObjects v m in
    {| startPos := startPos p; mouse := m; cursor := cursor p;
       opened := if (0 <? length intersects)%nat
                 then opened p ++ [("https://gaffer-studio.ru", "_blank")]
                 else opened p |}
  else p.

Definition onPointerMove (v : View) (e : PointerEvent) (p : Page) : Page :=
  let m := toDevice (rect v) e in
  let intersects := intersectObjects v m in
  {| startPos := startPos p; mouse := m;
     cursor := if (0 <? length intersects)%nat then cursor_pointer else cursor_default;
     opened := opened p |}.


(** ** Facts about the handlers *)

(** The distance between two points of the plane, in binary64. *)
Definition euclidean (ax ay bx by_ : float) : float :=
  sqrt ((bx - ax) * (bx - ax) + (by_ - ay) * (by_ - ay)).






(** ** Runs of pointer events *)

(** The three events the canvas listens to, each with the view it finds. *)
Inductive CanvasEvent :=
  | pointerdown (e : PointerEvent)
  | pointermove (v : View) (e : PointerEvent)
  | pointerup (v : View) (e : PointerEvent).

Definition dispatchEvent (ev : CanvasEvent) (p : Page) : Page :=
  match ev with
  | pointerdown e => onPointerDown e p
  | pointermove v e => onPointerMove v e p
  | pointerup v e => onPointerUp v e p
  end.

Definition dispatchAll (evs : list CanvasEvent) (p : Page) : Page :=
  fold_left (fun p ev => dispatchEvent ev p) evs p.



(** Whether the ray through the place of an event meets the logo. *)
Definition overLogo (v : View) (e : PointerEvent) : bool :=
  (0 <? length (intersectObjects v (toDevice (rect v) e)))%nat.

(** The releases of a run that count as clicks on the logo, given the place
    of the last press before the run. *)
Fixpoint clicks (press : Point) (evs : list CanvasEvent) : nat :=
  match evs with
  | [] => 0
  | pointerdown e :: evs => clicks {| x := clientX e; y := clientY e |} evs
  | pointermove _ _ :: evs => clicks press evs
  | pointerup v e :: evs =>
    (if (euclidean (x press) (y press) (clientX e) (clientY e) <? 5) && overLogo v e
     then 1 else 0) + clicks press evs
  end.






(** A click on the circle, and a drag of exactly 5 pixels over it. *)
Definition demoView : View :=
  {| rect := {| left := 0; top := 0; width := 800; height := 600 |};
     intersectObjects := fun m => if (abs (x m) <? 0.5) && (abs (y m) <? 0.5)
                                  then [BlackCircle] else [] |}.

Example click_demo :
  opened (onPointerUp demoView {| clientX := 401; clientY := 302 |}
            (onPointerDown {| clientX := 400; clientY := 300 |} initial))
  = [("https://gaffer-studio.ru", "_blank")].
Proof. vm_compute. reflexivity. Qed.

Example drag_demo :
  opened (onPointerUp demoView {| clientX := 403; clientY := 304 |}
            (onPointerDown {| clientX := 400; clientY := 300 |} initial))
  = [].
Proof. vm_compute. reflexivity. Qed.

(** A click, a drag, a second release near the press, and a move off the
    logo: two tabs, and an arrow for a cursor. *)
Definition demoRun : list CanvasEvent :=
  [ pointerdown {| clientX := 400; clientY := 300 |};
    pointermove demoView {| clientX := 401; clientY := 301 |};
    pointerup demoView {| clientX := 401; clientY := 302 |};
    pointermove demoView {| clientX := 420; clientY := 300 |};
    pointerup demoView {| clientX := 420; clientY := 300 |};
    pointerup demoView {| clientX := 400; clientY := 300 |};
    pointermove demoView {| clientX := 10; clientY := 10 |} ].

Example run_demo :
  (opened (dispatchAll demoRun initial), cursor (dispatchAll demoRun initial),
   clicks (startPos initial) demoRun)
  = ([("https://gaffer-studio.ru", "_blank"); ("https://gaffer-studio.ru", "_blank")],
     cursor_default, 2%nat).
Proof. vm_compute. reflexivity. Qed.

End Gaffer.

(** * The voxels of the sky pod scene *)

Module SkyPodVoxels.

Local Open Scope float_scope.
Set Warnings "-inexact-float".

(** ** Numbers of JavaScript that are integers *)

(** A finite binary64 number as a fraction [n / d] with [d] a power of two. *)
Definition toFraction (a : float) : option (Z * Z) :=
  match Prim2SF a with
  | S754_zero _ => Some (0, 1)%Z
  | S754_finite s m e =>
    let n := if s then Z.neg m else Z.pos m in
    if (0 <=? e)%Z then Some (n * 2 ^ e, 1)%Z else Some (n, 2 ^ (- e))%Z
  | _ => None
  end.

(** [Math.round]: the nearest integer, a tie going up.  [Math.ceil]. *)
Definition Math_round (a : float) : Z :=
  match toFraction a with
  | Some (n, d) => ((2 * n + d) / (2 * d))%Z
  | None => 0%Z
  end.

Definition Math_ceil (a : float) : Z :=
  match toFraction a with
  | Some (n, d) => (- ((- n) / d))%Z
  | None => 0%Z
  end.

(** An integer of moderate size as a number. *)
Definition ofZ (n : Z) : float :=
  match n with
  | Z0 => 0
  | Z.pos _ => of_uint63 (Uint63.of_Z n)
  | Z.neg m => - of_uint63 (Uint63.of_Z (Z.pos m))
  end.

Example Math_round_ties :
  map Math_round [2.5; -2.5; -0.25; 0.5; 34.75; -19.5; 7] = [3; -2; 0; 1; 35; -19; 7]%Z.
Proof. vm_compute. reflexivity. Qed.

Example Math_ceil_values : map Math_ceil [2.25; -2.25; 7; 101.2] = [3; -2; 7; 102]%Z.
Proof. vm_compute. reflexivity. Qed.

(** ** Voxels *)

Inductive Material := matPylon | matRail | matCable | matOther (color : Z).

(** A voxel mesh: where it sits on the grid of side [CONFIG.size], and what
    it is made of. *)
Record Voxel := { position : Z * Z * Z; material : Material }.

Definition CONFIG_size : Z := 1.

(** The template literal [`${x},${y},${z}`] for integers.  A negative zero
    prints as ["0"] in JavaScript, so the key of a grid cell does not depend
    on the sign of a zero [Math.round] may return. *)
Definition key (px py pz : Z) : string :=
  pretty px +:+ "," +:+ pretty py +:+ "," +:+ pretty pz.

(** [addVoxelGeneric(group, x, y, z, material, checkOccupied)], at integer
    coordinates.  The set [occupied] of the closure and the group are passed
    in and handed back. *)
Definition addVoxelGeneric (px py pz : Z) (mat : Material) (checkOccupied : bool)
    (st : gset string * list Voxel) : gset string * list Voxel :=
  let '(occupied, group) := st in
  let mesh := {| position := (px * CONFIG_size, py * CONFIG_size, pz * CONFIG_size)%Z;
                 material := mat |} in
  if checkOccupied then
    if bool_decide (key px py pz ∈ occupied) then (occupied, group)
    else ({[ key px py pz ]} ∪ occupied, group ++ [mesh])
  else (occupied, group ++ [mesh]).

(** [THREE.MathUtils.lerp]. *)
Definition lerp (a b t : float) : float := (1 - t) * a + t * b.

Definition Math_PI : float := 3.141592653589793.
Definition railY : float := 22.

(** The values a loop variable takes in [for (h = from; h < to; h += step)],
    at most [fuel] of them. *)
Fixpoint forRange (fuel : nat) (from to step : float) : list float :=
  match fuel with
  | O => []
  | S fuel => if from <? to then from :: forRange fuel (from + step) to step else []
  end.

(** [for (let h = -20; h < 35; h += 0.25)]: 220 turns, whatever the fuel
    beyond that. *)
Definition pylonHeights : list float := forRange 1000 (-20) 35 0.25.

Lemma pylonHeights_complete :
  length pylonHeights = 220%nat /\ forRange 220 (-20) 35 0.25 = pylonHeights.
Proof. vm_compute. split; reflexivity. Qed.

Section Pylon.

Variable Math_sin Math_cos : float -> float.

(** Placing a voxel of the environment with the occupancy check on. *)
Definition placeChecked (c : Z * Z * Z) (mat : Material) st :=
  addVoxelGeneric (c.1.1) (c.1.2) (c.2) mat true st.

(** The column of a pylon: four voxels for every height. *)
Definition columnAt (baseX h : float) st :=
  let xOff := Math_sin (h * 0.05) * 5 in
  let zOff := Math_cos (h * 0.05) * 2 in
  fold_left (fun st dx =>
    fold_left (fun st dz =>
      placeChecked (Math_round (baseX + xOff + dx), Math_round h, Math_round (10 + zOff + dz))
                   matPylon st) [0; 1] st) [0; 1] st.

(** The arm: [for (let i = 0; i <= steps; i++)], two voxels a turn. *)
Definition armAt (baseX : float) (i : nat) st :=
  let armStartX := baseX + Math_sin (35 * 0.05) * 5 in
  let armStartY := 35 in
  let armStartZ := 10 + Math_cos (35 * 0.05) * 2 in
  let steps := 60 in
  let t := ofZ (Z.of_nat i) / steps in
  let targetX := baseX - 10 in
  let cx := lerp armStartX targetX t in
  let cy := lerp armStartY (railY + 2) t in
  let cz := lerp armStartZ 0 t in
  let arcY := Math_sin (t * Math_PI) * 5 in
  let st := placeChecked (Math_round cx, Math_round (cy + arcY), Math_round cz) matPylon st in
  placeChecked (Math_round cx, (Math_round (cy + arcY) - 1)%Z, Math_round cz) matPylon st.

(** [drawLine]: [for (let i = 0; i <= s; i++)] with [s = Math.ceil(dist * 2)]. *)
Definition drawLine (x1 y1 z1 x2 y2 z2 : float) st :=
  let dist := sqrt ((x2 - x1) * (x2 - x1) + (y2 - y1) * (y2 - y1) + (z2 - z1) * (z2 - z1)) in
  let s := Math_ceil (dist * 2) in
  fold_left (fun st i =>
    let t := ofZ (Z.of_nat i) / ofZ s in
    placeChecked (Math_round (lerp x1 x2 t), Math_round (lerp y1 y2 t), Math_round (lerp z1 z2 t))
                 matCable st)
    (seq 0 (Z.to_nat (s + 1))) st.

Definition createPylon (baseX : float) st :=
  let st := fold_left (fun st h => columnAt baseX h st) pylonHeights st in
  let st := fold_left (fun st i => armAt baseX i st) (seq 0 61) st in
  let st := drawLine baseX 30 10 (baseX + 20) (-10) 15 st in
  let st := drawLine baseX 25 10 (baseX + 15) (-10) 15 st in
  drawLine baseX 32 10 (baseX - 15) railY 0 st.

(** [occupied.clear(); createPylon(40); createPylon(-40);] on an
    environment group that already holds the rail. *)
Definition buildPylons (st : gset string * list Voxel) : gset string * list Voxel :=
  let st := (∅, st.2) in
  let st := createPylon 40 st in
  createPylon (-40) st.

(** ** Facts about the voxels *)

Definition keyOf (c : Z * Z * Z) : string := key (c.1.1) (c.1.2) (c.2).

(** What the checked placements have made of a group [group0]: the voxels
    added to it sit on different cells, and the cell of each is on record. *)
Definition checkedFrom (group0 : list Voxel) (st : gset string * list Voxel) : Prop :=
  exists added,
    st.2 = group0 ++ added
    /\ NoDup (position <$> added)
    /\ (forall v, v ∈ added -> keyOf (position v) ∈ st.1).

Lemma addVoxelGeneric_present px py pz mat occ group :
  key px py pz ∈ occ -> addVoxelGeneric px py pz mat true (occ, group) = (occ, group).
Proof. intros H. unfold addVoxelGeneric. now rewrite bool_decide_eq_true_2. Qed.

Lemma addVoxelGeneric_fresh px py pz mat occ group :
  key px py pz ∉ occ ->
  addVoxelGeneric px py pz mat true (occ, group)
  = ({[ key px py pz ]} ∪ occ, group ++ [{| position := (px, py, pz); material := mat |}]).
Proof.
  intros H. unfold addVoxelGeneric, CONFIG_size. rewrite bool_decide_eq_false_2 by exact H.
  now rewrite !Z.mul_1_r.
Qed.

Lemma placeChecked_checkedFrom group0 c mat st :
  checkedFrom group0 st -> checkedFrom group0 (placeChecked c mat st).
Proof.
  destruct st as [occ group], c as [[px py] pz]. intros (added & Hg & Hnd & Hocc).
  cbn [fst snd] in *. unfold placeChecked. cbn [fst snd].
  destruct (decide (key px py pz ∈ occ)) as [Hin|Hout].
  - rewrite addVoxelGeneric_present by exact Hin. now exists added.
  - rewrite addVoxelGeneric_fresh by exact Hout.
    exists (added ++ [{| position := (px, py, pz); material := mat |}]). cbn [fst snd].
    split; [now rewrite Hg, app_assoc|]. split.
    + rewrite fmap_app. apply NoDup_app. split; [exact Hnd|]. split.
      * intros c Hc Hc'. apply list_elem_of_singleton in Hc'. subst c.
        apply list_elem_of_fmap in Hc as (v & Hv & Hin). apply Hocc in Hin.
        rewrite <- Hv in Hin. exact (Hout Hin).
      * apply NoDup_singleton.
    + intros v Hv. apply elem_of_app in Hv as [Hv|Hv].
      * apply elem_of_union_r. now apply Hocc.
      * apply list_elem_of_singleton in Hv. subst v. apply elem_of_union_l.
        now apply elem_of_singleton.
Qed.

Lemma fold_left_keeps {S A : Type} (P : S -> Prop) (f : S -> A -> S) (l : list A) :
  (forall st a, P st -> P (f st a)) -> forall st, P st -> P (fold_left f l st).
Proof. intros Hf. induction l as [|a l IH]; intros st Hst; [exact Hst|]. apply IH, Hf, Hst. Qed.

Lemma createPylon_checkedFrom group0 baseX st :
  checkedFrom group0 st -> checkedFrom group0 (createPylon baseX st).
Proof.
  intros Hst. unfold createPylon, drawLine, armAt, columnAt. cbn zeta.
  repeat (apply fold_left_keeps; [intros ? ? ?|]);
    repeat apply placeChecked_checkedFrom; assumption.
Qed.

(** C9.  A checked placement on a cell that is on record returns without
    adding a mesh; on a cell that is not, it adds the mesh and records the
    cell.  So any run of checked placements, and the two pylons built after
    [occupied.clear()] in particular, adds at most one voxel per cell. *)
Theorem checked_voxels_share_no_cell :
  (forall px py pz mat occ group,
      key px py pz ∈ occ -> addVoxelGeneric px py pz mat true (occ, group) = (occ, group))
  /\ (forall px py pz mat occ group,
        key px py pz ∉ occ ->
        addVoxelGeneric px py pz mat true (occ, group)
        = ({[ key px py pz ]} ∪ occ,
           group ++ [{| position := (px, py, pz); material := mat |}]))
  /\ (forall occ group (placements : list (Z * Z * Z * Material)),
        exists added,
          (fold_left (fun st p => placeChecked p.1 p.2 st) placements (occ, group)).2
          = group ++ added
          /\ NoDup (position <$> added))
  /\ (forall occ group,
        exists added,
          (buildPylons (occ, group)).2 = group ++ added /\ NoDup (position <$> added)).
Proof.
  split; [exact addVoxelGeneric_present|]. split; [exact addVoxelGeneric_fresh|].
  assert (Hstart : forall occ group, checkedFrom group (occ, group)).
  { intros occ group. exists []. cbn. rewrite app_nil_r.
    split; [reflexivity|]. split; [constructor|]. intros v Hv. now apply elem_of_nil in Hv. }
  split.
  - intros occ group placements.
    destruct (fold_left_keeps (checkedFrom group)
                (fun st p => placeChecked p.1 p.2 st) placements
                (fun st p => placeChecked_checkedFrom group p.1 p.2 st)
                (occ, group) (Hstart occ group)) as (added & Hg & Hnd & _).
    now exists added.
  - intros occ group. unfold buildPylons. cbn [snd].
    destruct (createPylon_checkedFrom group (-40) _
                (createPylon_checkedFrom group 40 _ (Hstart ∅ group)))
      as (added & Hg & Hnd & _).
    now exists added.
Qed.

End Pylon.

(** Two placements on one cell, a third elsewhere; the second is dropped. *)
Example checked_voxels_demo :
  (fold_left (fun st p => placeChecked p.1 p.2 st)
     [((40, -20, 12), matPylon); ((40, -20, 12), matCable); ((41, 0, 12), matPylon)]%Z
     (∅, [])).2
  = [ {| position := (40, -20, 12)%Z; material := matPylon |};
      {| position := (41, 0, 12)%Z; material := matPylon |} ].
Proof. vm_compute. reflexivity. Qed.

Example key_demo : key 40 (-20) 0 = "40,-20,0"%string.
Proof. vm_compute. reflexivity. Qed.

End SkyPodVoxels.

(** * The voxel data of the metropolis scene *)

Module MetropolisVoxels.

Local Open Scope float_scope.
Set Warnings "-inexact-float".

(** [Math.round] on the finite numbers the generators pass. *)
Definition Math_round : float -> Z := SkyPodVoxels.Math_round.

(** ** Constants *)

Definition PALETTE_teal : N := 0x00F3FF.
Definition PALETTE_orange : N := 0xFF5722.
Definition PALETTE_snow : N := 0xFF0099.
Definition PALETTE_red : N := 0xFF003C.
Definition PALETTE_yellow : N := 0xF7E600.
Definition PALETTE_water : N := 0x0044FF.

Definition NEON_COLORS : list N :=
  [PALETTE_teal; PALETTE_orange; PALETTE_snow; PALETTE_red; PALETTE_yellow; PALETTE_water].

(** ** The data object and [addVoxel] *)

(** [data] is an object that maps a colour to a flat array of coordinates,
    three numbers a voxel.  The colours are the non-negative integers of
    [PALETTE]. *)

Definition addVoxel (data : gmap N (list Z)) (x y z : float) (colorHex : N) : gmap N (list Z) :=
  let ix := Math_round x in
  let iy := Math_round y in
  let iz := Math_round z in
  let data := match data !! colorHex with
              | None => <[colorHex := []]> data
              | Some _ => data
              end in
  <[colorHex := (data !!! colorHex) ++ [ix; iy; iz]]> data.

(** ** [createVoxelGroup] *)

Record MeshStandardMaterial := {
  color : N;
  roughness : float;
  metalness : float;
  emissive : N;
  emissiveIntensity : float;
  transparent : bool;
  opacity : float
}.

(** An instanced mesh: its material, the [count] it was made with, and the
    position written into the matrix of each instance; an index past the end
    of an array reads [undefined], here [None]. *)
Record InstancedMesh := {
  material : MeshStandardMaterial;
  count : Q;
  castShadow : bool;
  receiveShadow : bool;
  instances : list (option Z * option Z * option Z)
}.

(** The body of the [forEach], for the key [colorHex] and its array. *)
Definition createMesh (colorHex : N) (positions : list Z) : InstancedMesh :=
  let count := (Z.of_nat (length positions) # 3)%Q in
  let isNeon := bool_decide (colorHex ∈ NEON_COLORS) in
  let isWater := (colorHex =? PALETTE_water)%N in
  {| material :=
       {| color := colorHex;
          roughness := if isNeon then 0.2 else if isWater then 0.1 else 0.8;
          metalness := if isNeon then 0.1 else if isWater then 0.9 else 0.2;
          emissive := if isNeon then colorHex else 0x000000;
          emissiveIntensity := if isNeon then 2.0 else 0.0;
          transparent := isWater;
          opacity := if isWater then 0.7 else 1.0 |};
     count := count;
     castShadow := negb isNeon && negb isWater;
     receiveShadow := true;
     instances :=
       (fun i => (positions !! (i * 3)%nat, positions !! (i * 3 + 1)%nat,
                  positions !! (i * 3 + 2)%nat))
       <$> seq 0 (Z.to_nat (Qceiling count)) |}.

(** [Object.keys]: keys that are integers come in ascending order. *)
Definition Object_keys (data : gmap N (list Z)) : list N :=
  merge_sort N.le ((map_to_list data).*1).

(** The meshes of the group, in the order they are added. *)
Definition createVoxelGroup (data : gmap N (list Z)) : list InstancedMesh :=
  (fun colorHex => createMesh colorHex (data !!! colorHex)) <$> Object_keys data.

(** ** Runs of [addVoxel] *)

Record Call := { cx : float; cy : float; cz : float; ccolor : N }.

Definition addVoxels (calls : list Call) (data : gmap N (list Z)) : gmap N (list Z) :=
  fold_left (fun data c => addVoxel data (cx c) (cy c) (cz c) (ccolor c)) calls data.

(** The cell a call names. *)
Definition cell (c : Call) : Z * Z * Z := (Math_round (cx c), Math_round (cy c), Math_round (cz c)).

Definition ofColor (k : N) (calls : list Call) : list Call :=
  filter (fun c => ccolor c = k) calls.

Definition flat (c : Call) : list Z := [Math_round (cx c); Math_round (cy c); Math_round (cz c)].

Definition placed (c : Z * Z * Z) : option Z * option Z * option Z :=
  (Some c.1.1, Some c.1.2, Some c.2).

Definition isNeon (k : N) : bool := bool_decide (k ∈ NEON_COLORS).

(** ** Facts *)

Lemma addVoxel_lookup data x y z k k' :
  addVoxel data x y z k !! k'
  = if decide (k' = k)
    then Some (default [] (data !! k) ++ [Math_round x; Math_round y; Math_round z])
    else data !! k'.
Proof.
  unfold addVoxel. cbv zeta. destruct (decide (k' = k)) as [->|Hne].
  - rewrite lookup_insert_eq. f_equal. f_equal.
    destruct (data !! k) as [l|] eqn:Hk.
    + now rewrite (lookup_total_correct _ _ _ Hk).
    + now rewrite lookup_total_insert_eq.
  - rewrite lookup_insert_ne by congruence.
    destruct (data !! k); [reflexivity|]. now rewrite lookup_insert_ne by congruence.
Qed.

Lemma addVoxels_lookup calls : forall data k,
  addVoxels calls data !! k
  = match data !! k, ofColor k calls with
    | None, [] => None
    | o, l => Some (default [] o ++ concat (flat <$> l))
    end.
Proof.
  induction calls as [|c calls IH]; intros data k.
  - cbn. destruct (data !! k); cbn; [now rewrite app_nil_r | reflexivity].
  - change (addVoxels (c :: calls) data)
      with (addVoxels calls (addVoxel data (cx c) (cy c) (cz c) (ccolor c))).
    rewrite IH, addVoxel_lookup. unfold ofColor. rewrite filter_cons.
    destruct (decide (k = ccolor c)) as [->|Hne].
    + rewrite decide_True by reflexivity. fold (flat c).
      destruct (data !! ccolor c);
        cbn [default from_option id fmap list_fmap concat app];
        rewrite <- ?app_assoc; reflexivity.
    + rewrite decide_False by congruence. reflexivity.
Qed.

Lemma addVoxels_empty calls k :
  addVoxels calls ∅ !! k
  = match ofColor k calls with [] => None | l => Some (concat (flat <$> l)) end.
Proof. rewrite addVoxels_lookup, lookup_empty. reflexivity. Qed.

Lemma flat_length l : length (concat (flat <$> l)) = (3 * length l)%nat.
Proof. induction l as [|c l IH]; [reflexivity|]. cbn [fmap list_fmap concat]. rewrite length_app, IH. cbn. lia. Qed.

Lemma whole_count n : Qceiling (Z.of_nat (3 * n) # 3) = Z.of_nat n.
Proof.
  unfold Qceiling, Qfloor, Qopp. cbn [Qnum Qden].
  replace (- Z.of_nat (3 * n))%Z with ((- Z.of_nat n) * 3)%Z by lia.
  rewrite Z.div_mul by lia. lia.
Qed.

Lemma unflatten l :
  (fun i => (concat (flat <$> l) !! (i * 3)%nat, concat (flat <$> l) !! (i * 3 + 1)%nat,
             concat (flat <$> l) !! (i * 3 + 2)%nat)) <$> seq 0 (length l)
  = placed ∘ cell <$> l.
Proof.
  induction l as [|c l IH]; [reflexivity|].
  cbn [length seq fmap list_fmap concat]. f_equal.
  rewrite <- IH, <- fmap_S_seq, <- list_fmap_compose.
  apply list_fmap_ext. intros i j _. reflexivity.
Qed.

Lemma createMesh_flat k l :
  instances (createMesh k (concat (flat <$> l))) = placed ∘ cell <$> l
  /\ (count (createMesh k (concat (flat <$> l))) == inject_Z (Z.of_nat (length l)))%Q.
Proof.
  unfold createMesh. cbn [instances count]. rewrite flat_length, whole_count, Nat2Z.id.
  split; [apply unflatten|].
  unfold Qeq, inject_Z. cbn [Qnum Qden]. lia.
Qed.

Lemma keys_sorted (data : gmap N (list Z)) : StronglySorted N.lt (Object_keys data).
Proof.
  unfold Object_keys.
  assert (Hs : StronglySorted N.le (merge_sort N.le (map_to_list data).*1)).
  { apply StronglySorted_merge_sort; [intros a b c; apply N.le_trans|].
    intros a b. apply N.le_ge_cases. }
  assert (Hn : NoDup (merge_sort N.le (map_to_list data).*1)).
  { rewrite merge_sort_Permutation. apply NoDup_fst_map_to_list. }
  induction Hs as [|a l Hs IH Hall]; [constructor|].
  apply NoDup_cons in Hn as [Ha Hn]. constructor; [now apply IH|].
  rewrite Forall_forall in *. intros b Hb. specialize (Hall b Hb).
  assert (a <> b) by (intros ->; exact (Ha Hb)). lia.
Qed.

Lemma keys_lookup (data : gmap N (list Z)) k : k ∈ Object_keys data <-> is_Some (data !! k).
Proof.
  unfold Object_keys. rewrite merge_sort_Permutation, list_elem_of_fmap. split.
  - intros ([k' l] & -> & Hin). apply elem_of_map_to_list in Hin. now exists l.
  - intros [l Hl]. exists (k, l). split; [reflexivity | now apply elem_of_map_to_list].
Qed.

(** X17.  Filling an empty data object by any run of [addVoxel] calls and
    handing it to [createVoxelGroup] gives one instanced mesh for every
    colour that was used, in ascending order of the colours, and the
    instances of the mesh of a colour are exactly the calls with that
    colour, in the order they were made, each at the cell its coordinates
    round to: no voxel is lost, merged or moved to another colour.  A mesh is
    smooth and glowing when its colour is one of the neon ones and rough and
    dull otherwise, and it casts a shadow exactly when it is not neon; water
    is among the neon colours, so the roughness 0.1 and the metalness 0.9
    written for it are never used, while it alone is see-through. *)
Theorem voxels_grouped_by_colour (calls : list Call) :
  let group := createVoxelGroup (addVoxels calls ∅) in
  StronglySorted N.lt (color ∘ material <$> group)
  /\ (forall k, k ∈ (color ∘ material <$> group) <-> k ∈ (ccolor <$> calls))
  /\ (forall m, m ∈ group ->
        let k := color (material m) in
        instances m = placed ∘ cell <$> ofColor k calls
        /\ (count m == inject_Z (Z.of_nat (length (ofColor k calls))))%Q
        /\ roughness (material m) = (if isNeon k then 0.2 else 0.8)
        /\ metalness (material m) = (if isNeon k then 0.1 else 0.2)
        /\ emissive (material m) = (if isNeon k then k else 0%N)
        /\ castShadow m = negb (isNeon k)
        /\ transparent (material m) = (k =? PALETTE_water)%N
        /\ opacity (material m) = (if (k =? PALETTE_water)%N then 0.7 else 1)).
Proof.
  intros group.
  assert (Hcolors : color ∘ material <$> group = Object_keys (addVoxels calls ∅)).
  { unfold group, createVoxelGroup. rewrite <- list_fmap_compose.
    rewrite <- (list_fmap_id (Object_keys _)) at 2. apply list_fmap_ext. now intros. }
  assert (Hused : forall k, k ∈ Object_keys (addVoxels calls ∅) <-> ofColor k calls <> []).
  { intros k. rewrite keys_lookup, addVoxels_empty.
    destruct (ofColor k calls); split; [intros [? [=]] | congruence | congruence | eauto]. }
  split; [rewrite Hcolors; apply keys_sorted|]. split.
  - intros k. rewrite Hcolors, Hused, list_elem_of_fmap. unfold ofColor. split.
    + intros Hne. destruct (filter _ calls) as [|c l] eqn:Hf; [congruence|].
      assert (Hc : c ∈ filter (fun c => ccolor c = k) calls) by (rewrite Hf; left).
      apply list_elem_of_filter in Hc as [Hk Hc]. now exists c.
    + intros (c & -> & Hc) Hf.
      assert (Hin : c ∈ filter (fun c' => ccolor c' = ccolor c) calls)
        by now apply list_elem_of_filter.
      rewrite Hf in Hin. now apply elem_of_nil in Hin.
  - intros m Hm. unfold group, createVoxelGroup in Hm.
    apply list_elem_of_fmap in Hm as (k & -> & Hk).
    apply Hused in Hk. cbv zeta.
    change (color (material (createMesh k (addVoxels calls ∅ !!! k)))) with k.
    assert (Hl : addVoxels calls ∅ !!! k = concat (flat <$> ofColor k calls)).
    { apply lookup_total_correct. rewrite addVoxels_empty.
      destruct (ofColor k calls); [congruence | reflexivity]. }
    rewrite Hl. destruct (createMesh_flat k (ofColor k calls)) as [Hi Hc].
    split; [exact Hi|]. split; [exact Hc|].
    unfold createMesh, isNeon.
    cbn [material roughness metalness emissive castShadow transparent opacity].
    destruct (bool_decide (k ∈ NEON_COLORS)) eqn:Hneon.
    + repeat split.
    + assert (Hw : (k =? PALETTE_water)%N = false).
      { apply N.eqb_neq. intros ->. apply bool_decide_eq_false in Hneon.
        apply Hneon. unfold NEON_COLORS. repeat constructor. }
      rewrite Hw. repeat split.
Qed.

(** Six calls in three colours, one of them water. *)
Definition demoCalls : list Call :=
  [ {| cx := 0.4; cy := 1; cz := -2.5; ccolor := PALETTE_water |};
    {| cx := 0; cy := 0; cz := 0; ccolor := 0 |};
    {| cx := 3; cy := 1; cz := 1; ccolor := PALETTE_teal |};
    {| cx := 0; cy := 0; cz := 0; ccolor := PALETTE_red |};
    {| cx := 7.5; cy := -1; cz := 2; ccolor := PALETTE_water |};
    {| cx := 1; cy := 0; cz := 1; ccolor := 0 |} ].

Example group_demo :
  (fun m => (color (material m), instances m, castShadow m, roughness (material m)))
    <$> createVoxelGroup (addVoxels demoCalls ∅)
  = [ (0%N, [(Some 0, Some 0, Some 0); (Some 1, Some 0, Some 1)]%Z, true, 0.8);
      (PALETTE_water, [(Some 0, Some 1, Some (-2)); (Some 8, Some (-1), Some 2)]%Z, false, 0.2);
      (PALETTE_teal, [(Some 3, Some 1, Some 1)]%Z, false, 0.2);
      (PALETTE_red, [(Some 0, Some 0, Some 0)]%Z, false, 0.2) ].
Proof. vm_compute. reflexivity. Qed.

End MetropolisVoxels.

(** * The voxels of the studio logo *)

Module GafferLogo.

Local Open Scope float_scope.
Set Warnings "-inexact-float".

Record Vector3 := { x : float; y : float; z : float }.

Inductive Material := matTeal | matWhite.

(** [mesh.userData] as the two generators fill it. *)
Record UserData := { orgX : float; orgY : float; orgZ : float; phase : float }.

Record Mesh := {
  position : Vector3;
  scale : Vector3;
  material : Material;
  userData : UserData
}.

Definition CONFIG_voxelSize : float := 0.55.
Definition CONFIG_gridGap : float := 0.05.
Definition CONFIG_ringRadius : float := 35.
Definition CONFIG_ringLayers : nat := 8.
Definition Math_PI : float := 3.141592653589793.

(** A loop counter as a number, and [Math.floor]. *)
Definition ofNat (n : nat) : float := SkyPodVoxels.ofZ (Z.of_nat n).

Definition Math_floor (a : float) : Z :=
  match SkyPodVoxels.toFraction a with
  | Some (n, d) => (n / d)%Z
  | None => 0%Z
  end.

(** The array [voxels] of the effect, whose meshes are the ones in the groups
    of the scene; the calls of [Math.random] so far; the animation frames
    that are pending, [requestRef] and the frames rendered. *)
Record Logo := {
  voxels : list Mesh;
  randoms : N;
  requestRef : option nat;
  frames : list nat;
  nextFrame : nat;
  rendered : nat
}.

Definition push (m : Mesh) (random : bool) (s : Logo) : Logo :=
  {| voxels := voxels s ++ [m];
     randoms := if random then N.succ (randoms s) else randoms s;
     requestRef := requestRef s; frames := frames s; nextFrame := nextFrame s;
     rendered := rendered s |}.

Section Scene.

Variable Math_random : N -> float.
Variable Math_sin Math_cos : float -> float.

(** The canvas: [None] when it gives no 2d context, else the bytes of
    [getImageData(0, 0, 200, 50).data] once the word has been drawn on it. *)
Variable getImageData : string -> option (list Z).

(** The body of the two loops of [createTextVoxels], at column [px] of row
    [py].  The byte read is the first of the four of a pixel. *)
Definition textVoxel (data : list Z) (yPos : float) (mat : Material) (scaleX zOffset : float)
    (px py : nat) (s : Logo) : Logo :=
  match data !! ((py * 200 + px) * 4)%nat with
  | Some alpha =>
    if (128 <? alpha)%Z then
      let posX := (ofNat px - 200 / 2) * (CONFIG_voxelSize + CONFIG_gridGap) * scaleX in
      let posY := (50 - ofNat py) * (CONFIG_voxelSize + CONFIG_gridGap) + yPos in
      let posZ := zOffset in
      push {| position := {| x := posX; y := posY; z := posZ |};
              scale := {| x := 1; y := 1; z := 1 |};
              material := mat;
              userData := {| orgX := posX; orgY := posY; orgZ := posZ;
                             phase := Math_random (randoms s) * Math_PI * 2 |} |} true s
    else s
  | None => s
  end.

Definition createTextVoxels (text : string) (yPos : float) (mat : Material)
    (scaleX zOffset : float) (s : Logo) : Logo :=
  match getImageData text with
  | None => s
  | Some data =>
    fold_left (fun s py =>
      fold_left (fun s px => textVoxel data yPos mat scaleX zOffset px py s) (seq 0 200) s)
      (seq 0 50) s
  end.

Definition createRingVoxels (s : Logo) : Logo :=
  let layers := CONFIG_ringLayers in
  let thicknessStep := CONFIG_voxelSize + CONFIG_gridGap in
  let startRadius := CONFIG_ringRadius - (ofNat layers - 1) * thicknessStep * 0.5 in
  fold_left (fun s l =>
    let r := startRadius + ofNat l * thicknessStep in
    let circumference := 2 * Math_PI * r in
    let count := Math_floor (circumference / (CONFIG_voxelSize + CONFIG_gridGap)) in
    fold_left (fun s i =>
      let angle := (ofNat i / SkyPodVoxels.ofZ count) * Math_PI * 2 in
      let px := Math_cos angle * r in
      let py := Math_sin angle * r in
      push {| position := {| x := px; y := py; z := 0 |};
              scale := {| x := 1; y := 1; z := 1 |};
              material := matTeal;
              userData := {| orgX := px; orgY := py; orgZ := 0; phase := angle * 6 |} |}
           false s)
      (seq 0 (Z.to_nat count)) s)
    (seq 0 layers) s.

(** What [animate] does to a voxel at [time]. *)
Definition wobble (time : float) (m : Mesh) : Mesh :=
  let offset := Math_sin (time * 2 + phase (userData m)) * 0.5 in
  let k := 1 + Math_sin (time * 3 + phase (userData m)) * 0.15 in
  {| position := {| x := x (position m); y := y (position m);
                    z := orgZ (userData m) + offset |};
     scale := {| x := k; y := k; z := k |};
     material := material m;
     userData := userData m |}.

(** One call of [animate]; [time] is [clock.getElapsedTime()]. *)
Definition animate (time : float) (s : Logo) : Logo :=
  let pending := match requestRef s with
                 | Some f => filter (fun i => i <> f) (frames s)
                 | None => frames s
                 end in
  {| voxels := wobble time <$> voxels s;
     randoms := randoms s;
     requestRef := Some (nextFrame s);
     frames := pending ++ [nextFrame s];
     nextFrame := S (nextFrame s);
     rendered := S (rendered s) |}.

Definition empty : Logo :=
  {| voxels := []; randoms := 0; requestRef := None; frames := []; nextFrame := 1;
     rendered := 0 |}.

(** The scene as the effect builds it, before its first [animate()]. *)
Definition built : Logo :=
  let s := createTextVoxels "GAFFER" (-6) matTeal 0.9 0 empty in
  let s := createTextVoxels "STUDIO" (-24) matWhite 0.9 0 s in
  createRingVoxels s.

Definition play (times : list float) (s : Logo) : Logo :=
  fold_left (fun s t => animate t s) times s.

(** ** The voxels of a word *)

(** The pixels of the canvas, row by row. *)
Definition pixels : list (nat * nat) :=
  py ← seq 0 50; px ← seq 0 200; [(px, py)].

Definition bright (data : list Z) (p : nat * nat) : bool :=
  match data !! ((p.2 * 200 + p.1) * 4)%nat with
  | Some alpha => (128 <? alpha)%Z
  | None => false
  end.

(** The voxel of a pixel, with the random number drawn for it. *)
Definition textMesh (yPos : float) (mat : Material) (scaleX zOffset : float)
    (p : nat * nat) (r : float) : Mesh :=
  let posX := (ofNat p.1 - 100) * 0.6000000000000001 * scaleX in
  let posY := (50 - ofNat p.2) * 0.6000000000000001 + yPos in
  {| position := {| x := posX; y := posY; z := zOffset |};
     scale := {| x := 1; y := 1; z := 1 |};
     material := mat;
     userData := {| orgX := posX; orgY := posY; orgZ := zOffset; phase := r * Math_PI * 2 |} |}.

Lemma textVoxel_spec data yPos mat scaleX zOffset p s :
  textVoxel data yPos mat scaleX zOffset p.1 p.2 s
  = if bright data p
    then push (textMesh yPos mat scaleX zOffset p (Math_random (randoms s))) true s
    else s.
Proof.
  unfold textVoxel, bright. destruct (data !! _) as [alpha|]; [|reflexivity].
  destruct (128 <? alpha)%Z; reflexivity.
Qed.

Lemma fold_left_bind {A B S : Type} (f : S -> B -> S) (g : A -> list B) (l : list A) :
  forall s, fold_left f (l ≫= g) s = fold_left (fun s a => fold_left f (g a) s) l s.
Proof.
  induction l as [|a l IH]; intros s; [reflexivity|].
  cbn [mbind list_bind fold_left]. change (list_bind _ _ g l) with (l ≫= g).
  now rewrite fold_left_app, IH.
Qed.

Lemma fold_left_same {A S : Type} (f g : S -> A -> S) (l : list A) :
  (forall s a, f s a = g s a) -> forall s, fold_left f l s = fold_left g l s.
Proof.
  intros Hfg. induction l as [|a l IH]; intros s; [reflexivity|].
  cbn [fold_left]. now rewrite Hfg, IH.
Qed.

Lemma textVoxels_fold data yPos mat scaleX zOffset (ps : list (nat * nat)) s :
  let s' := fold_left (fun s p => textVoxel data yPos mat scaleX zOffset p.1 p.2 s) ps s in
  voxels s'
  = voxels s ++ imap (fun k p => textMesh yPos mat scaleX zOffset p
                                   (Math_random (randoms s + N.of_nat k)))
                     (filter (fun p => bright data p = true) ps)
  /\ randoms s' = (randoms s + N.of_nat (length (filter (fun p => bright data p = true) ps)))%N
  /\ requestRef s' = requestRef s /\ frames s' = frames s
  /\ nextFrame s' = nextFrame s /\ rendered s' = rendered s.
Proof.
  induction ps as [|p ps IH] using rev_ind; cbv zeta.
  - cbn. rewrite app_nil_r, N.add_0_r. repeat split.
  - rewrite fold_left_app. cbn [fold_left]. cbv zeta in IH.
    destruct IH as (Hv & Hr & Hq & Hf & Hn & Hd).
    rewrite filter_app, filter_cons, filter_nil, textVoxel_spec.
    destruct (bright data p) eqn:Hb.
    + rewrite decide_True by reflexivity.
      rewrite imap_app, length_app. cbn [imap length push voxels randoms requestRef frames
                                         nextFrame rendered].
      rewrite Hv, Hr, Nat.add_0_r, <- app_assoc.
      split; [reflexivity|]. split; [lia|]. now repeat split.
    + rewrite decide_False by congruence. rewrite app_nil_r. now repeat split.
Qed.

Lemma createTextVoxels_pixels text yPos mat scaleX zOffset data s :
  getImageData text = Some data ->
  createTextVoxels text yPos mat scaleX zOffset s
  = fold_left (fun s p => textVoxel data yPos mat scaleX zOffset p.1 p.2 s) pixels s.
Proof.
  intros Hd. unfold createTextVoxels, pixels. rewrite Hd, fold_left_bind.
  apply fold_left_same. intros s0 py. rewrite fold_left_bind.
  apply fold_left_same. intros s1 px. reflexivity.
Qed.

(** X18.  A word becomes one voxel for every pixel of the 200 by 50 canvas
    whose first byte (its red one, which the code calls alpha) is above 128,
    taken row by row from the top and from left to right in a row.  The
    voxel of the pixel in column [px] of row [py] sits at
    ((px - 100) * 0.6 * scaleX, (50 - py) * 0.6 + yPos, zOffset), with 0.6
    the sum 0.55 + 0.05 as binary64 makes it, remembers that place as its
    origin, and has the next number of [Math.random], times 2 pi, for its
    phase.  Without a 2d context no voxel is made. *)
Theorem text_voxels_follow_pixels text yPos mat scaleX zOffset s :
  match getImageData text with
  | None => createTextVoxels text yPos mat scaleX zOffset s = s
  | Some data =>
    let lit := filter (fun p => bright data p = true) pixels in
    voxels (createTextVoxels text yPos mat scaleX zOffset s)
    = voxels s ++ imap (fun k p => textMesh yPos mat scaleX zOffset p
                                     (Math_random (randoms s + N.of_nat k))) lit
    /\ randoms (createTextVoxels text yPos mat scaleX zOffset s)
       = (randoms s + N.of_nat (length lit))%N
    /\ (length lit <= 200 * 50)%nat
  end.
Proof.
  destruct (getImageData text) as [data|] eqn:Hd.
  - cbv zeta. rewrite (createTextVoxels_pixels _ _ _ _ _ data) by exact Hd.
    destruct (textVoxels_fold data yPos mat scaleX zOffset pixels s) as (Hv & Hr & _).
    split; [exact Hv|]. split; [exact Hr|].
    etransitivity; [apply length_filter|]. now vm_compute.
  - unfold createTextVoxels. now rewrite Hd.
Qed.

(** ** The animation *)

(** A voxel as the generators leave it: at its origin, in the plane of the
    logo, at full size. *)
Definition atRest (m : Mesh) : Prop :=
  position m = {| x := orgX (userData m); y := orgY (userData m); z := orgZ (userData m) |}
  /\ orgZ (userData m) = 0
  /\ scale m = {| x := 1; y := 1; z := 1 |}.

Lemma push_atRest m b s :
  atRest m -> Forall atRest (voxels s) -> Forall atRest (voxels (push m b s)).
Proof. intros Hm Hs. cbn [push voxels]. apply Forall_app. split; [exact Hs | now constructor]. Qed.

Lemma fold_left_invariant {S A : Type} (P : S -> Prop) (f : S -> A -> S) (l : list A) :
  (forall s a, P s -> P (f s a)) -> forall s, P s -> P (fold_left f l s).
Proof. intros Hf. induction l as [|a l IH]; intros s Hs; [exact Hs|]. apply IH, Hf, Hs. Qed.

Lemma createTextVoxels_atRest text yPos mat scaleX s :
  Forall atRest (voxels s) ->
  Forall atRest (voxels (createTextVoxels text yPos mat scaleX 0 s)).
Proof.
  intros Hs. unfold createTextVoxels. destruct (getImageData text) as [data|]; [|exact Hs].
  apply (fold_left_invariant (fun s => Forall atRest (voxels s))); [|exact Hs].
  intros s0 py H0.
  apply (fold_left_invariant (fun s => Forall atRest (voxels s))); [|exact H0].
  intros s1 px H1. unfold textVoxel. destruct (data !! _) as [alpha|]; [|exact H1].
  destruct (128 <? alpha)%Z; [|exact H1]. apply push_atRest; [|exact H1].
  repeat split.
Qed.

Lemma createRingVoxels_atRest s :
  Forall atRest (voxels s) -> Forall atRest (voxels (createRingVoxels s)).
Proof.
  intros Hs. unfold createRingVoxels. cbv zeta.
  apply (fold_left_invariant (fun s => Forall atRest (voxels s))); [|exact Hs].
  intros s0 l H0.
  apply (fold_left_invariant (fun s => Forall atRest (voxels s))); [|exact H0].
  intros s1 i H1. apply push_atRest; [|exact H1]. repeat split.
Qed.

Lemma built_atRest : Forall atRest (voxels built).
Proof.
  unfold built. cbv zeta.
  apply createRingVoxels_atRest, createTextVoxels_atRest, createTextVoxels_atRest.
  constructor.
Qed.

(** The generators ask for no frame and render nothing. *)
Definition idle (s : Logo) : Prop :=
  requestRef s = None /\ frames s = [] /\ nextFrame s = 1%nat /\ rendered s = 0%nat.

Lemma built_idle : idle built.
Proof.
  assert (Htext : forall text yPos mat scaleX zOffset s,
             idle s -> idle (createTextVoxels text yPos mat scaleX zOffset s)).
  { intros text yPos mat scaleX zOffset s Hs. unfold createTextVoxels.
    destruct (getImageData text) as [data|]; [|exact Hs].
    apply (fold_left_invariant idle); [|exact Hs]. intros s0 py H0.
    apply (fold_left_invariant idle); [|exact H0]. intros s1 px H1.
    unfold textVoxel. destruct (data !! _) as [alpha|]; [|exact H1].
    destruct (128 <? alpha)%Z; [|exact H1]. exact H1. }
  unfold built. cbv zeta. unfold createRingVoxels. cbv zeta.
  apply (fold_left_invariant idle).
  - intros s0 l H0. apply (fold_left_invariant idle); [|exact H0].
    intros s1 i H1. exact H1.
  - apply Htext, Htext. repeat split.
Qed.

Lemma wobble_wobble t t' m : wobble t (wobble t' m) = wobble t m.
Proof. reflexivity. Qed.

Lemma play_snoc times t s : play (times ++ [t]) s = animate t (play times s).
Proof. unfold play. now rewrite fold_left_app. Qed.

Lemma play_voxels times : forall t s,
  voxels (play (times ++ [t]) s) = wobble t <$> voxels s.
Proof.
  induction times as [|t' times IH] using rev_ind; intros t s; [reflexivity|].
  rewrite play_snoc. cbn [animate voxels]. rewrite IH, <- list_fmap_compose.
  apply list_fmap_ext. intros i m _. apply wobble_wobble.
Qed.

Lemma play_rendered times : forall s,
  rendered (play times s) = (rendered s + length times)%nat.
Proof.
  induction times as [|t times IH]; intros s; [cbn; lia|].
  change (play (t :: times) s) with (play times (animate t s)).
  rewrite IH. cbn [animate rendered length]. lia.
Qed.

(** X19.  The logo breathes but never drifts.  After any number of frames,
    the last of them at time [t], the scene holds the voxels it was built
    with, in the same order: each is still at the x and y of its origin, its
    z is the sine of [2 t + phase] halved, measured from the plane of the
    logo, and its three scale factors are 1 plus 0.15 times the sine of
    [3 t + phase].  Nothing of the earlier frames is left in a voxel, and
    every frame was rendered. *)
Theorem logo_never_drifts (times : list float) (t : float) :
  let s := play (times ++ [t]) built in
  voxels s = wobble t <$> voxels built
  /\ length (voxels s) = length (voxels built)
  /\ rendered s = S (length times)
  /\ Forall2 (fun m m0 =>
       userData m = userData m0
       /\ material m = material m0
       /\ x (position m) = orgX (userData m)
       /\ y (position m) = orgY (userData m)
       /\ orgZ (userData m) = 0
       /\ z (position m) = 0 + Math_sin (t * 2 + phase (userData m)) * 0.5
       /\ (let k := 1 + Math_sin (t * 3 + phase (userData m)) * 0.15 in
           scale m = {| x := k; y := k; z := k |}))
     (voxels s) (voxels built).
Proof.
  cbv zeta. rewrite play_voxels, length_fmap, play_rendered, length_app.
  destruct built_idle as (_ & _ & _ & ->).
  split; [reflexivity|]. split; [reflexivity|]. split; [cbn [length]; lia|].
  apply Forall2_fmap_l, Forall_Forall2_diag.
  eapply Forall_impl; [apply built_atRest|].
  intros m (Hp & Hz & _). unfold wobble, compose.
  cbn [userData material position scale x y z].
  rewrite Hp, Hz. cbn [x y]. repeat split.
Qed.

End Scene.

(** A canvas of four lit pixels, three in the top row and one in the last. *)
Definition demoData : list Z :=
  ([255; 0; 0; 255; 200; 0; 0; 255; 129; 0; 0; 255; 128; 255; 255; 255]
   ++ repeat 0 (4 * (5 * 1999)) ++ [130; 0; 0; 0])%Z.

Definition demoLogo : Logo :=
  Eval vm_compute in
    createTextVoxels (fun n => SkyPodVoxels.ofZ (Z.of_N n) / 8) (fun _ => Some demoData)
      "GAFFER" (-6) matTeal 0.9 0 empty.

Example text_demo :
  ((fun m => (x (position m), y (position m), phase (userData m))) <$> voxels demoLogo,
   randoms demoLogo)
  = ([(-54.000000000000007, 24.000000000000004, 0);
      (-53.460000000000008, 24.000000000000004, 0.78539816339744828);
      (-52.920000000000009, 24.000000000000004, 1.5707963267948966);
      (53.460000000000008, -5.4000000000000004, 2.3561944901923448)], 4%N).
Proof. vm_compute. reflexivity. Qed.

End GafferLogo.

(** * The animation loop of the sky pod scene *)

Module SkyPod.

Local Open Scope float_scope.
Set Warnings "-inexact-float".

Record Vector3 := vec3 { x : float; y : float; z : float }.

Definition add (a b : Vector3) : Vector3 := vec3 (x a + x b) (y a + y b) (z a + z b).
Definition sub (a b : Vector3) : Vector3 := vec3 (x a - x b) (y a - y b) (z a - z b).
Definition multiplyScalar (a : Vector3) (k : float) : Vector3 := vec3 (x a * k) (y a * k) (z a * k).

Definition distanceTo (a b : Vector3) : float :=
  let dx := x a - x b in
  let dy := y a - y b in
  let dz := z a - z b in
  sqrt (dx * dx + dy * dy + dz * dz).

(** What a mesh of the loop is made of. *)
Inductive MeshKind := bulletMesh | splashMesh | debrisMesh.

(** A [THREE.Mesh] created by [spawnBullet] or [spawnParticle]: [id] stands
    for the identity of the object, which the scene graph refers to. *)
Record Mesh := {
  id : nat;
  kind : MeshKind;
  position : Vector3;
  rotation_y : float;
  scale : float
}.

(** An element of [bullets] or of [particles]:
    [{mesh: THREE.Mesh, velocity: THREE.Vector3, life: number}]. *)
Record Body := { mesh : Mesh; velocity : Vector3; life : Z }.

Record BoatState := {
  boat_x : float; boat_z : float; speed : float;
  health : float; isSinking : bool; sinkTimer : float
}.

(** A group: its position and its Euler angles. *)
Record Object3D := { at_ : Vector3; rotation : Vector3 }.

(** The closure of the effect, as far as [animate] and the cleanup go: the
    children of the scene that are bullets or particles, the counter that
    names new meshes, the two arrays, the boat, the groups, the time of the
    last shot, the animation frame requested and the frames pending in the
    browser, the renderer, and the counters of renders and random draws. *)
Record Scene := mkScene {
  children : list nat;
  nextMesh : nat;
  bullets : list Body;
  particles : list Body;
  boatState : BoatState;
  boatGroup : Object3D;
  podGroup : Object3D;
  minigunRotationY : float;
  lastFireTime : float;
  requestRef : option nat;
  frames : list nat;
  nextFrame : nat;
  rendererDisposed : bool;
  canvasAttached : bool;
  resizeListener : bool;
  rendered : nat;
  randoms : N
}.
Definition set_children (v : list nat) (s : Scene) : Scene :=
  {| children := v; nextMesh := nextMesh s; bullets := bullets s; particles := particles s;
     boatState := boatState s; boatGroup := boatGroup s; podGroup := podGroup s;
     minigunRotationY := minigunRotationY s; lastFireTime := lastFireTime s;
     requestRef := requestRef s; frames := frames s; nextFrame := nextFrame s;
     rendererDisposed := rendererDisposed s; canvasAttached := canvasAttached s;
     resizeListener := resizeListener s; rendered := rendered s; randoms := randoms s |}.
Definition set_nextMesh (v : nat) (s : Scene) : Scene :=
  {| children := children s; nextMesh := v; bullets := bullets s; particles := particles s;
     boatState := boatState s; boatGroup := boatGroup s; podGroup := podGroup s;
     minigunRotationY := minigunRotationY s; lastFireTime := lastFireTime s;
     requestRef := requestRef s; frames := frames s; nextFrame := nextFrame s;
     rendererDisposed := rendererDisposed s; canvasAttached := canvasAttached s;
     resizeListener := resizeListener s; rendered := rendered s; randoms := randoms s |}.
Definition set_bullets (v : list Body) (s : Scene) : Scene :=
  {| children := children s; nextMesh := nextMesh s; bullets := v;
     particles := particles s; boatState := boatState s; boatGroup := boatGroup s;
     podGroup := podGroup s; minigunRotationY := minigunRotationY s;
     lastFireTime := lastFireTime s; requestRef := requestRef s; frames := frames s;
     nextFrame := nextFrame s; rendererDisposed := rendererDisposed s;
     canvasAttached := canvasAttached s; resizeListener := resizeListener s;
     rendered := rendered s; randoms := randoms s |}.
Definition set_particles (v : list Body) (s : Scene) : Scene :=
  {| children := children s; nextMesh := nextMesh s; bullets := bullets s; particles := v;
     boatState := boatState s; boatGroup := boatGroup s; podGroup := podGroup s;
     minigunRotationY := minigunRotationY s; lastFireTime := lastFireTime s;
     requestRef := requestRef s; frames := frames s; nextFrame := nextFrame s;
     rendererDisposed := rendererDisposed s; canvasAttached := canvasAttached s;
     resizeListener := resizeListener s; rendered := rendered s; randoms := randoms s |}.
Definition set_boatState (v : BoatState) (s : Scene) : Scene :=
  {| children := children s; nextMesh := nextMesh s; bullets := bullets s;
     particles := particles s; boatState := v; boatGroup := boatGroup s;
     podGroup := podGroup s; minigunRotationY := minigunRotationY s;
     lastFireTime := lastFireTime s; requestRef := requestRef s; frames := frames s;
     nextFrame := nextFrame s; rendererDisposed := rendererDisposed s;
     canvasAttached := canvasAttached s; resizeListener := resizeListener s;
     rendered := rendered s; randoms := randoms s |}.
Definition set_boatGroup (v : Object3D) (s : Scene) : Scene :=
  {| children := children s; nextMesh := nextMesh s; bullets := bullets s;
     particles := particles s; boatState := boatState s; boatGroup := v;
     podGroup := podGroup s; minigunRotationY := minigunRotationY s;
     lastFireTime := lastFireTime s; requestRef := requestRef s; frames := frames s;
     nextFrame := nextFrame s; rendererDisposed := rendererDisposed s;
     canvasAttached := canvasAttached s; resizeListener := resizeListener s;
     rendered := rendered s; randoms := randoms s |}.
Definition set_podGroup (v : Object3D) (s : Scene) : Scene :=
  {| children := children s; nextMesh := nextMesh s; bullets := bullets s;
     particles := particles s; boatState := boatState s; boatGroup := boatGroup s;
     podGroup := v; minigunRotationY := minigunRotationY s; lastFireTime := lastFireTime s;
     requestRef := requestRef s; frames := frames s; nextFrame := nextFrame s;
     rendererDisposed := rendererDisposed s; canvasAttached := canvasAttached s;
     resizeListener := resizeListener s; rendered := rendered s; randoms := randoms s |}.
Definition set_minigunRotationY (v : float) (s : Scene) : Scene :=
  {| children := children s; nextMesh := nextMesh s; bullets := bullets s;
     particles := particles s; boatState := boatState s; boatGroup := boatGroup s;
     podGroup := podGroup s; minigunRotationY := v; lastFireTime := lastFireTime s;
     requestRef := requestRef s; frames := frames s; nextFrame := nextFrame s;
     rendererDisposed := rendererDisposed s; canvasAttached := canvasAttached s;
     resizeListener := resizeListener s; rendered := rendered s; randoms := randoms s |}.
Definition set_lastFireTime (v : float) (s : Scene) : Scene :=
  {| children := children s; nextMesh := nextMesh s; bullets := bullets s;
     particles := particles s; boatState := boatState s; boatGroup := boatGroup s;
     podGroup := podGroup s; minigunRotationY := minigunRotationY s; lastFireTime := v;
     requestRef := requestRef s; frames := frames s; nextFrame := nextFrame s;
     rendererDisposed := rendererDisposed s; canvasAttached := canvasAttached s;
     resizeListener := resizeListener s; rendered := rendered s; randoms := randoms s |}.
Definition set_requestRef (v : option nat) (s : Scene) : Scene :=
  {| children := children s; nextMesh := nextMesh s; bullets := bullets s;
     particles := particles s; boatState := boatState s; boatGroup := boatGroup s;
     podGroup := podGroup s; minigunRotationY := minigunRotationY s;
     lastFireTime := lastFireTime s; requestRef := v; frames := frames s;
     nextFrame := nextFrame s; rendererDisposed := rendererDisposed s;
     canvasAttached := canvasAttached s; resizeListener := resizeListener s;
     rendered := rendered s; randoms := randoms s |}.
Definition set_frames (v : list nat) (s : Scene) : Scene :=
  {| children := children s; nextMesh := nextMesh s; bullets := bullets s;
     particles := particles s; boatState := boatState s; boatGroup := boatGroup s;
     podGroup := podGroup s; minigunRotationY := minigunRotationY s;
     lastFireTime := lastFireTime s; requestRef := requestRef s; frames := v;
     nextFrame := nextFrame s; rendererDisposed := rendererDisposed s;
     canvasAttached := canvasAttached s; resizeListener := resizeListener s;
     rendered := rendered s; randoms := randoms s |}.
Definition set_nextFrame (v : nat) (s : Scene) : Scene :=
  {| children := children s; nextMesh := nextMesh s; bullets := bullets s;
     particles := particles s; boatState := boatState s; boatGroup := boatGroup s;
     podGroup := podGroup s; minigunRotationY := minigunRotationY s;
     lastFireTime := lastFireTime s; requestRef := requestRef s; frames := frames s;
     nextFrame := v; rendererDisposed := rendererDisposed s;
     canvasAttached := canvasAttached s; resizeListener := resizeListener s;
     rendered := rendered s; randoms := randoms s |}.
Definition set_rendererDisposed (v : bool) (s : Scene) : Scene :=
  {| children := children s; nextMesh := nextMesh s; bullets := bullets s;
     particles := particles s; boatState := boatState s; boatGroup := boatGroup s;
     podGroup := podGroup s; minigunRotationY := minigunRotationY s;
     lastFireTime := lastFireTime s; requestRef := requestRef s; frames := frames s;
     nextFrame := nextFrame s; rendererDisposed := v; canvasAttached := canvasAttached s;
     resizeListener := resizeListener s; rendered := rendered s; randoms := randoms s |}.
Definition set_canvasAttached (v : bool) (s : Scene) : Scene :=
  {| children := children s; nextMesh := nextMesh s; bullets := bullets s;
     particles := particles s; boatState := boatState s; boatGroup := boatGroup s;
     podGroup := podGroup s; minigunRotationY := minigunRotationY s;
     lastFireTime := lastFireTime s; requestRef := requestRef s; frames := frames s;
     nextFrame := nextFrame s; rendererDisposed := rendererDisposed s; canvasAttached := v;
     resizeListener := resizeListener s; rendered := rendered s; randoms := randoms s |}.
Definition set_resizeListener (v : bool) (s : Scene) : Scene :=
  {| children := children s; nextMesh := nextMesh s; bullets := bullets s;
     particles := particles s; boatState := boatState s; boatGroup := boatGroup s;
     podGroup := podGroup s; minigunRotationY := minigunRotationY s;
     lastFireTime := lastFireTime s; requestRef := requestRef s; frames := frames s;
     nextFrame := nextFrame s; rendererDisposed := rendererDisposed s;
     canvasAttached := canvasAttached s; resizeListener := v; rendered := rendered s;
     randoms := randoms s |}.
Definition set_rendered (v : nat) (s : Scene) : Scene :=
  {| children := children s; nextMesh := nextMesh s; bullets := bullets s;
     particles := particles s; boatState := boatState s; boatGroup := boatGroup s;
     podGroup := podGroup s; minigunRotationY := minigunRotationY s;
     lastFireTime := lastFireTime s; requestRef := requestRef s; frames := frames s;
     nextFrame := nextFrame s; rendererDisposed := rendererDisposed s;
     canvasAttached := canvasAttached s; resizeListener := resizeListener s; rendered := v;
     randoms := randoms s |}.
Definition set_randoms (v : N) (s : Scene) : Scene :=
  {| children := children s; nextMesh := nextMesh s; bullets := bullets s;
     particles := particles s; boatState := boatState s; boatGroup := boatGroup s;
     podGroup := podGroup s; minigunRotationY := minigunRotationY s;
     lastFireTime := lastFireTime s; requestRef := requestRef s; frames := frames s;
     nextFrame := nextFrame s; rendererDisposed := rendererDisposed s;
     canvasAttached := canvasAttached s; resizeListener := resizeListener s;
     rendered := rendered s; randoms := v |}.

Definition riverYBase : float := -8.
Definition maxHealth : float := 100.
Definition podHeight : float := 5.
Definition railY : float := 22.
Definition Math_PI : float := 3.141592653589793.

(** [scene.add(mesh)] and [scene.remove(mesh)]. *)
Definition scene_add (m : Mesh) (s : Scene) : Scene :=
  set_children (children s ++ [id m]) s.

Definition scene_remove (m : Mesh) (s : Scene) : Scene :=
  set_children (filter (fun i => i <> id m) (children s)) s.

(** [new THREE.Mesh(...)]: a mesh nobody else refers to. *)
Definition newMesh (k : MeshKind) (p : Vector3) (s : Scene) : Mesh * Scene :=
  ({| id := nextMesh s; kind := k; position := p; rotation_y := 0; scale := 1 |},
   set_nextMesh (S (nextMesh s)) s).

Definition spawnBullet (startPos direction : Vector3) (s : Scene) : Scene :=
  let '(m, s) := newMesh bulletMesh startPos s in
  let s := scene_add m s in
  set_bullets (bullets s ++ [{| mesh := m; velocity := multiplyScalar direction 2.0;
                                life := 60 |}]) s.

Section Animate.

Variable Math_random : N -> float.
Variable Math_sin Math_cos : float -> float.
Variable Math_atan2 : float -> float -> float.

(** Three computations of three.js on the pod and its gun:
    [minigunGroup.getWorldPosition], the muzzle
    [new Vector3(2.5, -0.5, 0).applyEuler(...).add(...).applyMatrix4(...)],
    and [Vector3.normalize]. *)
Variable gunWorldPosition : Object3D -> Vector3.
Variable muzzle : float -> Object3D -> Vector3.
Variable normalize : Vector3 -> Vector3.

Definition random (s : Scene) : float * Scene :=
  (Math_random (randoms s), set_randoms (N.succ (randoms s)) s).

Inductive ParticleType := splash | debris.

Definition spawnParticle (pos : Vector3) (type : ParticleType) (s : Scene) : Scene :=
  let '(m, s) := newMesh (match type with splash => splashMesh | debris => debrisMesh end) pos s in
  let '(r, s) := random s in
  let m := {| id := id m; kind := kind m; position := position m;
              rotation_y := r * Math_PI; scale := scale m |} in
  let '(r, s) := random s in
  let m := {| id := id m; kind := kind m; position := position m;
              rotation_y := rotation_y m; scale := r * 0.5 + 0.5 |} in
  let s := scene_add m s in
  let '(r1, s) := random s in
  let '(r2, s) := random s in
  let '(r3, s) := random s in
  let vel := vec3 ((r1 - 0.5) * 0.5) (r2 * 0.5) ((r3 - 0.5) * 0.5) in
  set_particles (particles s ++ [{| mesh := m; velocity := vel;
                                    life := match type with splash => 15 | debris => 30 end |}]) s.

(** The pod swings along the rail. *)
Definition movePod (time : float) (s : Scene) : Scene :=
  let speed := 0.5 in
  let range := 100 in
  let currentX := Math_sin (time * speed) * range in
  set_podGroup
    {| at_ := vec3 currentX (railY - podHeight - 1.5 + Math_sin (time * 2) * 0.1)
                   (z (at_ (podGroup s)));
       rotation := vec3 (x (rotation (podGroup s))) (y (rotation (podGroup s)))
                        (- Math_cos (time * speed) * 0.05) |} s.

(** The boat sails, or sinks for as long as [sinkTimer] says. *)
Definition moveBoat (time : float) (s : Scene) : Scene :=
  let b := boatState s in
  if negb (isSinking b) then
    let bx := boat_x b + speed b in
    let wrapped := 150 <? bx in
    let bx := if wrapped then -150 else bx in
    let hp := if wrapped then maxHealth else health b in
    let py := riverYBase + 1 in
    let py := py + Math_sin (time * 3 + bx * 0.1) * 0.3 in
    let s := set_boatGroup
               {| at_ := vec3 bx py (boat_z b);
                  rotation := vec3 (Math_sin (time * 1.5) * 0.05) 0 (Math_sin (time * 2) * 0.05) |} s in
    let sinking := hp <=? 0 in
    set_boatState {| boat_x := bx; boat_z := boat_z b; speed := speed b; health := hp;
                     isSinking := sinking;
                     sinkTimer := if sinking then 0 else sinkTimer b |} s
  else
    let timer := sinkTimer b + 0.02 in
    let g := boatGroup s in
    let rot := vec3 (x (rotation g) + 0.01) (y (rotation g)) (z (rotation g) + 0.02) in
    let pos := vec3 (x (at_ g)) (y (at_ g) - 0.1) (z (at_ g)) in
    if 3 <? timer then
      let s := set_boatGroup {| at_ := pos; rotation := vec3 0 0 0 |} s in
      set_boatState {| boat_x := -150; boat_z := boat_z b; speed := speed b; health := maxHealth;
                       isSinking := false; sinkTimer := timer |} s
    else
      let s := set_boatGroup {| at_ := pos; rotation := rot |} s in
      set_boatState {| boat_x := boat_x b; boat_z := boat_z b; speed := speed b;
                       health := health b; isSinking := true; sinkTimer := timer |} s.

(** Aiming and firing. *)
Definition aimAndFire (time : float) (s : Scene) : Scene :=
  let boatWorldPos := at_ (boatGroup s) in
  let dist := distanceTo (at_ (podGroup s)) boatWorldPos in
  if negb (isSinking (boatState s)) && (dist <? 100) then
    let targetPos := vec3 (x boatWorldPos) (y boatWorldPos + 2) (z boatWorldPos) in
    let gunWorldPos := gunWorldPosition (podGroup s) in
    let dx := x targetPos - x gunWorldPos in
    let dz := z targetPos - z gunWorldPos in
    let s := set_minigunRotationY (Math_atan2 (- dz) dx) s in
    if 0.08 <? time - lastFireTime s then
      let s := set_lastFireTime time s in
      let offset := muzzle (minigunRotationY s) (podGroup s) in
      let aimDir := normalize (sub targetPos offset) in
      let '(r, s) := random s in
      let aimDir := vec3 (x aimDir + (r - 0.5) * 0.1) (y aimDir) (z aimDir) in
      let '(r, s) := random s in
      let aimDir := vec3 (x aimDir) (y aimDir + (r - 0.5) * 0.1) (z aimDir) in
      spawnBullet offset aimDir s
    else s
  else
    let velocityX := Math_cos (time * 0.5) in
    let travelDir := if 0 <? velocityX then 0 else Math_PI in
    set_minigunRotationY (minigunRotationY s + (travelDir - minigunRotationY s) * 0.1) s.

(** The first two statements on a bullet: it moves and it ages. *)
Definition moved (b : Body) : Body :=
  {| mesh := {| id := id (mesh b); kind := kind (mesh b);
                position := add (position (mesh b)) (velocity b);
                rotation_y := rotation_y (mesh b); scale := scale (mesh b) |};
     velocity := velocity b; life := (life b - 1)%Z |}.

(** The hit box of the boat, around [boatGroup.position]. *)
Definition inHitBox (boat bPos : Vector3) : bool :=
  let localPos := sub bPos boat in
  (abs (x localPos) <? 5) && (abs (z localPos) <? 3) && (0 <? y localPos) && (y localPos <? 8).

(** The rest of the loop body: what becomes of the scene, and whether the
    bullet stays in the array. *)
Definition settle (b : Body) (s : Scene) : bool * Scene :=
  let bPos := position (mesh b) in
  if negb (isSinking (boatState s)) && inHitBox (at_ (boatGroup s)) bPos then
    let s := spawnParticle bPos debris s in
    let bs := boatState s in
    let s := set_boatState {| boat_x := boat_x bs; boat_z := boat_z bs; speed := speed bs;
                              health := health bs - 5; isSinking := isSinking bs;
                              sinkTimer := sinkTimer bs |} s in
    (false, scene_remove (mesh b) s)
  else if y bPos <? riverYBase then
    let s := spawnParticle bPos splash s in
    (false, scene_remove (mesh b) s)
  else if (life b <=? 0)%Z then (false, scene_remove (mesh b) s)
  else (true, s).

(** [for (let i = bullets.length - 1; i >= 0; i--)]: the loop is entered
    with [i] one above the index it handles next. *)
Fixpoint bulletLoop (i : nat) (s : Scene) : Scene :=
  match i with
  | O => s
  | S i =>
    match bullets s !! i with
    | None => s
    | Some b =>
      let b := moved b in
      let s := set_bullets (<[i := b]> (bullets s)) s in
      let '(stays, s) := settle b s in
      let s := if stays then s else set_bullets (delete i (bullets s)) s in
      bulletLoop i s
    end
  end.

(** The same loop over the particles. *)
Definition faded (p : Body) : Body :=
  {| mesh := {| id := id (mesh p); kind := kind (mesh p);
                position := add (position (mesh p)) (velocity p);
                rotation_y := rotation_y (mesh p); scale := scale (mesh p) * 0.9 |};
     velocity := vec3 (x (velocity p)) (y (velocity p) - 0.02) (z (velocity p));
     life := (life p - 1)%Z |}.

Fixpoint particleLoop (i : nat) (s : Scene) : Scene :=
  match i with
  | O => s
  | S i =>
    match particles s !! i with
    | None => s
    | Some p =>
      let p := faded p in
      let s := set_particles (<[i := p]> (particles s)) s in
      let s := if (life p <=? 0)%Z
               then set_particles (delete i (particles s)) (scene_remove (mesh p) s)
               else s in
      particleLoop i s
    end
  end.

(** [requestRef.current = requestAnimationFrame(animate)]: the frame that is
    running is no longer pending, the next one is. *)
Definition requestAnimationFrame (s : Scene) : Scene :=
  let s := match requestRef s with
           | Some f => set_frames (filter (fun i => i <> f) (frames s)) s
           | None => s
           end in
  let f := nextFrame s in
  set_requestRef (Some f) (set_nextFrame (S f) (set_frames (frames s ++ [f]) s)).

(** The two physics loops, each over the whole of its array, and
    [controls.update(); renderer.render(scene, camera)]. *)
Definition bulletPhysics (s : Scene) : Scene := bulletLoop (length (bullets s)) s.

Definition particlePhysics (s : Scene) : Scene := particleLoop (length (particles s)) s.

Definition render (s : Scene) : Scene := set_rendered (S (rendered s)) s.

(** One call of [animate]; [time] is [clock.getElapsedTime()].  The river
    and the speedometer are redrawn from [time] alone and are left out. *)
Definition animate (time : float) (s : Scene) : Scene :=
  let s := requestAnimationFrame s in
  let s := movePod time s in
  let s := moveBoat time s in
  let s := aimAndFire time s in
  let s := bulletPhysics s in
  let s := particlePhysics s in
  render s.

(** The function the effect returns. *)
Definition cleanup (mountRef : bool) (s : Scene) : Scene :=
  let s := set_resizeListener false s in
  let s := match requestRef s with
           | Some (S f) => set_frames (filter (fun i => i <> S f) (frames s)) s
           | _ => s
           end in
  let s := set_rendererDisposed true s in
  let s := if mountRef then set_canvasAttached false s else s in
  let s := fold_left (fun s b => scene_remove (mesh b) s) (bullets s) s in
  fold_left (fun s p => scene_remove (mesh p) s) (particles s) s.

(** The scene when the effect has built it, before its first [animate()]. *)
Definition built : Scene := {|
  children := []; nextMesh := 0%nat; bullets := []; particles := [];
  boatState := {| boat_x := -150; boat_z := 20; speed := 0.15; health := 100;
                  isSinking := false; sinkTimer := 0 |};
  boatGroup := {| at_ := vec3 0 0 0; rotation := vec3 0 0 0 |};
  podGroup := {| at_ := vec3 0 15 0; rotation := vec3 0 0 0 |};
  minigunRotationY := 0; lastFireTime := 0;
  requestRef := None; frames := []; nextFrame := 1%nat;
  rendererDisposed := false; canvasAttached := true; resizeListener := true;
  rendered := 0%nat; randoms := 0%N
|}.

(** The frames shown, each with the time it found on the clock. *)
Definition play (times : list float) (s : Scene) : Scene :=
  fold_left (fun s t => animate t s) times s.

(** The scene after the effect has run, which calls [animate()] once, and
    after any number of frames since. *)
Definition mounted (s : Scene) : Prop := exists t times, s = play (t :: times) built.

(** ** Facts about the bullets *)

(** The three ways a bullet goes, in the order [animate] tests them. *)
Definition struck (s : Scene) (b : Body) : bool :=
  negb (isSinking (boatState s)) && inHitBox (at_ (boatGroup s)) (position (mesh b)).

Definition sunk (b : Body) : bool := y (position (mesh b)) <? riverYBase.

Definition spent (b : Body) : bool := (life b <=? 0)%Z.

Definition gone (s : Scene) (b : Body) : bool := struck s b || sunk b || spent b.

Ltac settle_cases s b :=
  unfold settle, gone, struck, sunk, spent;
  destruct (negb (isSinking (boatState s)) && inHitBox (at_ (boatGroup s)) (position (mesh b)));
  [|destruct (y (position (mesh b)) <? riverYBase); [|destruct (life b <=? 0)%Z]].

Lemma settle_stays b s : fst (settle b s) = negb (gone s b).
Proof. settle_cases s b; reflexivity. Qed.

(** What [settle] leaves alone. *)
Lemma settle_keeps b s :
  bullets (snd (settle b s)) = bullets s
  /\ isSinking (boatState (snd (settle b s))) = isSinking (boatState s)
  /\ boatGroup (snd (settle b s)) = boatGroup s.
Proof. settle_cases s b; repeat split; reflexivity. Qed.

Lemma settle_set_bullets l b s :
  settle b (set_bullets l s) = (fst (settle b s), set_bullets l (snd (settle b s))).
Proof.
  unfold settle. cbn [boatState boatGroup set_bullets].
  destruct (negb (isSinking (boatState s)) && inHitBox (at_ (boatGroup s)) (position (mesh b)));
    [|destruct (y (position (mesh b)) <? riverYBase); [|destruct (life b <=? 0)%Z]];
    reflexivity.
Qed.

(** New meshes get new names; of the old ones, the scene only loses some. *)
Lemma settle_meshes b s :
  (nextMesh s <= nextMesh (snd (settle b s)))%nat
  /\ (forall i, (i < nextMesh s)%nat -> i ∈ children (snd (settle b s)) -> i ∈ children s)
  /\ (gone s b = true -> (id (mesh b) < nextMesh s)%nat ->
      id (mesh b) ∉ children (snd (settle b s))).
Proof.
  settle_cases s b; cbn [snd orb]; unfold spawnParticle, newMesh, random, scene_add, scene_remove;
    cbn [children nextMesh set_children set_nextMesh set_randoms set_particles set_boatState
         id mesh]; (split; [lia|split]).
  all: try (intros i Hi Hin; apply list_elem_of_filter in Hin as [_ Hin];
            try (apply elem_of_app in Hin as [Hin|Hin];
                 [exact Hin | apply list_elem_of_singleton in Hin; lia]); exact Hin).
  all: try (intros _ Hlt Hin; apply list_elem_of_filter in Hin as [Hne _]; now apply Hne).
  - intros i _ Hin. exact Hin.
  - discriminate.
Qed.

(** The loop as a function of the array: the bullets are taken from the
    last to the first; each one moves, ages, and is settled. *)
Fixpoint sweep (l : list Body) (s : Scene) : list Body * Scene :=
  match l with
  | [] => ([], s)
  | b :: l =>
    let '(kept, s) := sweep l s in
    let '(stays, s) := settle (moved b) s in
    (if stays then moved b :: kept else kept, s)
  end.

Lemma sweep_app l1 : forall l2 s,
  sweep (l1 ++ l2) s =
  let '(k2, s2) := sweep l2 s in
  let '(k1, s1) := sweep l1 s2 in
  (k1 ++ k2, s1).
Proof.
  induction l1 as [|b l1 IH]; intros l2 s; cbn [sweep app].
  - now destruct (sweep l2 s).
  - rewrite IH. destruct (sweep l2 s) as [k2 s2], (sweep l1 s2) as [k1 s1].
    destruct (settle (moved b) s1) as [[] s3]; reflexivity.
Qed.

Lemma sweep_set_bullets x l : forall s,
  sweep l (set_bullets x s) = (fst (sweep l s), set_bullets x (snd (sweep l s))).
Proof.
  induction l as [|b l IH]; intros s; cbn [sweep]; [reflexivity|].
  rewrite IH. destruct (sweep l s) as [kept s1]. cbn [fst snd].
  rewrite settle_set_bullets. destruct (settle (moved b) s1) as [[] s2]; reflexivity.
Qed.

Lemma bulletLoop_sweep pre : forall tail s,
  bullets s = pre ++ tail ->
  bulletLoop (length pre) s
  = set_bullets (fst (sweep pre s) ++ tail) (snd (sweep pre s)).
Proof.
  induction pre as [|b pre IH] using rev_ind; intros tail s Hs.
  - cbn [length bulletLoop sweep fst snd app] in *. rewrite <- Hs. now destruct s.
  - rewrite length_app, Nat.add_1_r. cbn [bulletLoop].
    rewrite <- app_assoc in Hs. cbn [app] in Hs.
    assert (Hat : bullets s !! length pre = Some b).
    { rewrite Hs. now apply list_lookup_middle. }
    rewrite Hat.
    assert (Hput : <[length pre := moved b]> (bullets s) = pre ++ moved b :: tail).
    { rewrite Hs. rewrite <- (Nat.add_0_r (length pre)) at 1. now rewrite insert_app_r. }
    rewrite Hput, settle_set_bullets.
    rewrite sweep_app. cbn [sweep].
    destruct (settle (moved b) s) as [stays s1] eqn:Hsettle. cbn [fst snd].
    assert (Hcut : delete (length pre) (pre ++ moved b :: tail) = pre ++ tail).
    { apply delete_middle. }
    destruct stays.
    + rewrite (IH (moved b :: tail)) by reflexivity.
      rewrite !sweep_set_bullets. cbn [fst snd]. destruct (sweep pre s1) as [k1 s2].
      cbn [fst snd]. rewrite <- app_assoc. reflexivity.
    + cbn [bullets set_bullets]. rewrite Hcut.
      rewrite (IH tail) by reflexivity.
      rewrite !sweep_set_bullets. cbn [fst snd]. destruct (sweep pre s1) as [k1 s2].
      cbn [fst snd]. rewrite app_nil_r. reflexivity.
Qed.

(** The boat as the bullets see it does not change while they are swept. *)
Lemma gone_settle b b' s : gone (snd (settle b s)) b' = gone s b'.
Proof.
  destruct (settle_keeps b s) as (_ & H1 & H2). unfold gone, struck. now rewrite H1, H2.
Qed.

Lemma sweep_keeps l : forall s,
  bullets (snd (sweep l s)) = bullets s
  /\ (forall b, gone (snd (sweep l s)) b = gone s b)
  /\ (nextMesh s <= nextMesh (snd (sweep l s)))%nat
  /\ (forall i, (i < nextMesh s)%nat -> i ∈ children (snd (sweep l s)) -> i ∈ children s).
Proof.
  induction l as [|b l IH]; intros s; cbn [sweep]; [repeat split; auto|].
  destruct (IH s) as (Hb & Hg & Hn & Hc). destruct (sweep l s) as [kept s1]. cbn [snd] in *.
  destruct (settle_keeps (moved b) s1) as (Hb' & _ & _).
  destruct (settle_meshes (moved b) s1) as (Hn' & Hc' & _).
  assert (Hg' : forall b0, gone (snd (settle (moved b) s1)) b0 = gone s1 b0)
    by (intros b0; apply gone_settle).
  destruct (settle (moved b) s1) as [stays s2]. cbn [snd] in *.
  assert (Hres : bullets s2 = bullets s /\ (forall b0, gone s2 b0 = gone s b0)
                 /\ (nextMesh s <= nextMesh s2)%nat
                 /\ (forall i, (i < nextMesh s)%nat -> i ∈ children s2 -> i ∈ children s)).
  { split; [congruence|]. split; [intros b0; now rewrite Hg', Hg|]. split; [lia|].
    intros i Hi Hin. apply Hc; [exact Hi|]. apply Hc'; [lia | exact Hin]. }
  destruct stays; exact Hres.
Qed.

(** The bullets that stay are the moved bullets that are not gone, in the
    order of the array; those that go have left the scene. *)
Lemma sweep_kept l : forall s,
  fst (sweep l s) = filter (fun b => gone s b = false) (moved <$> l)
  /\ (forall b, b ∈ l -> gone s (moved b) = true -> (id (mesh b) < nextMesh s)%nat ->
      id (mesh b) ∉ children (snd (sweep l s))).
Proof.
  induction l as [|b l IH]; intros s; cbn [sweep].
  - split; [reflexivity|]. intros b Hb. now apply elem_of_nil in Hb.
  - destruct (IH s) as (Hk & Hout). destruct (sweep_keeps l s) as (_ & Hg & Hn & _).
    destruct (sweep l s) as [kept s1]. cbn [fst snd] in *.
    pose proof (settle_stays (moved b) s1) as Hst.
    destruct (settle_meshes (moved b) s1) as (_ & Hc' & Hrem).
    destruct (settle (moved b) s1) as [stays s2]. cbn [fst snd] in *.
    rewrite Hg in Hst. rewrite Hg in Hrem.
    split.
    + rewrite fmap_cons, filter_cons, Hk.
      destruct (gone s (moved b)); cbn [negb] in Hst; subst stays.
      * rewrite decide_False by discriminate. reflexivity.
      * rewrite decide_True by reflexivity. reflexivity.
    + assert (Hres : forall b0, b0 ∈ b :: l -> gone s (moved b0) = true ->
                       (id (mesh b0) < nextMesh s)%nat -> id (mesh b0) ∉ children s2).
      { intros b0 Hb0 Hgone Hid. apply elem_of_cons in Hb0 as [->|Hb0].
        - apply Hrem; [exact Hgone | cbn; lia].
        - intros Hin. apply (Hout b0 Hb0 Hgone Hid). apply Hc'; [lia | exact Hin]. }
      destruct stays; exact Hres.
Qed.

(** The loop of [animate] over the whole array. *)
Lemma bulletLoop_all s :
  bulletLoop (length (bullets s)) s
  = set_bullets (fst (sweep (bullets s) s)) (snd (sweep (bullets s) s)).
Proof.
  rewrite (bulletLoop_sweep (bullets s) [] s) by now rewrite app_nil_r.
  now rewrite app_nil_r.
Qed.

Lemma bulletLoop_spec s :
  let s' := bulletLoop (length (bullets s)) s in
  bullets s' = filter (fun b => gone s b = false) (moved <$> bullets s)
  /\ (forall b, b ∈ bullets s -> gone s (moved b) = true -> (id (mesh b) < nextMesh s)%nat ->
      id (mesh b) ∉ children s')
  /\ (nextMesh s <= nextMesh s')%nat.
Proof.
  cbn zeta. rewrite bulletLoop_all. cbn [bullets children nextMesh set_bullets].
  destruct (sweep_kept (bullets s) s) as [Hk Hout].
  destruct (sweep_keeps (bullets s) s) as (_ & _ & Hn & _).
  auto.
Qed.

(** *** Frames *)

Lemma particleLoop_keeps i : forall s,
  bullets (particleLoop i s) = bullets s /\ nextMesh (particleLoop i s) = nextMesh s.
Proof.
  induction i as [|i IH]; intros s; cbn [particleLoop]; [now split|].
  destruct (particles s !! i) as [p|]; [|now split].
  destruct (life (faded p) <=? 0)%Z; rewrite !(proj1 (IH _)), !(proj2 (IH _)); now split.
Qed.

(** The bullet [spawnBullet] makes of a new mesh. *)
Definition fresh (n : nat) (startPos direction : Vector3) : Body :=
  {| mesh := {| id := n; kind := bulletMesh; position := startPos; rotation_y := 0; scale := 1 |};
     velocity := multiplyScalar direction 2.0; life := 60 |}.


(** Up to the bullet loop, a frame leaves the array alone or adds one
    bullet at its end. *)
Definition beforeLoop (time : float) (s : Scene) : Scene :=
  aimAndFire time (moveBoat time (movePod time (requestAnimationFrame s))).

Lemma moveBoat_bullets t s :
  bullets (moveBoat t s) = bullets s /\ nextMesh (moveBoat t s) = nextMesh s.
Proof.
  unfold moveBoat. destruct (negb (isSinking (boatState s))); [now split|].
  destruct (3 <? sinkTimer (boatState s) + 0.02); now split.
Qed.

Lemma requestAnimationFrame_bullets s :
  bullets (requestAnimationFrame s) = bullets s
  /\ nextMesh (requestAnimationFrame s) = nextMesh s.
Proof. unfold requestAnimationFrame. destruct (requestRef s); now split. Qed.

Lemma aimAndFire_bullets t s :
  (bullets (aimAndFire t s) = bullets s /\ nextMesh (aimAndFire t s) = nextMesh s)
  \/ (exists p d, bullets (aimAndFire t s) = bullets s ++ [fresh (nextMesh s) p d]
                  /\ nextMesh (aimAndFire t s) = S (nextMesh s)).
Proof.
  unfold aimAndFire. destruct (negb (isSinking (boatState s)) && _); [|now left].
  cbn [lastFireTime set_minigunRotationY].
  destruct (0.08 <? t - lastFireTime s) eqn:Hfire; [|now left].
  right. unfold random. do 2 eexists. split; reflexivity.
Qed.

Lemma beforeLoop_bullets t s :
  (bullets (beforeLoop t s) = bullets s /\ nextMesh (beforeLoop t s) = nextMesh s)
  \/ (exists p d, bullets (beforeLoop t s) = bullets s ++ [fresh (nextMesh s) p d]
                  /\ nextMesh (beforeLoop t s) = S (nextMesh s)).
Proof.
  unfold beforeLoop.
  set (s3 := moveBoat t (movePod t (requestAnimationFrame s))).
  assert (H3 : bullets s3 = bullets s /\ nextMesh s3 = nextMesh s).
  { unfold s3. destruct (moveBoat_bullets t (movePod t (requestAnimationFrame s))) as [-> ->].
    apply (requestAnimationFrame_bullets s). }
  destruct H3 as [Hb Hn].
  destruct (aimAndFire_bullets t s3) as [[H1 H2] | (p & d & H1 & H2)].
  - left. split; congruence.
  - right. exists p, d. rewrite H1, H2, Hb, Hn. now split.
Qed.

(** The two loops and the render that end a frame. *)
Definition afterLoops (s : Scene) : Scene := render (particlePhysics (bulletPhysics s)).

Lemma animate_split t s : animate t s = afterLoops (beforeLoop t s).
Proof. unfold animate, afterLoops, beforeLoop. cbv zeta. reflexivity. Qed.

Lemma afterLoops_bullets s :
  bullets (afterLoops s) = filter (fun b => gone s b = false) (moved <$> bullets s)
  /\ (nextMesh s <= nextMesh (afterLoops s))%nat.
Proof.
  unfold afterLoops, render, particlePhysics.
  destruct (bulletLoop_spec s) as (Hb & _ & Hn). cbn zeta in Hb, Hn. fold (bulletPhysics s) in Hb, Hn.
  set (s5 := bulletPhysics s) in *.
  destruct (particleLoop_keeps (length (particles s5)) s5) as [Hb' Hn'].
  cbn [bullets nextMesh set_rendered]. rewrite Hb', Hn'. now split.
Qed.

Lemma animate_bullets t s :
  bullets (animate t s)
  = filter (fun b => gone (beforeLoop t s) b = false) (moved <$> bullets (beforeLoop t s))
  /\ (nextMesh (beforeLoop t s) <= nextMesh (animate t s))%nat.
Proof. rewrite animate_split. apply afterLoops_bullets. Qed.









(** A hit costs the boat five points of health. *)
Definition damaged (s : Scene) : Scene :=
  set_boatState {| boat_x := boat_x (boatState s); boat_z := boat_z (boatState s);
                   speed := speed (boatState s); health := health (boatState s) - 5;
                   isSinking := isSinking (boatState s); sinkTimer := sinkTimer (boatState s) |} s.

Lemma settle_cases_spec b s :
  (struck s b = true ->
   settle b s = (false, scene_remove (mesh b) (damaged (spawnParticle (position (mesh b)) debris s))))
  /\ (struck s b = false -> sunk b = true ->
      settle b s = (false, scene_remove (mesh b) (spawnParticle (position (mesh b)) splash s)))
  /\ (struck s b = false -> sunk b = false -> spent b = true ->
      settle b s = (false, scene_remove (mesh b) s))
  /\ (gone s b = false -> settle b s = (true, s)).
Proof.
  unfold gone, struck, sunk, spent, settle, damaged. cbv beta zeta.
  destruct (negb (isSinking (boatState s)) && inHitBox (at_ (boatGroup s)) (position (mesh b)));
    [|destruct (y (position (mesh b)) <? riverYBase); [|destruct (life b <=? 0)%Z]];
    cbn [orb]; (split; [|split; [|split]]); intros; first [discriminate | exact eq_refl].
Qed.



(** *** Teardown *)

(** The animation frame requested and the frames pending. *)
Definition timing (s : Scene) := (requestRef s, frames s, nextFrame s).

Lemma settle_timing b s : timing (snd (settle b s)) = timing s.
Proof.
  unfold settle.
  destruct (negb (isSinking (boatState s)) && inHitBox (at_ (boatGroup s)) (position (mesh b)));
    [|destruct (y (position (mesh b)) <? riverYBase); [|destruct (life b <=? 0)%Z]];
    reflexivity.
Qed.

Lemma sweep_timing l : forall s, timing (snd (sweep l s)) = timing s.
Proof.
  induction l as [|b l IH]; intros s; cbn [sweep]; [reflexivity|].
  specialize (IH s). destruct (sweep l s) as [kept s1]. cbn [snd] in IH.
  pose proof (settle_timing (moved b) s1) as H. destruct (settle (moved b) s1) as [stays s2].
  cbn [snd] in *. congruence.
Qed.

Lemma bulletPhysics_timing s : timing (bulletPhysics s) = timing s.
Proof. unfold bulletPhysics. rewrite bulletLoop_all. apply (sweep_timing (bullets s) s). Qed.

Lemma particleLoop_timing i : forall s, timing (particleLoop i s) = timing s.
Proof.
  induction i as [|i IH]; intros s; cbn [particleLoop]; [reflexivity|].
  destruct (particles s !! i) as [p|]; [|reflexivity].
  destruct (life (faded p) <=? 0)%Z; rewrite IH; reflexivity.
Qed.

Lemma afterLoops_timing s : timing (afterLoops s) = timing s.
Proof.
  unfold afterLoops, render, particlePhysics.
  change (timing (particleLoop (length (particles (bulletPhysics s))) (bulletPhysics s))
          = timing s).
  rewrite particleLoop_timing. apply bulletPhysics_timing.
Qed.

Lemma aimAndFire_timing t s : timing (aimAndFire t s) = timing s.
Proof.
  unfold aimAndFire. destruct (negb (isSinking (boatState s)) && _); [|reflexivity].
  cbn [lastFireTime set_minigunRotationY].
  destruct (0.08 <? t - lastFireTime s); reflexivity.
Qed.

Lemma moveBoat_timing t s : timing (moveBoat t s) = timing s.
Proof.
  unfold moveBoat. destruct (negb (isSinking (boatState s))); [reflexivity|].
  destruct (3 <? sinkTimer (boatState s) + 0.02); reflexivity.
Qed.

Lemma animate_timing t s :
  timing (animate t s) = timing (requestAnimationFrame s).
Proof.
  rewrite animate_split, afterLoops_timing. unfold beforeLoop.
  rewrite aimAndFire_timing, moveBoat_timing. reflexivity.
Qed.

(** Between two frames exactly one animation frame is pending, and
    [requestRef] holds its handle. *)
Definition awaiting (s : Scene) : Prop :=
  exists f, requestRef s = Some (S f) /\ frames s = [S f] /\ nextFrame s = S (S f).

Lemma requestAnimationFrame_awaiting s :
  awaiting s \/ timing s = (None, [], 1%nat) ->
  exists f, timing (requestAnimationFrame s) = (Some (S f), [S f], S (S f)).
Proof.
  unfold timing, requestAnimationFrame. intros [(f & Hr & Hf & Hn) | H].
  - exists (S f). rewrite Hr. cbn. rewrite Hf, Hn.
    rewrite filter_cons, decide_False by (intros Hne; now apply Hne). reflexivity.
  - injection H as Hr Hf Hn. exists 0%nat. rewrite Hr. cbn. rewrite Hf, Hn. reflexivity.
Qed.

Lemma animate_awaiting t s :
  awaiting s \/ timing s = (None, [], 1%nat) -> awaiting (animate t s).
Proof.
  intros H. destruct (requestAnimationFrame_awaiting s H) as [f Hf].
  rewrite <- (animate_timing t s) in Hf. unfold awaiting.
  generalize dependent (animate t s). intros a Hf. unfold timing in Hf.
  injection Hf as H1 H2 H3. exists f. split; [exact H1 | split; [exact H2 | exact H3]].
Qed.

Lemma play_cons t times s : play (t :: times) s = play times (animate t s).
Proof. reflexivity. Qed.

Lemma play_awaiting times : forall s, awaiting s -> awaiting (play times s).
Proof.
  induction times as [|t times IH]; intros s Hs; [exact Hs|].
  rewrite play_cons. apply IH. apply animate_awaiting. now left.
Qed.

Lemma built_timing : timing built = (None, [], 1%nat).
Proof. reflexivity. Qed.

Lemma mounted_awaiting s : mounted s -> awaiting s.
Proof.
  intros (t & times & ->). rewrite play_cons. apply play_awaiting.
  apply animate_awaiting. right. exact built_timing.
Qed.

(** Removing the meshes of an array from the scene. *)
Lemma removeAll l : forall s,
  let s' := fold_left (fun s b => scene_remove (mesh b) s) l s in
  (forall i, i ∈ children s' <-> i ∈ children s /\ forall b, b ∈ l -> i <> id (mesh b))
  /\ (bullets s', particles s', frames s', rendererDisposed s', resizeListener s',
      canvasAttached s')
     = (bullets s, particles s, frames s, rendererDisposed s, resizeListener s,
        canvasAttached s).
Proof.
  induction l as [|b l IH]; intros s; cbn [fold_left].
  - split; [|reflexivity]. intros i. split; [intros H; split; [exact H|]|tauto].
    intros b Hb. now apply elem_of_nil in Hb.
  - destruct (IH (scene_remove (mesh b) s)) as [Hc Hf]. cbn zeta in Hc, Hf.
    split; [|exact Hf]. intros i. rewrite Hc. unfold scene_remove.
    cbn [children set_children]. rewrite list_elem_of_filter. split.
    + intros [[Hne Hin] Hall]. split; [exact Hin|].
      intros b0 Hb0. apply elem_of_cons in Hb0 as [->|Hb0]; [exact Hne | now apply Hall].
    + intros [Hin Hall]. split; [split; [|exact Hin]|].
      * apply Hall. now left.
      * intros b0 Hb0. apply Hall. now right.
Qed.

(** C7.  The cleanup takes the mesh of every bullet and of every particle
    still in the arrays out of the scene, cancels the animation frame that is
    pending, disposes the renderer, and removes the resize listener. *)
Theorem cleanup_discards_animation mountRef s :
  mounted s ->
  let s' := cleanup mountRef s in
  (forall b, b ∈ bullets s -> id (mesh b) ∉ children s')
  /\ (forall p, p ∈ particles s -> id (mesh p) ∉ children s')
  /\ (exists f, requestRef s = Some f /\ frames s = [f] /\ frames s' = [])
  /\ rendererDisposed s' = true
  /\ resizeListener s' = false.
Proof.
  intros Hm. destruct (mounted_awaiting s Hm) as (f & Hr & Hf & _).
  unfold cleanup. cbv zeta.
  change (requestRef (set_resizeListener false s)) with (requestRef s). rewrite Hr.
  set (s1 := set_rendererDisposed true
               (set_frames (filter (fun i => i <> S f) (frames (set_resizeListener false s)))
                  (set_resizeListener false s))).
  set (s2 := if mountRef then set_canvasAttached false s1 else s1).
  assert (H2 : (bullets s2, particles s2, children s2) = (bullets s, particles s, children s)
               /\ frames s2 = [] /\ rendererDisposed s2 = true /\ resizeListener s2 = false).
  { unfold s2, s1. cbn [frames set_resizeListener]. rewrite Hf.
    rewrite filter_cons, decide_False by (intros Hne; now apply Hne).
    destruct mountRef; repeat split. }
  destruct H2 as (H2 & H2f & H2d & H2r). injection H2 as Hb Hp Hc.
  destruct (removeAll (bullets s2) s2) as [Hc3 Hf3]. cbn zeta in Hc3, Hf3.
  set (s3 := fold_left (fun s b => scene_remove (mesh b) s) (bullets s2) s2) in *.
  injection Hf3 as Hb3 Hp3 Hfr3 Hd3 Hr3 _.
  destruct (removeAll (particles s3) s3) as [Hc4 Hf4]. cbn zeta in Hc4, Hf4.
  set (s4 := fold_left (fun s p => scene_remove (mesh p) s) (particles s3) s3) in *.
  injection Hf4 as _ _ Hfr4 Hd4 Hr4 _.
  split; [|split; [|split; [|split]]].
  - intros b Hin Hch. apply Hc4 in Hch as [Hch _]. apply Hc3 in Hch as [_ Hall].
    rewrite Hb in Hall. now apply (Hall b Hin).
  - intros p Hin Hch. apply Hc4 in Hch as [_ Hall]. rewrite Hp3, Hp in Hall.
    now apply (Hall p Hin).
  - exists (S f). split; [reflexivity|]. split; [exact Hf|]. congruence.
  - congruence.
  - congruence.
Qed.

(** ** Further properties of the sky pod scene *)

(** *** The scene graph and the two arrays *)

(** The names of the meshes of an array. *)
Definition ids (l : list Body) : list nat := (fun b => id (mesh b)) <$> l.

(** [ledger bs ps cs n]: the scene with children [cs] shows the meshes [bs]
    of the bullets and [ps] of the particles, each of them once and nothing
    else, and all of them were made before the mesh counter reached [n]. *)
Definition ledger (bs ps cs : list nat) (n : nat) : Prop :=
  (forall i, i ∈ cs <-> i ∈ bs \/ i ∈ ps)
  /\ NoDup (bs ++ ps)
  /\ NoDup cs
  /\ (forall i, i ∈ bs ++ ps -> (i < n)%nat).

Definition linked (s : Scene) : Prop :=
  ledger (ids (bullets s)) (ids (particles s)) (children s) (nextMesh s).

Lemma ledger_add_bullet bs ps cs n :
  ledger bs ps cs n -> ledger (bs ++ [n]) ps (cs ++ [n]) (S n).
Proof.
  intros (Hc & Hd & Hcd & Hn).
  assert (Hfresh : n ∉ bs ++ ps) by (intros Hin; apply Hn in Hin; lia).
  split; [|split; [|split]].
  - intros i. rewrite !elem_of_app, Hc, list_elem_of_singleton. tauto.
  - apply NoDup_app in Hd as (H1 & H2 & H3). apply NoDup_app. split; [|split; [|exact H3]].
    + apply NoDup_app. split; [exact H1|]. split; [|apply NoDup_singleton].
      intros x Hx Hx'. apply list_elem_of_singleton in Hx'. subst x.
      apply Hfresh, elem_of_app. now left.
    + intros x Hx. apply elem_of_app in Hx as [Hx|Hx]; [now apply H2|].
      apply list_elem_of_singleton in Hx. subst x. intros Hx. apply Hfresh, elem_of_app.
      now right.
  - apply NoDup_app. split; [exact Hcd|]. split; [|apply NoDup_singleton].
    intros x Hx Hx'. apply list_elem_of_singleton in Hx'. subst x.
    apply Hfresh, elem_of_app. apply Hc in Hx. exact Hx.
  - intros i Hi. rewrite !elem_of_app, list_elem_of_singleton in Hi.
    destruct Hi as [[Hi| ->]|Hi]; [|lia|]; (assert (i < n)%nat; [apply Hn, elem_of_app; tauto | lia]).
Qed.

Lemma ledger_swap bs ps cs n : ledger bs ps cs n -> ledger ps bs cs n.
Proof.
  intros (Hc & Hd & Hcd & Hn). split; [|split; [|split]].
  - intros i. rewrite Hc. tauto.
  - apply NoDup_app in Hd as (H1 & H2 & H3). apply NoDup_app. split; [exact H3|].
    split; [|exact H1]. intros x Hx Hx'. exact (H2 x Hx' Hx).
  - exact Hcd.
  - intros i Hi. apply Hn. rewrite elem_of_app in *. tauto.
Qed.

Lemma ledger_add_particle bs ps cs n :
  ledger bs ps cs n -> ledger bs (ps ++ [n]) (cs ++ [n]) (S n).
Proof. intros H. apply ledger_swap, ledger_add_bullet, ledger_swap, H. Qed.

Lemma ledger_remove_bullet bs ps cs n i a :
  ledger bs ps cs n -> bs !! i = Some a ->
  ledger (delete i bs) ps (filter (fun c => c <> a) cs) n.
Proof.
  intros (Hc & Hd & Hcd & Hn) Hat.
  pose proof (delete_Permutation bs i a Hat) as Hperm.
  assert (Hd' : NoDup (a :: delete i bs ++ ps)).
  { change (NoDup ((a :: delete i bs) ++ ps)). now rewrite <- Hperm. }
  apply NoDup_cons in Hd' as [Hfresh Hd'].
  assert (Hin : forall x, x ∈ bs <-> x = a \/ x ∈ delete i bs).
  { intros x. split.
    - intros H. rewrite Hperm in H. now apply elem_of_cons in H.
    - intros H. rewrite Hperm. now apply elem_of_cons. }
  split; [|split; [|split]].
  - intros x. rewrite list_elem_of_filter, Hc, Hin. split.
    + intros [Hne [[->|H]|H]]; tauto.
    + intros [H|H]; (split; [intros ->; apply Hfresh, elem_of_app; tauto | tauto]).
  - exact Hd'.
  - now apply NoDup_filter.
  - intros x Hx. apply Hn. rewrite elem_of_app in *. rewrite Hin. tauto.
Qed.

Lemma ledger_remove_particle bs ps cs n i a :
  ledger bs ps cs n -> ps !! i = Some a ->
  ledger bs (delete i ps) (filter (fun c => c <> a) cs) n.
Proof.
  intros H Hat. apply ledger_swap. apply ledger_remove_bullet; [|exact Hat].
  now apply ledger_swap.
Qed.

Lemma ids_insert l i b b' :
  l !! i = Some b -> id (mesh b') = id (mesh b) -> ids (<[i := b']> l) = ids l.
Proof.
  intros Hat Hid. unfold ids. rewrite list_fmap_insert, Hid.
  apply list_insert_id. now rewrite list_lookup_fmap, Hat.
Qed.

Lemma ids_delete l i : ids (delete i l) = delete i (ids l).
Proof. unfold ids. revert i. induction l as [|b l IH]; intros [|i]; cbn; f_equal; auto. Qed.

Lemma ids_app l b : ids (l ++ [b]) = ids l ++ [id (mesh b)].
Proof. unfold ids. now rewrite fmap_app. Qed.

(** The fields the ledger is read from. *)
Definition books (s : Scene) := (children s, bullets s, particles s, nextMesh s).

Lemma linked_books s s' : books s' = books s -> linked s -> linked s'.
Proof. unfold books, linked. intros [= -> -> -> ->]. trivial. Qed.

(** A bullet at index [i] has been moved and is settled. *)
Lemma settle_linked i b s :
  bullets s !! i = Some b -> linked s ->
  let '(stays, s') := settle (moved b) (set_bullets (<[i := moved b]> (bullets s)) s) in
  linked (if stays then s' else set_bullets (delete i (bullets s')) s').
Proof.
  intros Hat Hs.
  assert (H1 : linked (set_bullets (<[i := moved b]> (bullets s)) s)).
  { unfold linked in *. cbn [bullets particles children nextMesh set_bullets].
    now rewrite (ids_insert _ _ b) by (exact Hat || reflexivity). }
  assert (Hat1 : ids (bullets (set_bullets (<[i := moved b]> (bullets s)) s)) !! i
                 = Some (id (mesh (moved b)))).
  { cbn [bullets set_bullets]. rewrite (ids_insert _ _ b) by (exact Hat || reflexivity).
    unfold ids. now rewrite list_lookup_fmap, Hat. }
  generalize dependent (set_bullets (<[i := moved b]> (bullets s)) s). intros s1 H1 Hat1.
  generalize dependent (moved b). intros mb Hat1. clear Hat Hs b s.
  destruct (settle_cases_spec mb s1) as (Hstruck & Hsunk & Hspent & Hstay).
  destruct (struck s1 mb) eqn:E1; [|destruct (sunk mb) eqn:E2; [|destruct (spent mb) eqn:E3]].
  - rewrite (Hstruck eq_refl).
    unfold linked in *. unfold scene_remove, damaged, spawnParticle, newMesh, random, scene_add.
    cbn [bullets particles children nextMesh set_bullets set_children set_nextMesh set_randoms
         set_particles set_boatState id mesh].
    rewrite ids_delete, ids_app. cbn [id mesh].
    apply ledger_remove_bullet; [|exact Hat1]. now apply ledger_add_particle.
  - rewrite (Hsunk eq_refl eq_refl).
    unfold linked in *. unfold scene_remove, spawnParticle, newMesh, random, scene_add.
    cbn [bullets particles children nextMesh set_bullets set_children set_nextMesh set_randoms
         set_particles id mesh].
    rewrite ids_delete, ids_app. cbn [id mesh].
    apply ledger_remove_bullet; [|exact Hat1]. now apply ledger_add_particle.
  - rewrite (Hspent eq_refl eq_refl eq_refl).
    unfold linked in *. unfold scene_remove.
    cbn [bullets particles children nextMesh set_bullets set_children].
    rewrite ids_delete. now apply ledger_remove_bullet.
  - rewrite Hstay; [exact H1|]. unfold gone. now rewrite E1, E2, E3.
Qed.

Lemma bulletLoop_linked i : forall s, linked s -> linked (bulletLoop i s).
Proof.
  induction i as [|i IH]; intros s Hs; cbn [bulletLoop]; [exact Hs|].
  destruct (bullets s !! i) as [b|] eqn:Hat; [|exact Hs].
  pose proof (settle_linked i b s Hat Hs) as H.
  destruct (settle (moved b) _) as [stays s1]. apply IH. exact H.
Qed.

Lemma particleLoop_linked i : forall s, linked s -> linked (particleLoop i s).
Proof.
  induction i as [|i IH]; intros s Hs; cbn [particleLoop]; [exact Hs|].
  destruct (particles s !! i) as [p|] eqn:Hat; [|exact Hs]. apply IH.
  assert (H1 : ids (<[i := faded p]> (particles s)) = ids (particles s))
    by (apply (ids_insert _ _ p); [exact Hat | reflexivity]).
  destruct (life (faded p) <=? 0)%Z.
  - unfold linked in *. unfold scene_remove.
    cbn [bullets particles children nextMesh set_particles set_children].
    rewrite ids_delete, H1. apply ledger_remove_particle; [exact Hs|].
    unfold ids. now rewrite list_lookup_fmap, Hat.
  - unfold linked in *. cbn [bullets particles children nextMesh set_particles]. now rewrite H1.
Qed.

Lemma spawnBullet_linked p d s : linked s -> linked (spawnBullet p d s).
Proof.
  unfold linked, spawnBullet, newMesh, scene_add.
  cbn [bullets particles children nextMesh set_bullets set_children set_nextMesh].
  rewrite ids_app. cbn [id mesh]. apply ledger_add_bullet.
Qed.

Lemma aimAndFire_linked t s : linked s -> linked (aimAndFire t s).
Proof.
  intros Hs. unfold aimAndFire.
  destruct (negb (isSinking (boatState s)) && _); [|exact Hs].
  cbn [lastFireTime set_minigunRotationY].
  destruct (0.08 <? t - lastFireTime s); [|exact Hs].
  unfold random. apply spawnBullet_linked. exact Hs.
Qed.

Lemma moveBoat_books t s : books (moveBoat t s) = books s.
Proof.
  unfold moveBoat. destruct (negb (isSinking (boatState s))); [reflexivity|].
  destruct (3 <? sinkTimer (boatState s) + 0.02); reflexivity.
Qed.

Lemma requestAnimationFrame_books s : books (requestAnimationFrame s) = books s.
Proof. unfold requestAnimationFrame. destruct (requestRef s); reflexivity. Qed.

Lemma beforeLoop_linked t s : linked s -> linked (beforeLoop t s).
Proof.
  intros Hs. unfold beforeLoop. apply aimAndFire_linked.
  apply (linked_books (movePod t (requestAnimationFrame s))); [apply moveBoat_books|].
  apply (linked_books s); [|exact Hs].
  exact (requestAnimationFrame_books s).
Qed.

Lemma render_linked s : linked s -> linked (render s).
Proof. apply linked_books. reflexivity. Qed.

Lemma afterLoops_linked s : linked s -> linked (afterLoops s).
Proof.
  intros Hs. unfold afterLoops, particlePhysics, bulletPhysics.
  apply render_linked, particleLoop_linked, bulletLoop_linked, Hs.
Qed.

Lemma animate_linked t s : linked s -> linked (animate t s).
Proof.
  intros Hs. rewrite animate_split. apply afterLoops_linked, beforeLoop_linked, Hs.
Qed.

Lemma play_linked times : forall s, linked s -> linked (play times s).
Proof.
  induction times as [|t times IH]; intros s Hs; [exact Hs|].
  rewrite play_cons. apply IH. now apply animate_linked.
Qed.

Lemma built_linked : linked built.
Proof.
  unfold linked, ledger. cbn. split; [|split; [|split]].
  - intros i. split; [intros H; now apply elem_of_nil in H | intros [H|H]; now apply elem_of_nil in H].
  - constructor.
  - constructor.
  - intros i H. now apply elem_of_nil in H.
Qed.

Lemma mounted_linked s : mounted s -> linked s.
Proof. intros (t & times & ->). apply play_linked, built_linked. Qed.

Lemma cleanup_children mountRef s :
  forall i, i ∈ children (cleanup mountRef s)
            <-> i ∈ children s /\ (i ∉ ids (bullets s)) /\ (i ∉ ids (particles s)).
Proof.
  unfold cleanup. cbv zeta.
  set (s2 := if mountRef then _ else _).
  assert (H2 : (bullets s2, particles s2, children s2) = (bullets s, particles s, children s)).
  { unfold s2. cbn [requestRef set_resizeListener].
    destruct mountRef, (requestRef s) as [[|f]|]; reflexivity. }
  injection H2 as Hb Hp Hc.
  destruct (removeAll (bullets s2) s2) as [Hc3 Hf3]. cbn zeta in Hc3, Hf3.
  set (s3 := fold_left (fun s b => scene_remove (mesh b) s) (bullets s2) s2) in *.
  injection Hf3 as _ Hp3 _ _ _ _.
  destruct (removeAll (particles s3) s3) as [Hc4 _]. cbn zeta in Hc4.
  intros i. rewrite Hc4, Hc3, Hp3, Hp, Hb, Hc. unfold ids.
  rewrite !list_elem_of_fmap. split.
  - intros [[Hin Hbs] Hps]. split; [exact Hin|]. split.
    + intros (b & -> & Hb'). now apply (Hbs b Hb').
    + intros (p & -> & Hp'). now apply (Hps p Hp').
  - intros (Hin & Hbs & Hps). split; [split; [exact Hin|]|].
    + intros b Hb' ->. apply Hbs. now exists b.
    + intros p Hp' ->. apply Hps. now exists p.
Qed.

(** X10.  The scene graph and the two arrays agree.  Between two frames
    the meshes in the scene are the meshes of the bullets in [bullets] and of
    the particles in [particles], each exactly once: none is shown twice,
    none is left in the scene after its bullet or particle has gone, and
    none is in an array without being shown.  The cleanup therefore leaves
    not one of them in the scene. *)
Theorem scene_shows_the_arrays mountRef s :
  mounted s ->
  (forall i, i ∈ children s <-> i ∈ ids (bullets s) \/ i ∈ ids (particles s))
  /\ NoDup (children s)
  /\ NoDup (ids (bullets s) ++ ids (particles s))
  /\ children (cleanup mountRef s) = [].
Proof.
  intros Hm. destruct (mounted_linked s Hm) as (Hc & Hd & Hcd & _).
  split; [exact Hc|]. split; [exact Hcd|]. split; [exact Hd|].
  apply elem_of_nil_inv. intros i Hi. apply cleanup_children in Hi as (Hin & Hb & Hp).
  apply Hc in Hin. tauto.
Qed.

(** *** The rate of fire *)

(** Between two frames no two bullets have the same number of frames left,
    and each has between 1 and 59. *)
Definition paced (s : Scene) : Prop :=
  (forall b, b ∈ bullets s -> (1 <= life b <= 59)%Z) /\ NoDup (life <$> bullets s).

Lemma afterLoops_paced s :
  (forall b, b ∈ bullets s -> (1 <= life b <= 60)%Z) -> NoDup (life <$> bullets s) ->
  paced (afterLoops s).
Proof.
  intros Hlife Hd. destruct (afterLoops_bullets s) as [Hb _]. unfold paced. rewrite Hb.
  split.
  - intros b Hin. apply list_elem_of_filter in Hin as [Hgone Hin].
    apply list_elem_of_fmap in Hin as (b0 & -> & Hin0).
    unfold gone, spent in Hgone. apply orb_false_elim in Hgone as [_ Hspent].
    apply Z.leb_gt in Hspent. specialize (Hlife b0 Hin0). cbn [life moved] in *. lia.
  - apply (sublist_NoDup _ (life <$> (moved <$> bullets s))).
    + rewrite <- list_fmap_compose.
      assert (He : life ∘ moved = (fun z => (z - 1)%Z) ∘ life) by reflexivity.
      rewrite He, list_fmap_compose. apply NoDup_fmap_2; [|exact Hd].
      intros z1 z2 Hz. lia.
    + apply fmap_sublist, sublist_filter.
Qed.

Lemma animate_paced t s : paced s -> paced (animate t s).
Proof.
  intros [Hlife Hd]. rewrite animate_split.
  destruct (beforeLoop_bullets t s) as [[H1 _] | (p & d & H1 & _)].
  - apply afterLoops_paced; rewrite H1; [|exact Hd].
    intros b Hb. specialize (Hlife b Hb). lia.
  - apply afterLoops_paced; rewrite H1.
    + intros b Hb. apply elem_of_app in Hb as [Hb|Hb]; [specialize (Hlife b Hb); lia|].
      apply list_elem_of_singleton in Hb. subst b. cbn. lia.
    + rewrite fmap_app. apply NoDup_app. split; [exact Hd|]. split; [|apply NoDup_singleton].
      intros z Hz Hz'. apply list_elem_of_singleton in Hz'. subst z.
      apply list_elem_of_fmap in Hz as (b & Hb & Hin). specialize (Hlife b Hin).
      cbn in Hb. lia.
Qed.

Lemma play_paced times : forall s, paced s -> paced (play times s).
Proof.
  induction times as [|t times IH]; intros s Hs; [exact Hs|].
  rewrite play_cons. apply IH. now apply animate_paced.
Qed.

Lemma built_paced : paced built.
Proof.
  split; [intros b Hb; now apply elem_of_nil in Hb | constructor].
Qed.

Lemma mounted_paced s : mounted s -> paced s.
Proof. intros (t & times & ->). apply play_paced, built_paced. Qed.

(** Distinct numbers between 1 and 59 are at most 59. *)
Lemma distinct_lives (l : list Z) :
  NoDup l -> (forall z, z ∈ l -> (1 <= z <= 59)%Z) -> (length l <= 59)%nat.
Proof.
  intros Hd Hr.
  assert (Hsub : l ⊆+ seqZ 1 59).
  { apply NoDup_submseteq; [exact Hd|]. intros z Hz. apply elem_of_seqZ.
    specialize (Hr z Hz). lia. }
  apply submseteq_length in Hsub. now rewrite length_seqZ in Hsub.
Qed.

(** X11.  The gun fires at most one bullet per frame, so no two bullets in
    the array are of the same age, and the array never holds more than 59
    bullets between two frames; a frame lengthens it by one at most. *)
Theorem at_most_one_shot_per_frame s :
  mounted s ->
  NoDup (life <$> bullets s)
  /\ (length (bullets s) <= 59)%nat
  /\ forall t, (length (bullets (animate t s)) <= S (length (bullets s)))%nat.
Proof.
  intros Hm. destruct (mounted_paced s Hm) as [Hlife Hd].
  split; [exact Hd|]. split.
  - rewrite <- (length_fmap life). apply distinct_lives; [exact Hd|].
    intros z Hz. apply list_elem_of_fmap in Hz as (b & -> & Hb). now apply Hlife.
  - intros t. destruct (animate_bullets t s) as [-> _].
    etrans; [apply length_filter|]. rewrite length_fmap.
    destruct (beforeLoop_bullets t s) as [[-> _] | (p & d & -> & _)].
    + lia.
    + rewrite length_app. cbn [length]. lia.
Qed.

(** *** The course of the boat *)

(** What of the boat only [moveBoat] changes. *)
Definition keel (b : BoatState) : float * float * float * bool * float :=
  (boat_x b, boat_z b, speed b, isSinking b, sinkTimer b).

Definition hull (s : Scene) : float * float * float * bool * float := keel (boatState s).

(** What [moveBoat] does to [boatState]. *)
Definition steer (b : BoatState) : BoatState :=
  if negb (isSinking b) then
    let bx := boat_x b + speed b in
    let wrapped := 150 <? bx in
    let bx := if wrapped then -150 else bx in
    let hp := if wrapped then maxHealth else health b in
    let sinking := hp <=? 0 in
    {| boat_x := bx; boat_z := boat_z b; speed := speed b; health := hp;
       isSinking := sinking; sinkTimer := if sinking then 0 else sinkTimer b |}
  else
    let timer := sinkTimer b + 0.02 in
    if 3 <? timer then
      {| boat_x := -150; boat_z := boat_z b; speed := speed b; health := maxHealth;
         isSinking := false; sinkTimer := timer |}
    else
      {| boat_x := boat_x b; boat_z := boat_z b; speed := speed b; health := health b;
         isSinking := true; sinkTimer := timer |}.

Lemma moveBoat_steer t s : boatState (moveBoat t s) = steer (boatState s).
Proof.
  unfold moveBoat, steer. destruct (negb (isSinking (boatState s))); [reflexivity|].
  destruct (3 <? sinkTimer (boatState s) + 0.02); reflexivity.
Qed.

Lemma settle_hull b s : hull (snd (settle b s)) = hull s.
Proof.
  unfold settle.
  destruct (negb (isSinking (boatState s)) && inHitBox (at_ (boatGroup s)) (position (mesh b)));
    [|destruct (y (position (mesh b)) <? riverYBase); [|destruct (life b <=? 0)%Z]];
    reflexivity.
Qed.

Lemma bulletLoop_hull i : forall s, hull (bulletLoop i s) = hull s.
Proof.
  induction i as [|i IH]; intros s; cbn [bulletLoop]; [reflexivity|].
  destruct (bullets s !! i) as [b|]; [|reflexivity].
  pose proof (settle_hull (moved b) (set_bullets (<[i := moved b]> (bullets s)) s)) as H.
  destruct (settle (moved b) _) as [[] s1]; cbn [snd] in H; rewrite IH; exact H.
Qed.

Lemma particleLoop_hull i : forall s, hull (particleLoop i s) = hull s.
Proof.
  induction i as [|i IH]; intros s; cbn [particleLoop]; [reflexivity|].
  destruct (particles s !! i) as [p|]; [|reflexivity].
  destruct (life (faded p) <=? 0)%Z; rewrite IH; reflexivity.
Qed.

Lemma afterLoops_hull s : hull (afterLoops s) = hull s.
Proof.
  unfold afterLoops, render, particlePhysics, bulletPhysics.
  change (hull (particleLoop (length (particles (bulletLoop (length (bullets s)) s)))
                  (bulletLoop (length (bullets s)) s)) = hull s).
  now rewrite particleLoop_hull, bulletLoop_hull.
Qed.

Lemma aimAndFire_hull t s : hull (aimAndFire t s) = hull s.
Proof.
  unfold aimAndFire. destruct (negb (isSinking (boatState s)) && _); [|reflexivity].
  cbn [lastFireTime set_minigunRotationY].
  destruct (0.08 <? t - lastFireTime s); reflexivity.
Qed.

Lemma requestAnimationFrame_boat s : boatState (requestAnimationFrame s) = boatState s.
Proof. unfold requestAnimationFrame. destruct (requestRef s); reflexivity. Qed.

Lemma animate_hull t s : hull (animate t s) = keel (steer (boatState s)).
Proof.
  rewrite animate_split, afterLoops_hull. unfold beforeLoop. rewrite aimAndFire_hull.
  unfold hull. rewrite moveBoat_steer.
  change (boatState (movePod t (requestAnimationFrame s)))
    with (boatState (requestAnimationFrame s)).
  now rewrite requestAnimationFrame_boat.
Qed.

(** One step of a boat that is afloat: 0.15 downstream, and back to -150
    once it is past 150. *)
Definition sail (bx : float) : float :=
  let bx := bx + 0.15 in
  if 150 <? bx then -150 else bx.

Definition onRiver (bx : float) : bool := (-150 <=? bx) && (bx <=? 150).

(** The boat is back at -150 after 2000 steps. *)
Lemma sail_orbit n : onRiver (Nat.iter n sail (-150)) = true.
Proof.
  apply (Metropolis.orbit_closed sail onRiver (-150) 0 2000);
    [lia | vm_compute; reflexivity | vm_compute; reflexivity].
Qed.

Definition onCourse (s : Scene) : Prop :=
  speed (boatState s) = 0.15
  /\ boat_z (boatState s) = 20
  /\ exists n, boat_x (boatState s) = Nat.iter n sail (-150).

Lemma animate_onCourse t s : onCourse s -> onCourse (animate t s).
Proof.
  intros (Hv & Hz & n & Hn). pose proof (animate_hull t s) as H.
  unfold hull, keel, steer in H. unfold onCourse.
  generalize dependent (boatState (animate t s)). intros b' H.
  destruct (negb (isSinking (boatState s))).
  - cbn [boat_x boat_z speed isSinking sinkTimer] in H.
    injection H as -> -> -> _ _. rewrite Hv, Hn. split; [reflexivity|]. split; [exact Hz|].
    exists (S n). reflexivity.
  - destruct (3 <? sinkTimer (boatState s) + 0.02);
      cbn [boat_x boat_z speed isSinking sinkTimer] in H;
      injection H as -> -> -> _ _; (split; [exact Hv|]); (split; [exact Hz|]).
    + now exists 0%nat.
    + now exists n.
Qed.

Lemma play_onCourse times : forall s, onCourse s -> onCourse (play times s).
Proof.
  induction times as [|t times IH]; intros s Hs; [exact Hs|].
  rewrite play_cons. apply IH. now apply animate_onCourse.
Qed.

Lemma built_onCourse : onCourse built.
Proof. split; [reflexivity|]. split; [reflexivity|]. now exists 0%nat. Qed.

Lemma mounted_onCourse s : mounted s -> onCourse s.
Proof. intros (t & times & ->). apply play_onCourse, built_onCourse. Qed.

(** X12.  The boat keeps to its stretch of the river: whatever frames have
    been shown, its position [boatState.x] lies between -150 and 150, its
    speed is 0.15 and its lane is z = 20.  A frame moves a boat that is
    afloat by its speed and takes it back to -150, with full health, once it
    is past 150. *)
Theorem boat_stays_on_the_river s :
  mounted s ->
  onRiver (boat_x (boatState s)) = true
  /\ speed (boatState s) = 0.15
  /\ boat_z (boatState s) = 20
  /\ forall t, isSinking (boatState s) = false ->
       boat_x (boatState (animate t s)) = sail (boat_x (boatState s)).
Proof.
  intros Hm. destruct (mounted_onCourse s Hm) as (Hv & Hz & n & Hn).
  split; [rewrite Hn; apply sail_orbit|]. split; [exact Hv|]. split; [exact Hz|].
  intros t Hs. pose proof (animate_hull t s) as H. unfold hull, keel, steer in H.
  generalize dependent (boatState (animate t s)). intros b' H.
  rewrite Hs in H. cbn [negb boat_x boat_z speed isSinking sinkTimer] in H.
  injection H as -> _ _ _ _. now rewrite Hv.
Qed.

(** *** Sinking *)

(** The sink timer after [j] frames of sinking. *)
Definition sinkTime (j : nat) : float := Nat.iter j (fun timer => timer + 0.02) 0.

(** The timer passes 3 in the 150th frame of sinking and in none before. *)
Lemma sinkTime_limit j :
  (j < 150)%nat -> (3 <? sinkTime j + 0.02) = (j =? 149)%nat.
Proof.
  intros Hj.
  assert (H : forallb (fun j => Bool.eqb (3 <? sinkTime j + 0.02) (j =? 149)%nat) (seq 0 150)
              = true) by (vm_compute; reflexivity).
  rewrite forallb_forall in H. apply Bool.eqb_prop, H, in_seq. lia.
Qed.

Lemma aimAndFire_boat t s : boatState (aimAndFire t s) = boatState s.
Proof.
  unfold aimAndFire. destruct (negb (isSinking (boatState s)) && _); [|reflexivity].
  cbn [lastFireTime set_minigunRotationY].
  destruct (0.08 <? t - lastFireTime s); reflexivity.
Qed.

Lemma beforeLoop_boat t s : boatState (beforeLoop t s) = steer (boatState s).
Proof.
  unfold beforeLoop. rewrite aimAndFire_boat, moveBoat_steer.
  change (boatState (movePod t (requestAnimationFrame s)))
    with (boatState (requestAnimationFrame s)).
  now rewrite requestAnimationFrame_boat.
Qed.

(** No bullet hurts a boat that is sinking. *)
Lemma settle_sinking b s :
  isSinking (boatState s) = true -> boatState (snd (settle b s)) = boatState s.
Proof.
  intros Hs. unfold settle. rewrite Hs. cbn [negb andb].
  destruct (y (position (mesh b)) <? riverYBase); [|destruct (life b <=? 0)%Z]; reflexivity.
Qed.

Lemma bulletLoop_sinking i : forall s,
  isSinking (boatState s) = true -> boatState (bulletLoop i s) = boatState s.
Proof.
  induction i as [|i IH]; intros s Hs; cbn [bulletLoop]; [reflexivity|].
  destruct (bullets s !! i) as [b|]; [|reflexivity].
  pose proof (settle_sinking (moved b) (set_bullets (<[i := moved b]> (bullets s)) s) Hs) as H.
  destruct (settle (moved b) _) as [[] s1]; cbn [snd] in H.
  - rewrite IH by (rewrite H; exact Hs). exact H.
  - rewrite IH by (cbn [boatState set_bullets]; rewrite H; exact Hs). exact H.
Qed.

Lemma particleLoop_boat i : forall s, boatState (particleLoop i s) = boatState s.
Proof.
  induction i as [|i IH]; intros s; cbn [particleLoop]; [reflexivity|].
  destruct (particles s !! i) as [p|]; [|reflexivity].
  destruct (life (faded p) <=? 0)%Z; rewrite IH; reflexivity.
Qed.

Lemma afterLoops_sinking s :
  isSinking (boatState s) = true -> boatState (afterLoops s) = boatState s.
Proof.
  intros Hs. unfold afterLoops, render, particlePhysics, bulletPhysics.
  change (boatState (particleLoop (length (particles (bulletLoop (length (bullets s)) s)))
                       (bulletLoop (length (bullets s)) s)) = boatState s).
  rewrite particleLoop_boat. now apply bulletLoop_sinking.
Qed.

(** A frame that leaves the boat sinking has done to it what [moveBoat] did. *)
Lemma animate_sinking t s :
  isSinking (steer (boatState s)) = true -> boatState (animate t s) = steer (boatState s).
Proof.
  intros Hs. rewrite animate_split. rewrite afterLoops_sinking; rewrite beforeLoop_boat; trivial.
Qed.

(** Sinking begins with the timer at 0 and ends before the timer has been
    raised 150 times. *)
Definition foundering (s : Scene) : Prop :=
  isSinking (boatState s) = true ->
  exists j, (j < 150)%nat /\ sinkTimer (boatState s) = sinkTime j.

Lemma animate_foundering t s : foundering s -> foundering (animate t s).
Proof.
  intros Hs Hsink. pose proof (animate_hull t s) as H. unfold hull, keel in H.
  generalize dependent (boatState (animate t s)). intros b' Hsink H.
  injection H as _ _ _ H4 H5. rewrite Hsink in H4. rewrite H5. clear H5 b' Hsink.
  unfold steer in *. unfold foundering in Hs.
  destruct (isSinking (boatState s)); cbn [negb] in *.
  - destruct (Hs eq_refl) as (j & Hj & Ht). rewrite Ht in *.
    rewrite (sinkTime_limit j Hj) in *.
    destruct (Nat.eqb_spec j 149) as [->|Hne]; [discriminate|].
    exists (S j). split; [lia | reflexivity].
  - cbn [isSinking sinkTimer] in *. rewrite <- H4. exists 0%nat. split; [lia | reflexivity].
Qed.

Lemma mounted_foundering s : mounted s -> foundering s.
Proof.
  intros (t & times & ->). generalize (t :: times). clear t times. intros times.
  assert (H : forall s, foundering s -> foundering (play times s)).
  { induction times as [|t times IH]; intros s Hs; [exact Hs|].
    rewrite play_cons. apply IH. now apply animate_foundering. }
  apply H. intros Hsink. discriminate Hsink.
Qed.

(** A boat that has sunk for [j] frames goes on sinking, as it is, until
    the 150th frame of its sinking, which sets it afloat at -150. *)
Lemma play_sinking times : forall j s,
  isSinking (boatState s) = true -> sinkTimer (boatState s) = sinkTime j -> (j < 150)%nat ->
  ((length times < 150 - j)%nat ->
   isSinking (boatState (play times s)) = true
   /\ health (boatState (play times s)) = health (boatState s)
   /\ boat_x (boatState (play times s)) = boat_x (boatState s))
  /\ (length times = (150 - j)%nat ->
      isSinking (boatState (play times s)) = false
      /\ boat_x (boatState (play times s)) = -150).
Proof.
  induction times as [|t times IH]; intros j s Hsink Ht Hj.
  - split; [intros _; now repeat split | cbn [length]; lia].
  - rewrite play_cons.
    assert (Hsteer : steer (boatState s)
                     = if (j =? 149)%nat
                       then {| boat_x := -150; boat_z := boat_z (boatState s);
                               speed := speed (boatState s); health := maxHealth;
                               isSinking := false; sinkTimer := sinkTime (S j) |}
                       else {| boat_x := boat_x (boatState s); boat_z := boat_z (boatState s);
                               speed := speed (boatState s); health := health (boatState s);
                               isSinking := true; sinkTimer := sinkTime (S j) |}).
    { unfold steer. rewrite Hsink, Ht. cbn [negb]. rewrite (sinkTime_limit j Hj).
      destruct (j =? 149)%nat; reflexivity. }
    destruct (Nat.eqb_spec j 149) as [->|Hne].
    + pose proof (animate_hull t s) as H. rewrite Hsteer in H. unfold hull, keel in H.
      generalize dependent (animate t s). intros s1 H. cbn [boat_x isSinking] in H.
      injection H as H1 _ _ H4 _.
      split; [cbn [length]; lia|]. cbn [length]. intros Hlen.
      destruct times; [|cbn in Hlen; lia]. now split.
    + assert (Hs1 : boatState (animate t s) = steer (boatState s)).
      { apply animate_sinking. now rewrite Hsteer. }
      rewrite Hsteer in Hs1. generalize dependent (animate t s). intros s1 Hs1.
      destruct (IH (S j) s1) as [Hbefore Hat]; [now rewrite Hs1.. | lia |].
      rewrite Hs1 in Hbefore. cbn [health boat_x] in Hbefore.
      split; cbn [length]; intros Hlen; [apply Hbefore | apply Hat]; lia.
Qed.

(** X13.  A sinking boat comes back.  Once the boat is sinking it goes on
    sinking for [k] more frames, at most 150, during which no bullet hurts
    it and it stays where it is; the last of them puts it afloat again at
    x = -150. *)
Theorem sinking_boat_comes_back s :
  mounted s -> isSinking (boatState s) = true ->
  exists k, (1 <= k <= 150)%nat
    /\ forall times,
         ((length times < k)%nat ->
          isSinking (boatState (play times s)) = true
          /\ health (boatState (play times s)) = health (boatState s)
          /\ boat_x (boatState (play times s)) = boat_x (boatState s))
         /\ (length times = k ->
             isSinking (boatState (play times s)) = false
             /\ boat_x (boatState (play times s)) = -150).
Proof.
  intros Hm Hsink. destruct (mounted_foundering s Hm Hsink) as (j & Hj & Ht).
  exists (150 - j)%nat. split; [lia|]. intros times.
  exact (play_sinking times j s Hsink Ht Hj).
Qed.

(** *** Splashes and debris *)












End Animate.

(** ** Night vision *)

(** What the second effect of the component touches: the background and the
    fog of the scene, and the two lights, each behind the ref the set-up
    effect stores it in. *)
Record Fog := { fogColor : Z; fogNear : float; fogFar : float }.
Record Backdrop := { background : Z; fog : Fog }.
Record AmbientLight := { ambientIntensity : float; ambientColor : Z }.
Record DirectionalLight := { dirIntensity : float; dirColor : Z; dirPosition : Vector3 }.

Record Look := {
  sceneRef : option Backdrop;
  ambientLightRef : option AmbientLight;
  dirLightRef : option DirectionalLight
}.

Definition COLORS_sky : Z := 0x4aa3df.

(** The set-up effect: it returns at once when the component has no element
    to mount on, and leaves the three refs empty. *)
Definition setUp (mountRef : bool) : Look :=
  if mountRef then
    {| sceneRef := Some {| background := COLORS_sky;
                           fog := {| fogColor := COLORS_sky; fogNear := 60; fogFar := 250 |} |};
       ambientLightRef := Some {| ambientIntensity := 0.6; ambientColor := 0xffffff |};
       dirLightRef := Some {| dirIntensity := 1.2; dirColor := 0xfffaed;
                              dirPosition := vec3 50 80 30 |} |}
  else {| sceneRef := None; ambientLightRef := None; dirLightRef := None |}.

(** The effect on [isNightVision]. *)
Definition nightVisionEffect (isNightVision : bool) (l : Look) : Look :=
  match sceneRef l with
  | None => l
  | Some _ =>
    if isNightVision then
      {| sceneRef := Some {| background := 0x051a05;
                             fog := {| fogColor := 0x051a05; fogNear := 10; fogFar := 150 |} |};
         ambientLightRef :=
           match ambientLightRef l with
           | Some _ => Some {| ambientIntensity := 0.2; ambientColor := 0xccffcc |}
           | None => None
           end;
         dirLightRef :=
           match dirLightRef l with
           | Some _ => Some {| dirIntensity := 0.4; dirColor := 0x88ff88;
                               dirPosition := vec3 (-20) 40 (-20) |}
           | None => None
           end |}
    else
      {| sceneRef := Some {| background := COLORS_sky;
                             fog := {| fogColor := COLORS_sky; fogNear := 60; fogFar := 250 |} |};
         ambientLightRef :=
           match ambientLightRef l with
           | Some _ => Some {| ambientIntensity := 0.6; ambientColor := 0xffffff |}
           | None => None
           end;
         dirLightRef :=
           match dirLightRef l with
           | Some _ => Some {| dirIntensity := 1.2; dirColor := 0xfffaed;
                               dirPosition := vec3 50 80 30 |}
           | None => None
           end |}
  end.

(** The effect runs after the set-up and again whenever the flag changes. *)
Definition looks (mountRef : bool) (flags : list bool) : Look :=
  fold_left (fun l b => nightVisionEffect b l) flags (setUp mountRef).

Lemma nightVisionEffect_last b b' l :
  nightVisionEffect b (nightVisionEffect b' l) = nightVisionEffect b l.
Proof.
  destruct l as [[sc|] [a|] [d|]], b, b'; reflexivity.
Qed.

Lemma nightVisionEffect_day m : nightVisionEffect false (setUp m) = setUp m.
Proof. destruct m; reflexivity. Qed.

(** X16.  The look of the scene depends on the last value of the night
    vision flag alone: with the flag off it is exactly what the set-up built
    (sky-blue background and fog from 60 to 250, white ambient light of 0.6,
    sun of 1.2 at (50, 80, 30)), however often the flag went on and off
    before, and with the flag on it is the dark green one.  A component
    without an element to mount on has no scene, and the effect does
    nothing. *)
Theorem night_vision_off_restores_daylight (mountRef : bool) (flags : list bool) :
  looks mountRef flags
  = match last flags with
    | Some true => nightVisionEffect true (setUp mountRef)
    | _ => setUp mountRef
    end
  /\ nightVisionEffect true (setUp true)
     = {| sceneRef := Some {| background := 0x051a05;
                             fog := {| fogColor := 0x051a05; fogNear := 10; fogFar := 150 |} |};
          ambientLightRef := Some {| ambientIntensity := 0.2; ambientColor := 0xccffcc |};
          dirLightRef := Some {| dirIntensity := 0.4; dirColor := 0x88ff88;
                                 dirPosition := vec3 (-20) 40 (-20) |} |}
  /\ nightVisionEffect true (setUp false) = setUp false.
Proof.
  split; [|split; reflexivity].
  unfold looks. induction flags as [|b flags IH] using rev_ind; [reflexivity|].
  rewrite fold_left_app, last_snoc. cbn [fold_left]. rewrite IH.
  destruct (last flags) as [[]|]; rewrite ?nightVisionEffect_last;
    destruct b; try reflexivity; apply nightVisionEffect_day.
Qed.

Example looks_demo :
  looks true [false; true; false; true; false] = setUp true
  /\ looks true [false; true] <> setUp true.
Proof. split; [reflexivity | discriminate]. Qed.

(** ** A run on stand-ins *)

(** Stand-ins for the functions of the platform: the pod hangs at the left
    end of its swing, where the boat is in range of its gun, and a direction
    is scaled by 1/64 in place of its length. *)
Definition demoPlay : list float -> Scene -> Scene :=
  play (fun _ => 0.5) (fun _ => -1) (fun _ => 0) (fun a b => a / b)
       (fun o => at_ o) (fun _ o => at_ o) (fun v => multiplyScalar v 0.015625).

(** The effect has run, which shows a frame, and three more have been shown
    since: the gun has fired in each. *)
Definition demoTimes : list float := [1; 1.1; 1.2; 1.3].

Definition demoScene : Scene := Eval vm_compute in demoPlay demoTimes built.

Lemma demoScene_mounted :
  mounted (fun _ => 0.5) (fun _ => -1) (fun _ => 0) (fun a b => a / b)
          (fun o => at_ o) (fun _ o => at_ o) (fun v => multiplyScalar v 0.015625) demoScene.
Proof. exists 1, [1.1; 1.2; 1.3]. vm_compute. reflexivity. Qed.

Example demo_four_frames :
  (map (fun b => (id (mesh b), life b)) (bullets demoScene), children demoScene,
   requestRef demoScene, frames demoScene, rendered demoScene)
  = ([(0%nat, 56%Z); (1%nat, 57%Z); (2%nat, 58%Z); (3%nat, 59%Z)], [0; 1; 2; 3]%nat,
     Some 4%nat, [4%nat], 4%nat).
Proof. vm_compute. reflexivity. Qed.


Lemma cleanup_discards_animation_demo :
  let s' := cleanup true demoScene in
  (bullets demoScene <> [] /\ particles demoScene = [])
  /\ (forall b, b ∈ bullets demoScene -> id (mesh b) ∉ children s')
  /\ (forall p, p ∈ particles demoScene -> id (mesh p) ∉ children s')
  /\ (exists f, requestRef demoScene = Some f /\ frames demoScene = [f] /\ frames s' = [])
  /\ rendererDisposed s' = true
  /\ resizeListener s' = false.
Proof.
  split; [split; [discriminate | reflexivity]|].
  apply (cleanup_discards_animation (fun _ => 0.5) (fun _ => -1) (fun _ => 0)
           (fun a b => a / b) (fun o => at_ o) (fun _ o => at_ o)
           (fun v => multiplyScalar v 0.015625) true demoScene).
  exact demoScene_mounted.
Defined.

Example cleanup_demo :
  let s' := cleanup true demoScene in
  (children s', frames s', rendererDisposed s', resizeListener s', canvasAttached s')
  = ([], [], true, false, false).
Proof. vm_compute. reflexivity. Qed.

(** A longer run: a frame every tenth of a second.  After fifty frames the
    boat has been hit twenty times and is going down, with bullets in the air
    and debris around it. *)
Fixpoint ticks (n : nat) (t : float) : list float :=
  match n with
  | O => []
  | S n => t :: ticks n (t + 0.1)
  end.

Definition demoSunk : Scene := Eval vm_compute in demoPlay (ticks 50 1) built.

Lemma demoSunk_mounted :
  mounted (fun _ => 0.5) (fun _ => -1) (fun _ => 0) (fun a b => a / b)
          (fun o => at_ o) (fun _ o => at_ o) (fun v => multiplyScalar v 0.015625) demoSunk.
Proof. exists 1, (ticks 49 (1 + 0.1)). vm_compute. reflexivity. Qed.

Example demo_fifty_frames :
  (isSinking (boatState demoSunk), health (boatState demoSunk),
   length (bullets demoSunk), length (particles demoSunk), length (children demoSunk))
  = (true, 0, 27%nat, 20%nat, 47%nat).
Proof. vm_compute. reflexivity. Qed.

Lemma scene_shows_the_arrays_demo :
  (bullets demoSunk <> [] /\ particles demoSunk <> [])
  /\ (forall i, i ∈ children demoSunk
                <-> i ∈ ids (bullets demoSunk) \/ i ∈ ids (particles demoSunk))
  /\ NoDup (children demoSunk)
  /\ NoDup (ids (bullets demoSunk) ++ ids (particles demoSunk))
  /\ children (cleanup true demoSunk) = [].
Proof.
  split; [split; discriminate|].
  apply (scene_shows_the_arrays (fun _ => 0.5) (fun _ => -1) (fun _ => 0) (fun a b => a / b)
           (fun o => at_ o) (fun _ o => at_ o) (fun v => multiplyScalar v 0.015625)
           true demoSunk).
  exact demoSunk_mounted.
Defined.

Lemma at_most_one_shot_per_frame_demo :
  length (bullets demoScene) = 4%nat
  /\ NoDup (life <$> bullets demoScene)
  /\ (length (bullets demoScene) <= 59)%nat
  /\ forall t, (length (bullets (demoPlay [t] demoScene)) <= S (length (bullets demoScene)))%nat.
Proof.
  split; [reflexivity|].
  apply (at_most_one_shot_per_frame (fun _ => 0.5) (fun _ => -1) (fun _ => 0)
           (fun a b => a / b) (fun o => at_ o) (fun _ o => at_ o)
           (fun v => multiplyScalar v 0.015625) demoScene).
  exact demoScene_mounted.
Defined.

Lemma boat_stays_on_the_river_demo :
  isSinking (boatState demoScene) = false
  /\ onRiver (boat_x (boatState demoScene)) = true
  /\ speed (boatState demoScene) = 0.15
  /\ boat_z (boatState demoScene) = 20
  /\ forall t, isSinking (boatState demoScene) = false ->
               boat_x (boatState (demoPlay [t] demoScene)) = sail (boat_x (boatState demoScene)).
Proof.
  split; [reflexivity|].
  apply (boat_stays_on_the_river (fun _ => 0.5) (fun _ => -1) (fun _ => 0)
           (fun a b => a / b) (fun o => at_ o) (fun _ o => at_ o)
           (fun v => multiplyScalar v 0.015625) demoScene).
  exact demoScene_mounted.
Defined.

Lemma sinking_boat_comes_back_demo :
  exists k, (1 <= k <= 150)%nat
    /\ forall times,
         ((length times < k)%nat ->
            isSinking (boatState (demoPlay times demoSunk)) = true
            /\ health (boatState (demoPlay times demoSunk)) = health (boatState demoSunk)
            /\ boat_x (boatState (demoPlay times demoSunk)) = boat_x (boatState demoSunk))
         /\ (length times = k ->
             isSinking (boatState (demoPlay times demoSunk)) = false
             /\ boat_x (boatState (demoPlay times demoSunk)) = -150).
Proof.
  apply (sinking_boat_comes_back (fun _ => 0.5) (fun _ => -1) (fun _ => 0)
           (fun a b => a / b) (fun o => at_ o) (fun _ o => at_ o)
           (fun v => multiplyScalar v 0.015625) demoSunk).
  - exact demoSunk_mounted.
  - reflexivity.
Defined.

(** The boat of the run stays under for 147 more frames and is back at the
    start of the river, repaired, in the 148th. *)
Example sinking_demo :
  (isSinking (boatState (demoPlay (ticks 147 6) demoSunk)),
   isSinking (boatState (demoPlay (ticks 148 6) demoSunk)),
   boat_x (boatState (demoPlay (ticks 148 6) demoSunk)),
   health (boatState (demoPlay (ticks 148 6) demoSunk)))
  = (true, false, -150, 100).
Proof. vm_compute. reflexivity. Qed.


Example particles_demo :
  map (fun p => (kind (mesh p), life p)) (particles demoSunk)
  = map (fun n => (debrisMesh, Z.of_nat n)) (seq 7 20).
Proof. vm_compute. reflexivity. Qed.

End SkyPod.
